(** * Gemeindestand mapper: state identification, mapping composition and
      newest-state projection

    Shallow embedding of [code/municipality_mapping/code_mapper.py]
    (class [MunicipalityCodeMapper]) and of the catalog construction in
    [code/municipality_mapping/base_class.py], with the properties the
    specification states about them.  The older copy of the class in
    [src/bfs_code_mapping/municipality_code_mapper.py] has the same state
    identifier and the same composer; its projector differs (string codes, a
    projected column that starts as [pd.NA]) and is not the one embedded.

    Conventions of the embedding.
    - Python exceptions are the constructors of [exn]; a call that may raise
      returns a [result].
    - A Python [dict] is an insertion-ordered association list with unique
      keys ([dict_set] updates in place or appends), a Python [set] of codes is
      a [gset Z]; where the source walks a set, the order is that of
      [elements], and no property depends on it.
    - A Gemeindestand date is the day ordinal of the ["dd-mm-YYYY"] string the
      source carries ([datetime.strptime(s, "%d-%m-%Y").toordinal()]).  The
      catalog only ever holds strings produced by [strftime], for which
      parsing and printing are inverse, so string equality and equality of
      ordinals coincide on catalog dates.  A string of a caller that names no
      day makes [strptime] raise [ValueError] and has no counterpart in
      [date]; what is proved of a call with a [date] argument is what the call
      returns, or when it is bound to raise, never that it cannot raise.
    - The codes of the data passed to the state identifier are integers.  The
      projector parses and casts the cells of its caller (lines 543 and 548):
      [map_multiple_gemeindestaende_to_newest] is the function on a frame of
      dates and integers, and [raw.map_multiple_gemeindestaende_to_newest]
      the function on the cells as they come, where these two lines can
      raise.
    - A DataFrame is the list of its rows, in order; the columns a method
      reads or writes are the fields of the row, and a missing value (NaN,
      [pd.NA]) is [None] or [NA].
    - The network is the function [_fetch_mapping]: what the request for a
      pair of dates returns or raises. *)

From stdpp Require Import base decidable option numbers list gmap strings sorting.

Set Default Proof Using "Type".

(** ** Exceptions and results *)

Inductive exn : Type :=
  | ValueError
  | UnboundLocalError
  | IndexError
  | KeyError
  | AssertionError
  | TypeError
  | AttributeError
  | ClientError.

Inductive result (A : Type) : Type :=
  | Ok (a : A)
  | Raise (e : exn).
Arguments Ok {A} a.
Arguments Raise {A} e.

#[global] Instance exn_eq_dec : EqDecision exn.
Proof. solve_decision. Defined.

#[global] Instance result_ret : MRet result := fun A a => Ok a.
#[global] Instance result_bind : MBind result := fun A B f m =>
  match m with
  | Ok a => f a
  | Raise e => Raise e
  end.

Definition is_Ok {A} (r : result A) : Prop := exists a, r = Ok a.

(** [for x in xs: acc = body(acc, x)] where the body may raise. *)
Fixpoint for_each {A B} (body : B -> A -> result B) (xs : list A) (acc : B)
  : result B :=
  match xs with
  | [] => Ok acc
  | x :: xs' =>
      match body acc x with
      | Ok acc' => for_each body xs' acc'
      | Raise e => Raise e
      end
  end.

(** ** Python dictionaries *)

Section pydict.
Context {K V : Type} `{EqDecision K}.

Fixpoint dict_get (k : K) (d : list (K * V)) : option V :=
  match d with
  | [] => None
  | (k', v) :: d' => if decide (k = k') then Some v else dict_get k d'
  end.

(** [d[k] = v]: an existing key keeps its position. *)
Fixpoint dict_set (k : K) (v : V) (d : list (K * V)) : list (K * V) :=
  match d with
  | [] => [(k, v)]
  | (k', v') :: d' =>
      if decide (k = k') then (k', v) :: d' else (k', v') :: dict_set k v d'
  end.

Definition dict_keys (d : list (K * V)) : list K := d.*1.

(** [dict(items)] and the dict comprehension [{k: v for k, v in items}]. *)
Definition dict_of_items (items : list (K * V)) : list (K * V) :=
  fold_left (fun acc kv => dict_set kv.1 kv.2 acc) items [].
End pydict.

(** [{v: k for k, v in d.items()}] *)
Definition dict_invert {K V} `{EqDecision V} (d : list (K * V)) : list (V * K) :=
  dict_of_items (map (fun kv => (kv.2, kv.1)) d).

(** ** The catalog of Gemeindestaende ([BaseMunicipalityData]) *)

Definition date := Z.

Record BaseMunicipalityData : Type := {
  (** the DataFrame [self.data]: columns [gemeindestand], [anz_gmde] *)
  data : list (date * nat);
  (** [self.gmde_dct]: Gemeindestand -> (BFS code -> name) *)
  gmde_dct : list (date * list (Z * string));
}.

Definition gemeindestaende (self : BaseMunicipalityData) : list date :=
  (data self).*1.

(** [self.all_historical_bfs_codes], as [__init__] accumulates it. *)
Definition all_historical_bfs_codes (self : BaseMunicipalityData) : gset Z :=
  fold_left (fun acc name_dct => acc ∪ list_to_set (dict_keys name_dct))
            (gmde_dct self).*2 ∅.

(** [_fetch_base_data('code_mapping', ...)], from the level-3 rows
    (BfsCode, Name) of the snapshot downloaded for every mutation date, the
    dates being distinct and in chronological order. *)
Definition _fetch_base_data (snapshots : list (date * list (Z * string)))
  : BaseMunicipalityData :=
  {| data := map (fun ds => (ds.1, size (list_to_set ds.2.*1 : gset Z))) snapshots;
     gmde_dct := dict_of_items (map (fun ds => (ds.1, dict_of_items ds.2)) snapshots) |}.

(** ** State identifier *)

Section identifier.
Variable self : BaseMunicipalityData.

Definition gmde_freie_geb : list (Z * string) :=
  [ (2285, "Staatswald Galm");
    (2391, "Staatswald Galm");
    (5020, "C'za Medeglia/Robasacco");
    (5391, "C'za Cadenazzo/Monteceneri");
    (5238, "C'za Corticiasca/Valcolla");
    (5394, "C'za Capriasca/Lugano");
    (6072, "Kommunanz Gluringen-Ritzingen");
    (6391, "Kommunanz Reckingen-Gluringen/Grafschaft") ]%Z.

Definition _check_for_unpoulated_areas (gemeinde_set : gset Z) : gset Z :=
  let shared_territories :=
    filter (fun code => code ∈ dict_keys gmde_freie_geb) gemeinde_set in
  let gemeinde_set := gemeinde_set ∖ shared_territories in
  let non_municipal_areas := filter (fun code => (7000 <= code)%Z) gemeinde_set in
  gemeinde_set ∖ non_municipal_areas.

(** [set(self.gmde_dct.get(candidate, {}).keys())] *)
Definition unique_gemeinden (candidate : date) : gset Z :=
  list_to_set (dict_keys (default [] (dict_get candidate (gmde_dct self)))).

Definition _check_gemeindestand (candidate : date) (gemeinde_set : gset Z) : bool :=
  bool_decide (gemeinde_set ∖ unique_gemeinden candidate = ∅).

(** [df.loc[df[code_column] == code, name_column].values[0]] *)
Definition first_name_of (df : list (Z * string)) (code : Z) : result string :=
  match filter (fun row => row.1 = code) df with
  | row :: _ => Ok row.2
  | [] => Raise IndexError
  end.

(** [wrong_codes_dict] is bound only inside the [if]; the [return] after it
    reads the unbound local when no wrong code was found.  (The codes are
    integers: on a missing code the [int(code)] of the message raises
    [ValueError].) *)
Definition _check_for_non_bfs_codes (df : list (Z * string)) (gemeinde_set : gset Z)
  : result (gset Z * list (Z * string)) :=
  let wrong_codes := gemeinde_set ∖ all_historical_bfs_codes self in
  if decide (0 < size wrong_codes) then
    let gemeinde_set := gemeinde_set ∖ wrong_codes in
    wrong_codes_dict ←
      for_each (fun acc code => name ← first_name_of df code; Ok (dict_set code name acc))
               (elements wrong_codes) [];
    Ok (gemeinde_set, wrong_codes_dict)
  else Raise UnboundLocalError.

Definition _correct_wrong_codes (inferred_gmde_stand : date)
    (wrong_codes_dict : list (Z * string)) : list (Z * Z) :=
  let correct_dict :=
    dict_invert (default [] (dict_get inferred_gmde_stand (gmde_dct self))) in
  let wrong_dict := dict_invert wrong_codes_dict in
  dict_of_items
    (map (fun name =>
            let wrong := default 0%Z (dict_get name wrong_dict) in
            (wrong, default wrong (dict_get name correct_dict)))
         (dict_keys wrong_dict)).

(** the [for] loop of [_infer_gemeindestand] over the reversed catalog *)
Fixpoint infer_loop (gemeinde_set : gset Z) (staende : list date) : result date :=
  match staende with
  | [] => Raise ValueError
  | gemeindestand :: rest =>
      if bool_decide (gemeinde_set ∖ unique_gemeinden gemeindestand = ∅)
      then Ok gemeindestand
      else infer_loop gemeinde_set rest
  end.

Definition _infer_gemeindestand (gemeinde_set : gset Z) : result date :=
  infer_loop gemeinde_set (reverse (gemeindestaende self)).

(** the [for candidate in candidates] loop of [find_gemeindestand];
    [None] when the loop ends without returning *)
Fixpoint candidates_loop (gemeinde_set : gset Z) (candidates : list date)
  : option date :=
  match candidates with
  | [] => None
  | candidate :: rest =>
      if _check_gemeindestand candidate gemeinde_set then Some candidate
      else candidates_loop gemeinde_set rest
  end.

(** the [try] block at the end of [find_gemeindestand] *)
Definition infer_and_correct (gemeinde_set : gset Z)
    (wrong_codes_dict : list (Z * string))
  : result (date * option (list (Z * Z))) :=
  match _infer_gemeindestand gemeinde_set with
  | Ok candidate =>
      Ok (candidate, Some (_correct_wrong_codes candidate wrong_codes_dict))
  | Raise e => Raise e  (* [except ValueError as e: raise ValueError(...) from e] *)
  end.

(** [find_gemeindestand] from the line that selects the candidates on *)
Definition search_gemeindestand (num_gmde : nat) (gemeinde_set : gset Z)
    (wrong_codes_dict : list (Z * string))
  : result (date * option (list (Z * Z))) :=
  let candidates := (filter (fun row => row.2 = num_gmde) (data self)).*1 in
  match candidates with
  | [] => infer_and_correct gemeinde_set wrong_codes_dict
  | [candidate] =>
      if _check_gemeindestand candidate gemeinde_set then Ok (candidate, None)
      else infer_and_correct gemeinde_set wrong_codes_dict
  | _ =>
      match candidates_loop gemeinde_set candidates with
      | Some candidate => Ok (candidate, None)
      | None => infer_and_correct gemeinde_set wrong_codes_dict
      end
  end.

Definition find_gemeindestand (df : list (Z * string))
  : result (date * option (list (Z * Z))) :=
  let gemeinde_set : gset Z := list_to_set df.*1 in
  let gemeinde_set := _check_for_unpoulated_areas gemeinde_set in
  let num_gmde := size gemeinde_set in
  '(gemeinde_set, wrong_codes_dict) ← _check_for_non_bfs_codes df gemeinde_set;
  search_gemeindestand num_gmde gemeinde_set wrong_codes_dict.
End identifier.


(** Well-formed catalogs: what [_fetch_base_data] builds from snapshots of
    distinct dates. *)
Definition catalog_wf (self : BaseMunicipalityData) : Prop :=
  NoDup (gemeindestaende self) /\
  forall g n, (g, n) ∈ data self -> n = size (unique_gemeinden self g).

(** ** Dates *)

(** [datetime(y, m, d).toordinal()] of the proleptic Gregorian calendar, used
    to write the dates of the examples. *)
Definition is_leap (y : Z) : bool :=
  bool_decide (y mod 4 = 0 /\ (y mod 100 <> 0 \/ y mod 400 = 0))%Z.

Definition days_before_month (y m : Z) : Z :=
  (nth (Z.to_nat (m - 1)) [0; 31; 59; 90; 120; 151; 181; 212; 243; 273; 304; 334] 0
   + (if bool_decide (2 < m) && is_leap y then 1 else 0))%Z.

Definition toordinal (y m d : Z) : date :=
  (let p := y - 1 in
   p * 365 + p / 4 - p / 100 + p / 400 + days_before_month y m + d)%Z.

(** [min(xs, key=key)] and [max(xs)] return the first extremal element. *)
Fixpoint min_by (key : Z -> Z) (best : Z) (xs : list Z) : Z :=
  match xs with
  | [] => best
  | x :: xs' => if decide (key x < key best)%Z then min_by key x xs' else min_by key best xs'
  end.

Fixpoint max_of (best : Z) (xs : list Z) : Z :=
  match xs with
  | [] => best
  | x :: xs' => if decide (best < x)%Z then max_of x xs' else max_of best xs'
  end.

(** [xs.index(x)] *)
Fixpoint list_index (x : Z) (xs : list Z) : result nat :=
  match xs with
  | [] => Raise ValueError
  | y :: ys => if decide (x = y) then Ok 0 else i ← list_index x ys; Ok (S i)
  end.

(** [[f(x) for x in xs]] where [f] may raise *)
Fixpoint comprehension {A B} (f : A -> result B) (xs : list A) : result (list B) :=
  match xs with
  | [] => Ok []
  | x :: xs' => y ← f x; ys ← comprehension f xs'; Ok (y :: ys)
  end.

(** [sorted(set(xs))] on dates: a set has no order of its own, sorting
    distinct dates has one result. *)
Definition sorted_set (xs : list date) : list date :=
  merge_sort Z.le (elements (list_to_set xs : gset Z)).

(** ** Correspondence tables *)

(** One row of the CSV the correspondence endpoint returns, restricted to the
    four columns the mapper reads; an empty CSV field is [None] (NaN). *)
Record edge : Type := {
  InitialCode : option Z;
  InitialName : option string;
  TerminalCode : option Z;
  TerminalName : option string;
}.

#[global] Instance edge_eq_dec : EqDecision edge.
Proof. solve_decision. Defined.

(** The running [full_mapping]: for every date in [columns] the pair of
    columns [bfs_gmde_code_<date>], [bfs_gmde_name_<date>], in this order. *)
Record frame : Type := {
  columns : list date;
  rows : list (list (option Z * option string));
}.

#[global] Instance frame_eq_dec : EqDecision frame.
Proof. solve_decision. Defined.

(** What [create_multi_mapping] returns: [full_mapping] as it is, or with the
    columns whose name contains ["name"] dropped. *)
Inductive wide_table : Type :=
  | WithNames (full_mapping : frame)
  | CodesOnly (code_columns : list date) (code_rows : list (list (option Z))).

Inductive targets_arg : Type :=
  | TargetTuple (targets : list date)
  | TargetList (targets : list date)
  | TargetOther.

Section composer.
Variable self : BaseMunicipalityData.
(** [_fetch_mapping(session, origin, target)]: one GET request; it raises
    when the transport or the CSV parser does. *)
Variable _fetch_mapping : date -> date -> result (list edge).

Definition nearest_any (official_gemeindestaende : list date) (target : date)
  : result date :=
  match official_gemeindestaende with
  | [] => Raise ValueError  (* [min()] of an empty sequence *)
  | d :: ds => Ok (min_by (fun date => Z.abs (date - target)) d ds)
  end.

Definition _nearest (official_gemeindestaende : list date) (target : date)
    (prefer : string) : result date :=
  if decide (prefer = "nearest") then nearest_any official_gemeindestaende target
  else if decide (prefer = "smaller") then
    match filter (fun date => (date <= target)%Z) official_gemeindestaende with
    | [] => nearest_any official_gemeindestaende target
    | d :: ds => Ok (max_of d ds)
    end
  else if decide (prefer = "larger") then
    match filter (fun date => (target <= date)%Z) official_gemeindestaende with
    | [] => nearest_any official_gemeindestaende target
    | d :: ds => Ok (min_by (fun date => date) d ds)
    end
  else Raise ValueError.

Definition _find_closest_official_gemeindestand (given_date : date)
    (prefer : string) : result date :=
  if decide (given_date ∈ gemeindestaende self) then Ok given_date
  else _nearest (gemeindestaende self) given_date prefer.

Definition _validate_and_transform_targets (targets : targets_arg)
  : result (list date) :=
  match targets with
  | TargetTuple [t0; t1] =>
      start ← _find_closest_official_gemeindestand t0 "smaller";
      end_ ← _find_closest_official_gemeindestand t1 "larger";
      let gemeindestaende := gemeindestaende self in
      start_index ← list_index start gemeindestaende;
      end_index ← (i ← list_index end_ gemeindestaende; Ok (i + 1));
      Ok (drop start_index (take end_index gemeindestaende))
  | TargetTuple _ => Raise AssertionError
  | TargetList targets =>
      comprehension (fun target => _find_closest_official_gemeindestand target "nearest")
                    targets
  | TargetOther => Raise TypeError
  end.

(** The first loop of [create_multi_mapping]: the requests put into
    [tasks], in the order they are created. *)
Fixpoint fetch_tasks (start_date : date) (targets : list date) : list (date * date) :=
  match targets with
  | [] => []
  | target :: rest => (start_date, target) :: fetch_tasks target rest
  end.

(** [await asyncio.gather] over [tasks]: the results in the order of [tasks]; a
    request that raises makes the whole gather raise. *)
Definition gather (tasks : list (date * date)) : result (list (list edge)) :=
  comprehension (fun task => _fetch_mapping task.1 task.2) tasks.

(** [mapping[cols]] with the columns renamed to the two dates of the hop *)
Definition renamed (start_date target : date) (mapping : list edge) : frame :=
  {| columns := [start_date; target];
     rows := map (fun e => [(InitialCode e, InitialName e);
                            (TerminalCode e, TerminalName e)]) mapping |}.

(** Position of the columns [bfs_gmde_code_<d>], [bfs_gmde_name_<d>] *)
Fixpoint column_index (d : date) (cols : list date) : option nat :=
  match cols with
  | [] => None
  | c :: cols' => if decide (d = c) then Some 0 else S <$> column_index d cols'
  end.

(** [full_mapping.merge(mapping, on=[code_<start_date>, name_<start_date>],
    how='left')]: the rows of [full_mapping] in their order, each once per
    matching row of [mapping] (in the order of [mapping]) or once with NaN
    in the new columns; pandas lets a NaN key match a NaN key.  The dates
    of a call are strictly increasing, so the columns of [target] are new
    and no suffix is added. *)
Definition merge_left (full_mapping : frame) (start_date target : date)
    (mapping : list edge) : result frame :=
  match column_index start_date (columns full_mapping) with
  | None => Raise KeyError
  | Some j =>
      Ok {| columns := columns full_mapping ++ [target];
            rows :=
              flat_map
                (fun row =>
                   let key := default (None, None) (row !! j) in
                   match filter (fun e => (InitialCode e, InitialName e) = key) mapping with
                   | [] => [row ++ [(None, None)]]
                   | matches =>
                       map (fun e => row ++ [(TerminalCode e, TerminalName e)]) matches
                   end)
                (rows full_mapping) |}
  end.

(** The second loop: [for i, mapping in enumerate(mappings)], with the
    loop variables [full_mapping] and [start_date]. *)
Fixpoint compose_loop (targets : list date) (i : nat) (mappings : list (list edge))
    (full_mapping : option frame) (start_date : date) : result (option frame) :=
  match mappings with
  | [] => Ok full_mapping
  | mapping :: rest =>
      match targets !! i with
      | None => Raise IndexError
      | Some target =>
          full_mapping' ←
            match full_mapping with
            | None => Ok (renamed start_date target mapping)
            | Some full => merge_left full start_date target mapping
            end;
          compose_loop targets (S i) rest (Some full_mapping') target
      end
  end.

Definition drop_names (full_mapping : frame) : wide_table :=
  CodesOnly (columns full_mapping) (map (map fst) (rows full_mapping)).

(** The end of [create_multi_mapping]: [full_mapping] is still [None] when
    there was no hop, and [None] has no [drop]. *)
Definition return_mapping (return_names : bool) (full_mapping : option frame)
  : result (option wide_table) :=
  if return_names then Ok (WithNames <$> full_mapping)
  else match full_mapping with
       | None => Raise AttributeError
       | Some full => Ok (Some (drop_names full))
       end.

(** The dates of the hops: [date_strings] *)
Definition hop_dates (origin : date) (targets : targets_arg) : result (list date) :=
  origin ← _find_closest_official_gemeindestand origin "smaller";
  targets ← _validate_and_transform_targets targets;
  let targets := targets ++ [origin] in
  Ok (sorted_set targets).

(** [create_multi_mapping], returning next to its result the requests it
    has issued. *)
Definition create_multi_mapping (origin : date) (targets : targets_arg)
    (return_names : bool) : list (date * date) * result (option wide_table) :=
  match hop_dates origin targets with
  | Raise e => ([], Raise e)
  | Ok [] => ([], Raise IndexError)
  | Ok (earliest_date :: targets) =>
      let tasks := fetch_tasks earliest_date targets in
      (tasks,
       mappings ← gather tasks;
       full_mapping ← compose_loop targets 0 mappings None earliest_date;
       return_mapping return_names full_mapping)
  end.
End composer.

(** *** The fold as the specification words it

    "Start with hop 0's table; for each subsequent hop, left-join its table
    onto the running table using the (code, name) pair produced by the
    previous hop as the join key, preserving every row of the running table
    even when the next hop has no match." *)

(** The edges of a table a running row is joined with: those whose initial
    (code, name) is the last pair of the row *)
Definition matching (r : list (option Z * option string)) (table : list edge) : list edge :=
  filter (fun e => (InitialCode e, InitialName e) = default (None, None) (last r)) table.

Definition join_row (table : list edge) (row : list (option Z * option string))
  : list (list (option Z * option string)) :=
  match matching row table with
  | [] => [row ++ [(None, None)]]
  | matches => map (fun e => row ++ [(TerminalCode e, TerminalName e)]) matches
  end.

Definition left_join_last (running : frame) (target : date) (table : list edge) : frame :=
  {| columns := columns running ++ [target];
     rows := flat_map (join_row table) (rows running) |}.

Definition spec_fold (hops : list date) (tables : list (list edge)) : option frame :=
  match hops, tables with
  | d0 :: d1 :: later, table0 :: tables' =>
      Some (fold_left (fun running dt => left_join_last running dt.1 dt.2)
                      (zip later tables')
                      (renamed d0 d1 table0))
  | _, _ => None
  end.

(** Every row has one pair of cells per date. *)
Definition frame_wf (f : frame) : Prop :=
  forall row, row ∈ rows f -> length row = length (columns f).

(** The rows of a frame that continue a given row of an earlier frame *)
Definition extensions (r : list (option Z * option string)) (f : frame)
  : list (list (option Z * option string)) :=
  filter (fun w => r `prefix_of` w) (rows f).


(** ** Newest-state projector *)

Inductive cell : Type :=
  | NA
  | Int (z : Z)
  | Str (s : string).

#[global] Instance cell_eq_dec : EqDecision cell.
Proof. solve_decision. Defined.

(** Column names other than [code_column] and [stand_column]: the caller's
    own, and the generated [f'bfs_gmde_code_{d}']. *)
Inductive colname : Type :=
  | Col (s : string)
  | BfsGmdeCode (d : date).

#[global] Instance colname_eq_dec : EqDecision colname.
Proof. solve_decision. Defined.

(** A row of the caller's DataFrame: the cell in [code_column] (numeric,
    possibly missing), the cell in [stand_column] (a date, possibly missing)
    and the cells of the remaining columns by name. *)
Record row : Type := {
  code : option Z;
  stand : option date;
  extra : list (colname * cell);
}.

#[global] Instance row_eq_dec : EqDecision row.
Proof. solve_decision. Defined.

(** [series.unique()]: first occurrences, in order *)
Fixpoint unique (xs : list Z) : list Z :=
  match xs with
  | [] => []
  | x :: xs' => x :: filter (fun y => y <> x) (unique xs')
  end.

Section projector.
Variable _fetch_mapping : date -> date -> result (list edge).

(** [df[c] = v] on one row *)
Definition set_extra (c : colname) (v : cell) (r : row) : row :=
  {| code := code r; stand := stand r; extra := dict_set c v (extra r) |}.

(** [df[code_column].fillna(0).astype(int)] on one row of a frame whose
    codes are integers within int64, where the cast is exact; the cast of
    any other cell is [raw.astype_int] *)
Definition fill_code (r : row) : row :=
  {| code := Some (default 0%Z (code r)); stand := stand r; extra := extra r |}.

Definition code_cell (r : row) : cell :=
  match code r with
  | Some c => Int c
  | None => NA
  end.

(** [mapping[['InitialCode', 'TerminalCode']]] with both columns cast by
    [astype(int)], which raises on a missing value *)
Definition int_columns (mapping : list edge) : result (list (Z * Z)) :=
  comprehension
    (fun e => match InitialCode e, TerminalCode e with
              | Some i, Some t => Ok (i, t)
              | _, _ => Raise ValueError
              end)
    mapping.

(** [df.merge(mapping, on=[stand_column, code_column], how='left')], the
    new column [bfs_gmde_code_<newest>_update] kept next to the row *)
Definition merge_update (origin : date) (mapping : list (Z * Z)) (df : list row)
  : list (row * option Z) :=
  flat_map
    (fun r =>
       match filter (fun m => stand r = Some origin /\ code r = Some m.1) mapping with
       | [] => [(r, None)]
       | matches => map (fun m => (r, Some m.2)) matches
       end)
    df.

(** [df.loc[~df[update].isna(), projected] = df[update]] followed by
    [df.drop(columns=[update])] *)
Definition apply_update (newest : date) (merged : list (row * option Z)) : list row :=
  map (fun ru => match ru.2 with
                 | Some t => set_extra (BfsGmdeCode newest) (Int t) ru.1
                 | None => ru.1
                 end)
      merged.

(** One iteration of [for origin, mapping in zip(origins, mappings)] *)
Definition project_step (newest : date) (df : list row)
    (om : date * list edge) : result (list row) :=
  mapping ← int_columns om.2;
  Ok (apply_update newest (merge_update om.1 mapping df)).

(** [df.loc[df[stand_column] == newest, projected] = df[code_column]] *)
Definition copy_newest (newest : date) (df : list row) : list row :=
  map (fun r => if decide (stand r = Some newest)
                then set_extra (BfsGmdeCode newest) (code_cell r) r
                else r)
      df.

(** [map_multiple_gemeindestaende_to_newest]: the first component is the
    caller's DataFrame object after the call, the second what the call
    returns or raises.  The name [df] refers to the caller's object until
    the first [df = df.merge(...)] rebinds it.  The frame holds dates and
    integers (or missing values), as a frame the function has returned
    does; [raw.map_multiple_gemeindestaende_to_newest] has the cells of a
    caller. *)
Definition map_multiple_gemeindestaende_to_newest (df : list row)
  : list row * result (list row) :=
  let gemeindestaende := unique (omap stand df) in
  let date_strings := merge_sort Z.le gemeindestaende in
  match last date_strings with
  | None => (df, Raise IndexError)
  | Some newest =>
      let df := map (set_extra (BfsGmdeCode newest) (Int 0)) df in
      let df := map fill_code df in
      let origins := removelast date_strings in
      match comprehension (fun origin => _fetch_mapping origin newest) origins with
      | Raise e => (df, Raise e)
      | Ok mappings =>
          match for_each (project_step newest) (zip origins mappings) df with
          | Raise e => (df, Raise e)
          | Ok merged =>
              let out := copy_newest newest merged in
              (match origins with [] => out | _ => df end, Ok out)
          end
      end
  end.
End projector.

(** *** The projection, row by row *)

Section projection_of_a_row.
Variable _fetch_mapping : date -> date -> result (list edge).
Variable newest : date.

(** The row after the two assignments that precede the requests *)
Definition init_row (r : row) : row :=
  fill_code (set_extra (BfsGmdeCode newest) (Int 0) r).

(** What one iteration of the loop makes of one row *)
Definition step_row (origin : date) (mapping : list (Z * Z)) (r : row) : list row :=
  match filter (fun m => stand r = Some origin /\ code r = Some m.1) mapping with
  | [] => [r]
  | matches => map (fun m => set_extra (BfsGmdeCode newest) (Int m.2) r) matches
  end.

(** What the whole loop makes of one row *)
Definition loop_row (steps : list (date * list (Z * Z))) (r : row) : list row :=
  fold_left (fun rows om => flat_map (step_row om.1 om.2) rows) steps [r].

(** The edges that start at the code of a row in the table fetched for its
    Gemeindestand; no table is fetched for the newest Gemeindestand, nor
    for a row without one. *)
Definition edges_of (r : row) : list (Z * Z) :=
  match stand r with
  | Some origin =>
      if decide (origin = newest) then []
      else match _fetch_mapping origin newest ≫= int_columns with
           | Ok mapping => filter (fun m => code r = Some m.1) mapping
           | Raise _ => []
           end
  | None => []
  end.

(** The rows returned for one initialised row: its own code when it is of
    the newest Gemeindestand, one row per matching edge otherwise, and the
    row as it is when no edge matches. *)
Definition project_row (r : row) : list row :=
  if decide (stand r = Some newest)
  then [set_extra (BfsGmdeCode newest) (code_cell r) r]
  else match edges_of r with
       | [] => [r]
       | matches => map (fun m => set_extra (BfsGmdeCode newest) (Int m.2) r) matches
       end.
End projection_of_a_row.

(** The cell of a row in the column [bfs_gmde_code_<newest>] *)
Definition projected (newest : date) (r : row) : option cell :=
  dict_get (BfsGmdeCode newest) (extra r).

(** A missing projected value: the cell holds NaN (or the row has no such
    column) *)
Definition missing (c : option cell) : Prop := c = None \/ c = Some NA.

(** ** Example data *)

Definition cat1 : BaseMunicipalityData :=
  _fetch_base_data [(toordinal 2020 1 1, [(261, "A"); (262, "B"); (263, "C")])]%Z.

Definition df1 : list (Z * string) := [(261, "A"); (262, "B"); (263, "C")]%Z.

Definition cat2 : BaseMunicipalityData :=
  _fetch_base_data [(toordinal 2020 1 1, [(261, "A"); (262, "B"); (263, "Alt-Dorf")])]%Z.

Definition df2 : list (Z * string) := [(261, "A"); (262, "B"); (4999, "Alt-Dorf")]%Z.

Definition cat7 : BaseMunicipalityData :=
  _fetch_base_data
    [ (toordinal 2019 1 1, [(261, "A"); (262, "B")]);
      (toordinal 2020 1 1, [(262, "B"); (263, "C")]) ]%Z.

Definition df7 : list (Z * string) := [(261, "A"); (263, "C")]%Z.

Definition d2018 : date := toordinal 2018 1 1.
Definition d2019 : date := toordinal 2019 1 1.
Definition d2020 : date := toordinal 2020 1 1.
Definition d2021 : date := toordinal 2021 1 1.

Definition mk_edge (ic : Z) (iname : string) (tc : Z) (tname : string) : edge :=
  {| InitialCode := Some ic; InitialName := Some iname;
     TerminalCode := Some tc; TerminalName := Some tname |}.

Definition cat3 : BaseMunicipalityData :=
  _fetch_base_data
    [ (d2018, [(1, "A"); (2, "B")]);
      (d2019, [(1, "A"); (3, "C")]);
      (d2020, [(10, "A1"); (11, "A2"); (3, "C")]);
      (d2021, [(10, "A1"); (11, "A2"); (4, "D")]) ]%Z.

Definition fetch3 (origin target : date) : result (list edge) :=
  if decide (origin = d2018 /\ target = d2019) then
    Ok [mk_edge 1 "A" 1 "A"; mk_edge 2 "B" 3 "C"]
  else if decide (origin = d2019 /\ target = d2020) then
    Ok [mk_edge 1 "A" 10 "A1"; mk_edge 1 "A" 11 "A2"; mk_edge 3 "C" 3 "C"]
  else if decide (origin = d2019 /\ target = d2021) then
    Ok [mk_edge 1 "A" 10 "A1"; mk_edge 1 "A" 11 "A2"; mk_edge 3 "C" 4 "D"]
  else if decide (origin = d2018 /\ target = d2021) then
    Ok [mk_edge 1 "A" 10 "A1"; mk_edge 1 "A" 11 "A2"; mk_edge 2 "B" 4 "D"]
  else if decide (origin = d2020 /\ target = d2021) then
    Ok [mk_edge 10 "A1" 10 "A1"; mk_edge 11 "A2" 11 "A2"; mk_edge 3 "C" 4 "D"]
  else Raise ClientError.

Definition mk_row (c : option Z) (s : option date) (name : string) : row :=
  {| code := c; stand := s; extra := [(Col "name", Str name)] |}.

(** Closed decidable goals, by evaluation. *)
Ltac by_compute := apply (bool_decide_unpack _); vm_compute; exact I.


(** The values of [prefer] that [_nearest] knows *)
Definition known_prefer (prefer : string) : Prop :=
  prefer = "nearest" \/ prefer = "smaller" \/ prefer = "larger".

(** The shape of a table [create_multi_mapping] returns: its date columns,
    and every row with one cell (or pair of cells) per date. *)
Definition table_columns (t : wide_table) : list date :=
  match t with
  | WithNames full => columns full
  | CodesOnly code_columns _ => code_columns
  end.

Definition table_row_lengths (t : wide_table) : list nat :=
  match t with
  | WithNames full => map length (rows full)
  | CodesOnly _ code_rows => map length code_rows
  end.

(** ** Mapping a DataFrame ([create_mapping], [map_dataframe]) *)

(** What [map_dataframe] and its callers pass as [export_path]: [None], a
    string, or (from [map_dataframe], which passes [return_names] in this
    position) a bool. *)
Inductive export_arg : Type :=
  | ExportNone
  | ExportPath (s : string)
  | ExportBool (b : bool).

(** The keyword argument [target] of [map_dataframe]: a date string, a tuple,
    a list, or a value of another type. *)
Inductive target_kw : Type :=
  | KwDate (d : date)
  | KwTuple (targets : list date)
  | KwList (targets : list date)
  | KwOther.

(** What [df.merge(mapping, on=[code column of the origin], how='left')]
    returns: the date columns of [mapping], and for every row of [df] (code,
    name) the cells of a matching row of [mapping], or no cells (NaN in every
    column of [mapping]) when no row matches. *)
Inductive merged_table : Type :=
  | MergedNames (merged_columns : list date)
      (merged_rows : list (Z * string * option (list (option Z * option string))))
  | MergedCodes (merged_columns : list date)
      (merged_rows : list (Z * string * option (list (option Z)))).

Definition merged_left_rows (t : merged_table) : list (Z * string) :=
  match t with
  | MergedNames _ merged_rows => merged_rows.*1
  | MergedCodes _ merged_rows => merged_rows.*1
  end.

Definition merged_table_columns (t : merged_table) : list date :=
  match t with
  | MergedNames merged_columns _ => merged_columns
  | MergedCodes merged_columns _ => merged_columns
  end.

(** [series.replace(corrections_dict)] on the code column *)
Definition replace_codes (corrections_dict : list (Z * Z)) (df : list (Z * string))
  : list (Z * string) :=
  map (fun r => (default r.1 (dict_get r.1 corrections_dict), r.2)) df.

(** The left merge on the code column at position [j] of [mapping] *)
Definition merge_on_code {C} (key_of : C -> option Z) (j : nat) (mapping : list (list C))
    (df : list (Z * string)) : list (Z * string * option (list C)) :=
  flat_map
    (fun r =>
       match filter (fun w => (w !! j ≫= key_of) = Some r.1) mapping with
       | [] => [(r, None)]
       | matches => map (fun w => (r, Some w)) matches
       end)
    df.

Section dataframe_mapper.
Variable self : BaseMunicipalityData.
Variable _fetch_mapping : date -> date -> result (list edge).

(** [create_mapping]: the requests issued, the Excel files written
    (directory, origin, target) and what the call returns, the CSV of the
    request as it is.  [Path(True)] raises [TypeError]; errors of the file
    system are not modelled. *)
Definition create_mapping (origin target : date) (export_path : export_arg)
  : list (date * date) * list (string * date * date) * result (list edge) :=
  match _find_closest_official_gemeindestand self origin "smaller" with
  | Raise e => ([], [], Raise e)
  | Ok origin =>
      match _find_closest_official_gemeindestand self target "nearest" with
      | Raise e => ([], [], Raise e)
      | Ok target =>
          match _fetch_mapping origin target with
          | Raise e => ([(origin, target)], [], Raise e)
          | Ok mapping =>
              match export_path with
              | ExportNone | ExportBool false => ([(origin, target)], [], Ok mapping)
              | ExportPath s =>
                  if decide (s = EmptyString) then ([(origin, target)], [], Ok mapping)
                  else ([(origin, target)], [(s, origin, target)], Ok mapping)
              | ExportBool true => ([(origin, target)], [], Raise TypeError)
              end
          end
      end
  end.

(** The two [if]s of [map_dataframe] on [origin] ([None]: not a string):
    the caller's [df] after them, and the origin used from there on. *)
Definition resolve_origin (df : list (Z * string)) (origin : option date)
  : list (Z * string) * result date :=
  match origin with
  | Some origin =>
      let invalid_codes :=
        bool_decide ((list_to_set df.*1 : gset Z) ∖ all_historical_bfs_codes self <> ∅) in
      if invalid_codes then
        match _check_for_non_bfs_codes self df (list_to_set df.*1) with
        | Raise e => (df, Raise e)
        | Ok (_, wrong_codes_dict) =>
            let corrections_dict := _correct_wrong_codes self origin wrong_codes_dict in
            (replace_codes corrections_dict df, Ok origin)
        end
      else (df, Ok origin)
  | None =>
      match find_gemeindestand self df with
      | Raise e => (df, Raise e)
      | Ok (origin, corrections_dict) =>
          (match corrections_dict with
           | Some (kv :: d) => replace_codes (kv :: d) df
           | _ => df
           end,
           Ok origin)
      end
  end.

(** The final merge on [bfs_gmde_code_<origin>]; [mapping] is what
    [create_multi_mapping] returned. *)
Definition merge_mapping (df : list (Z * string)) (origin : date)
    (mapping : option wide_table) : result merged_table :=
  match mapping with
  | None => Raise TypeError
  | Some (WithNames full) =>
      match column_index origin (columns full) with
      | None => Raise KeyError
      | Some j => Ok (MergedNames (columns full) (merge_on_code fst j (rows full) df))
      end
  | Some (CodesOnly code_columns code_rows) =>
      match column_index origin code_columns with
      | None => Raise KeyError
      | Some j => Ok (MergedCodes code_columns (merge_on_code id j code_rows df))
      end
  end.

(** [map_dataframe(df, code_column, name_column, origin=..., target=...,
    return_names=...)]; a keyword that is not given is [None].  The first
    component is the caller's [df] after the call.  The table of
    [create_mapping] has the columns of the CSV, none of them named
    [bfs_gmde_code_<origin>], so the merge on that column raises. *)
Definition map_dataframe (df : list (Z * string)) (origin : option date)
    (target : option target_kw) (return_names : bool)
  : list (Z * string) * result merged_table :=
  match last (gemeindestaende self) with
  | None => (df, Raise IndexError)
  | Some newest_gemeindestand =>
      let target := default (KwDate newest_gemeindestand) target in
      let '(df, origin) := resolve_origin df origin in
      (df,
       origin ← origin;
       match target with
       | KwTuple targets =>
           mapping ← (create_multi_mapping self _fetch_mapping origin
                        (TargetTuple targets) return_names).2;
           merge_mapping df origin mapping
       | KwList targets =>
           mapping ← (create_multi_mapping self _fetch_mapping origin
                        (TargetList targets) return_names).2;
           merge_mapping df origin mapping
       | KwDate target =>
           _ ← (create_mapping origin target (ExportBool return_names)).2;
           Raise KeyError
       | KwOther =>
           _ ← _find_closest_official_gemeindestand self origin "smaller";
           Raise TypeError
       end)
  end.
End dataframe_mapper.

(** ** The earlier copy, [bfs_code_mapping/municipality_code_mapper.py] *)

Module legacy.

(** [_check_for_unpoulated_areas]: list comprehensions guarded by [any],
    and [set(...)] at the end *)
Definition _check_for_unpoulated_areas (gemeinde_set : gset Z) : gset Z :=
  let gemeinde_set :=
    if decide (Exists (fun i => i ∈ gemeinde_set) (dict_keys gmde_freie_geb))
    then filter (fun n => n ∉ dict_keys gmde_freie_geb) gemeinde_set
    else gemeinde_set in
  if decide (Exists (fun i => (7000 <= i)%Z) (elements gemeinde_set))
  then filter (fun n => (n < 7000)%Z) gemeinde_set
  else gemeinde_set.

(** [_nearest]: no fallback, "smaller" and "larger" raise when there is no
    such date *)
Definition _nearest (official_gemeindestaende : list date) (target : date)
    (prefer : string) : result date :=
  if decide (prefer = "nearest") then nearest_any official_gemeindestaende target
  else if decide (prefer = "smaller") then
    match filter (fun date => (date <= target)%Z) official_gemeindestaende with
    | [] => Raise ValueError
    | d :: ds => Ok (max_of d ds)
    end
  else if decide (prefer = "larger") then
    match filter (fun date => (target <= date)%Z) official_gemeindestaende with
    | [] => Raise ValueError
    | d :: ds => Ok (min_by (fun date => date) d ds)
    end
  else Raise ValueError.

Section composer.
Variable self : BaseMunicipalityData.
Variable fetch_mapping : date -> date -> result (list edge).

Definition _find_closest_official_gemeindestand (given_date : date)
    (prefer : string) : result date :=
  if decide (given_date ∈ gemeindestaende self) then Ok given_date
  else _nearest (gemeindestaende self) given_date prefer.

(** [for i, target in enumerate(targets): targets[i] = ...]: the list
    after the loop, and whether the loop raised *)
Fixpoint snap_in_place (targets : list date) : list date * result unit :=
  match targets with
  | [] => ([], Ok tt)
  | target :: rest =>
      match _find_closest_official_gemeindestand target "nearest" with
      | Raise e => (target :: rest, Raise e)
      | Ok target' =>
          let '(rest', r) := snap_in_place rest in (target' :: rest', r)
      end
  end.

(** The part of [create_multi_mapping] before [targets.append(origin)]:
    the caller's argument after it, and the list the name [targets] is
    bound to. *)
Definition transform_targets (targets : targets_arg)
  : targets_arg * result (list date) :=
  match targets with
  | TargetTuple [t0; t1] =>
      (targets,
       start ← _find_closest_official_gemeindestand t0 "smaller";
       end_ ← _find_closest_official_gemeindestand t1 "larger";
       let gemeindestaende := gemeindestaende self in
       start_index ← list_index start gemeindestaende;
       end_index ← (i ← list_index end_ gemeindestaende; Ok (i + 1));
       Ok (drop start_index (take end_index gemeindestaende)))
  | TargetTuple _ => (targets, Raise AssertionError)
  | TargetList l =>
      let '(l', r) := snap_in_place l in
      (TargetList l', _ ← r; Ok l')
  | TargetOther => (targets, Raise TypeError)
  end.

(** [create_multi_mapping]: the caller's [targets] argument after the
    call, the requests issued, and the result.  The code columns of the
    table are named [bfs_gmde_nummer_<date>] here. *)
Definition create_multi_mapping (origin : date) (targets : targets_arg)
    (return_names : bool)
  : targets_arg * list (date * date) * result (option wide_table) :=
  match _find_closest_official_gemeindestand origin "smaller" with
  | Raise e => (targets, [], Raise e)
  | Ok origin =>
      match transform_targets targets with
      | (caller, Raise e) => (caller, [], Raise e)
      | (caller, Ok targets) =>
          let caller :=
            match caller with
            | TargetList l => TargetList (l ++ [origin])  (* [targets.append(origin)] *)
            | _ => caller
            end in
          let targets := targets ++ [origin] in
          match sorted_set targets with
          | [] => (caller, [], Raise IndexError)
          | earliest_date :: targets =>
              let tasks := fetch_tasks earliest_date targets in
              (caller, tasks,
               mappings ← gather fetch_mapping tasks;
               full_mapping ← compose_loop targets 0 mappings None earliest_date;
               return_mapping return_names full_mapping)
          end
      end
  end.
End composer.
End legacy.

(** ** The projector on the cells as the caller passes them

    [map_multiple_gemeindestaende_to_newest] above is the function on a
    DataFrame whose Gemeindestand cells are dates (or missing) and whose codes
    are integers (or missing), which is what the function itself returns.
    The cells of a caller need be neither: line 543 parses every
    Gemeindestand cell and line 548 casts every code cell, and both can
    raise. *)

(** A cell of [code_column] *)
Inductive code_value : Type :=
  | CodeNA                  (* NaN, None *)
  | CodeInt (z : Z)         (* an int, or a str that [int()] reads as [z] *)
  | CodeFloat (z : Z)       (* a finite float, [z] its value truncated towards zero *)
  | CodeUncastable.         (* a str that [int()] rejects, such as "261, 262"; an infinite float *)

#[global] Instance code_value_eq_dec : EqDecision code_value.
Proof. solve_decision. Defined.

(** A cell of [stand_column].  A day is written in the one spelling
    dd-mm-YYYY: a cell such as "1-1-2023", which [strptime] reads as a day
    but which is another string than "01-01-2023", is not modelled. *)
Inductive stand_value : Type :=
  | StandNA                 (* NaN, None *)
  | StandDate (d : date)    (* the string dd-mm-YYYY of a day *)
  | StandText (s : string). (* a str that is no such date, such as "01-01-2023, 01-01-2024" *)

#[global] Instance stand_value_eq_dec : EqDecision stand_value.
Proof. solve_decision. Defined.

(** A Gemeindestand cell that line 543 does not stumble over *)
Definition date_or_missing (x : stand_value) : Prop :=
  match x with
  | StandText _ => False
  | _ => True
  end.

#[global] Instance date_or_missing_dec x : Decision (date_or_missing x).
Proof. destruct x; simpl; apply _. Defined.

(** A row of the caller's DataFrame; the rows are taken in their position,
    the index being the default one. *)
Record raw_row : Type := {
  raw_code : code_value;
  raw_stand : stand_value;
  raw_extra : list (colname * cell);
}.

#[global] Instance raw_row_eq_dec : EqDecision raw_row.
Proof. solve_decision. Defined.

Module raw.

(** [datetime.strptime(x, "%d-%m-%Y")], the sort key of line 543 *)
Definition strptime (x : stand_value) : result date :=
  match x with
  | StandDate d => Ok d
  | StandText _ => Raise ValueError
  | StandNA => Raise TypeError
  end.

(** The row once lines 543 and 548 have passed, [z] being its code *)
Definition typed (r : raw_row) (z : Z) : row :=
  {| code := Some z;
     stand := match raw_stand r with StandDate d => Some d | _ => None end;
     extra := raw_extra r |}.

Definition untyped (r : row) : raw_row :=
  {| raw_code := match code r with Some z => CodeInt z | None => CodeNA end;
     raw_stand := match stand r with Some d => StandDate d | None => StandNA end;
     raw_extra := extra r |}.

Section projector.
Variable _fetch_mapping : date -> date -> result (list edge).
(** What the cast to int64 makes of a number outside int64: numpy wraps
    an unsigned integer, the cast of a float is left to the platform,
    and a Python int in an object column raises [OverflowError]. *)
Variable astype_overflow : code_value -> result Z.

(** One cell of [df[code_column].fillna(0).astype(int)] *)
Definition astype_int (c : code_value) : result Z :=
  match c with
  | CodeNA => Ok 0%Z
  | CodeInt z | CodeFloat z =>
      if decide (- 2 ^ 63 <= z < 2 ^ 63)%Z then Ok z else astype_overflow c
  | CodeUncastable => Raise ValueError
  end.

(** [map_multiple_gemeindestaende_to_newest]: lines 540 to 548 on the
    cells of the caller, and from there on the function on the typed
    frame.  The first component is the caller's DataFrame after the
    call: line 547 has added the new column when line 548 raises. *)
Definition map_multiple_gemeindestaende_to_newest (df : list raw_row)
  : list raw_row * result (list row) :=
  let gemeindestaende := filter (fun x => x <> StandNA) (raw_stand <$> df) in
  match comprehension strptime gemeindestaende with
  | Raise e => (df, Raise e)
  | Ok keys =>
      match last (merge_sort Z.le (unique keys)) with
      | None => (df, Raise IndexError)
      | Some newest =>
          match comprehension astype_int (raw_code <$> df) with
          | Raise e =>
              (map (fun r => {| raw_code := raw_code r;
                                raw_stand := raw_stand r;
                                raw_extra := dict_set (BfsGmdeCode newest) (Int 0)
                                                      (raw_extra r) |}) df,
               Raise e)
          | Ok codes =>
              let call :=
                map_multiple_gemeindestaende_to_newest _fetch_mapping
                  (zip_with typed df codes) in
              (untyped <$> call.1, call.2)
          end
      end
  end.
End projector.
End raw.

(** An instance of [astype_overflow]: the wrap-around of numpy's cast
    between integer types *)
Definition wrap_int64 (c : code_value) : result Z :=
  match c with
  | CodeInt z | CodeFloat z => Ok ((z + 2 ^ 63) `mod` 2 ^ 64 - 2 ^ 63)%Z
  | CodeNA => Ok 0%Z
  | CodeUncastable => Raise ValueError
  end.

(** * Properties *)

(** ** Results *)

Lemma bind_Ok_inv {A B} (m : result A) (f : A -> result B) b :
  m ≫= f = Ok b -> exists a, m = Ok a /\ f a = Ok b.
Proof. destruct m as [a|e]; simpl; [eauto | discriminate]. Qed.

Lemma comprehension_length {A B} (f : A -> result B) xs ys :
  comprehension f xs = Ok ys -> length ys = length xs.
Proof.
  revert ys. induction xs as [|x xs IH]; intros ys; simpl.
  - by intros [= <-].
  - destruct (f x) as [y|]; simpl; [|discriminate].
    destruct (comprehension f xs) as [ys'|]; simpl; [|discriminate].
    intros [= <-]. simpl. f_equal. by apply IH.
Qed.

Lemma comprehension_Ok {A B} (f : A -> result B) (g : A -> B) xs :
  (forall x, x ∈ xs -> f x = Ok (g x)) -> comprehension f xs = Ok (map g xs).
Proof.
  induction xs as [|x xs IH]; intros Hf; simpl; [done|].
  rewrite Hf by left. simpl. rewrite IH; [done|].
  intros y Hy. apply Hf. by right.
Qed.

(** ** Dictionaries *)

Section pydict_facts.
Context {K V : Type} `{EqDecision K}.
Implicit Types (d : list (K * V)) (k : K) (v : V).

Lemma dict_get_set_eq k v d : dict_get k (dict_set k v d) = Some v.
Proof.
  induction d as [|[k' v'] d IH]; simpl.
  - by rewrite decide_True.
  - destruct (decide (k = k')) as [->|Hne]; simpl.
    + by rewrite decide_True.
    + by rewrite decide_False.
Qed.

Lemma dict_get_set_ne k k' v d :
  k <> k' -> dict_get k' (dict_set k v d) = dict_get k' d.
Proof.
  intros Hne. induction d as [|[k2 v2] d IH]; simpl.
  - by rewrite decide_False.
  - destruct (decide (k = k2)) as [->|Hne2]; simpl.
    + by rewrite !(decide_False (P := k' = k2)).
    + by rewrite IH.
Qed.

Lemma dict_get_None k d : dict_get k d = None <-> k ∉ dict_keys d.
Proof.
  unfold dict_keys. induction d as [|[k' v'] d IH]; simpl.
  - split; [intros _; apply not_elem_of_nil | done].
  - rewrite not_elem_of_cons. destruct (decide (k = k')) as [->|Hne].
    + split; [done | intros [? _]; done].
    + rewrite IH. tauto.
Qed.

Lemma dict_get_Some_elem k v d : dict_get k d = Some v -> (k, v) ∈ d.
Proof.
  induction d as [|[k' v'] d IH]; simpl; [done|].
  destruct (decide (k = k')) as [->|Hne].
  - intros [= ->]. left.
  - intros Hd. right. by apply IH.
Qed.

Lemma dict_get_elem k v d : NoDup (dict_keys d) -> (k, v) ∈ d -> dict_get k d = Some v.
Proof.
  unfold dict_keys. induction d as [|[k' v'] d IH]; simpl; intros Hnd Hin.
  - by apply elem_of_nil in Hin.
  - apply NoDup_cons in Hnd as [Hk' Hnd].
    apply elem_of_cons in Hin as [[= -> ->]|Hin].
    + by rewrite decide_True.
    + rewrite decide_False; [by apply IH|].
      intros ->. apply Hk'. apply list_elem_of_fmap. by exists (k', v).
Qed.

Lemma dict_set_fresh k v d : k ∉ dict_keys d -> dict_set k v d = d ++ [(k, v)].
Proof.
  unfold dict_keys. induction d as [|[k' v'] d IH]; simpl; [done|].
  rewrite not_elem_of_cons. intros [Hne Hk].
  rewrite decide_False by done. by rewrite IH.
Qed.

Lemma dict_set_set k v v' d : dict_set k v (dict_set k v' d) = dict_set k v d.
Proof.
  induction d as [|[k' w] d IH]; simpl.
  - by rewrite decide_True.
  - destruct (decide (k = k')) as [->|Hne]; simpl.
    + by rewrite decide_True.
    + rewrite decide_False by done. by rewrite IH.
Qed.

Lemma dict_keys_set k v d :
  dict_keys (dict_set k v d) =
  if decide (k ∈ dict_keys d) then dict_keys d else dict_keys d ++ [k].
Proof.
  unfold dict_keys. induction d as [|[k' w] d IH]; csimpl.
  - done.
  - destruct (decide (k = k')) as [->|Hne]; csimpl.
    + destruct (decide (k' ∈ k' :: d.*1)) as [|H]; [done|]. exfalso. apply H. left.
    + rewrite IH.
      destruct (decide (k ∈ d.*1)) as [Hin|Hnin];
        destruct (decide (k ∈ k' :: d.*1)) as [Hin'|Hnin']; try done.
      * exfalso. apply Hnin'. by right.
      * exfalso. apply elem_of_cons in Hin' as [?|?]; done.
Qed.

Lemma dict_keys_set_NoDup k v d : NoDup (dict_keys d) -> NoDup (dict_keys (dict_set k v d)).
Proof.
  intros Hnd. rewrite dict_keys_set. case_decide; [done|].
  apply NoDup_app. split_and!; [done | | apply NoDup_singleton].
  intros x Hx ->%list_elem_of_singleton. done.
Qed.

Lemma dict_fold_fresh (items acc : list (K * V)) :
  NoDup (dict_keys (acc ++ items)) ->
  fold_left (fun acc kv => dict_set kv.1 kv.2 acc) items acc = acc ++ items.
Proof.
  revert acc. induction items as [|[k v] items IH]; intros acc Hnd; simpl.
  - by rewrite app_nil_r.
  - unfold dict_keys in Hnd. rewrite fmap_app in Hnd. simpl in Hnd.
    assert (k ∉ dict_keys acc) as Hk.
    { apply NoDup_app in Hnd as (_ & Hdisj & _). intros Hin.
      apply (Hdisj k Hin). left. }
    rewrite dict_set_fresh by done.
    rewrite IH; [by rewrite <- app_assoc|].
    unfold dict_keys. by rewrite <- app_assoc, fmap_app.
Qed.

(** Building a dict from items with distinct keys keeps the items. *)
Lemma dict_of_items_NoDup (items : list (K * V)) :
  NoDup (dict_keys items) -> dict_of_items items = items.
Proof. intros Hnd. unfold dict_of_items. by rewrite dict_fold_fresh. Qed.

Lemma dict_fold_keys_NoDup (items acc : list (K * V)) :
  NoDup (dict_keys acc) ->
  NoDup (dict_keys (fold_left (fun acc kv => dict_set kv.1 kv.2 acc) items acc)).
Proof.
  revert acc. induction items as [|[k v] items IH]; intros acc Hnd; simpl; [done|].
  apply IH. by apply dict_keys_set_NoDup.
Qed.

Lemma dict_of_items_keys_NoDup (items : list (K * V)) :
  NoDup (dict_keys (dict_of_items items)).
Proof. apply dict_fold_keys_NoDup. apply NoDup_nil_2. Qed.

Lemma dict_fold_get (items acc : list (K * V)) k :
  k ∉ dict_keys items ->
  dict_get k (fold_left (fun acc kv => dict_set kv.1 kv.2 acc) items acc) = dict_get k acc.
Proof.
  revert acc. unfold dict_keys.
  induction items as [|[k' v] items IH]; intros acc; simpl; [done|].
  rewrite not_elem_of_cons. intros [Hne Hk]. rewrite IH by done.
  by apply dict_get_set_ne.
Qed.

Lemma dict_fold_keys (items acc : list (K * V)) k :
  k ∈ dict_keys (fold_left (fun acc kv => dict_set kv.1 kv.2 acc) items acc) <->
  k ∈ dict_keys items \/ k ∈ dict_keys acc.
Proof.
  revert acc. induction items as [|[k' v] items IH]; intros acc; csimpl.
  - unfold dict_keys at 2. csimpl. rewrite elem_of_nil. tauto.
  - rewrite IH, dict_keys_set. unfold dict_keys at 3. csimpl. rewrite elem_of_cons.
    case_decide as Hk'.
    + split; [tauto|]. intros [[->|?]|?]; tauto.
    + rewrite elem_of_app, list_elem_of_singleton. tauto.
Qed.

Lemma dict_of_items_keys (items : list (K * V)) k :
  k ∈ dict_keys (dict_of_items items) <-> k ∈ dict_keys items.
Proof.
  unfold dict_of_items. rewrite dict_fold_keys. unfold dict_keys at 2. csimpl.
  rewrite elem_of_nil. tauto.
Qed.

Lemma dict_of_items_get_None (items : list (K * V)) k :
  k ∉ dict_keys items -> dict_get k (dict_of_items items) = None.
Proof. intros Hk. unfold dict_of_items. by rewrite dict_fold_get. Qed.

Lemma dict_fold_get_Some (items acc : list (K * V)) k v :
  dict_get k (fold_left (fun acc kv => dict_set kv.1 kv.2 acc) items acc) = Some v ->
  (k, v) ∈ items \/ dict_get k acc = Some v.
Proof.
  revert acc. induction items as [|[k' v'] items IH]; intros acc; simpl; [by right|].
  intros [Hin|Hacc]%IH.
  - left. by right.
  - destruct (decide (k' = k)) as [->|Hne].
    + rewrite dict_get_set_eq in Hacc. injection Hacc as ->. left. left.
    + rewrite dict_get_set_ne in Hacc by done. by right.
Qed.

Lemma dict_of_items_get_Some (items : list (K * V)) k v :
  dict_get k (dict_of_items items) = Some v -> (k, v) ∈ items.
Proof. intros [?|?]%dict_fold_get_Some; [done | discriminate]. Qed.
End pydict_facts.

Lemma swap_keys {K V} (d : list (K * V)) :
  dict_keys (map (fun kv => (kv.2, kv.1)) d) = d.*2.
Proof. unfold dict_keys. induction d as [|[k v] d IH]; csimpl; [done | by rewrite IH]. Qed.

Lemma dict_invert_NoDup {K V} `{EqDecision V} (d : list (K * V)) :
  NoDup d.*2 -> dict_invert d = map (fun kv => (kv.2, kv.1)) d.
Proof.
  intros Hnd. unfold dict_invert. apply dict_of_items_NoDup. by rewrite swap_keys.
Qed.

(** The inverted table knows exactly the names of the dict, and only sends a
    name to a code that carries it. *)
Lemma dict_invert_get_None {K V} `{EqDecision V} (d : list (K * V)) (n : V) :
  dict_get n (dict_invert d) = None <-> n ∉ d.*2.
Proof.
  unfold dict_invert. by rewrite dict_get_None, dict_of_items_keys, swap_keys.
Qed.

Lemma dict_invert_get_Some {K V} `{EqDecision V} (d : list (K * V)) (n : V) (k : K) :
  dict_get n (dict_invert d) = Some k -> (k, n) ∈ d.
Proof.
  intros Hget%dict_of_items_get_Some.
  apply list_elem_of_fmap in Hget as ([k' n'] & [= -> ->] & Hin). done.
Qed.

Lemma dict_invert_get_elem {K V} `{EqDecision V} (d : list (K * V)) (n : V) (k : K) :
  NoDup d.*2 -> (k, n) ∈ d -> dict_get n (dict_invert d) = Some k.
Proof.
  intros Hnd Hin. rewrite dict_invert_NoDup by done.
  apply dict_get_elem.
  - by rewrite swap_keys.
  - apply list_elem_of_fmap. by exists (k, n).
Qed.

(** ** State identifier *)

Section identifier_facts.
Variable self : BaseMunicipalityData.
Implicit Types (F : gset Z) (g : date) (df : list (Z * string)).

Lemma difference_empty F (U : gset Z) : F ∖ U = ∅ <-> F ⊆ U.
Proof.
  split.
  - intros HE x Hx. destruct (decide (x ∈ U)) as [|Hn]; [done|].
    assert (x ∈ F ∖ U) as Hd by set_solver. rewrite HE in Hd. set_solver.
  - intros Hsub. apply set_eq. intros x. rewrite elem_of_difference.
    split; [intros [? ?]; exfalso; auto | by intros ?%not_elem_of_empty].
Qed.

Lemma check_gemeindestand_spec g F :
  _check_gemeindestand self g F = true <-> F ⊆ unique_gemeinden self g.
Proof. unfold _check_gemeindestand. by rewrite bool_decide_eq_true, difference_empty. Qed.

Lemma elem_of_historical_fold (dcts : list (list (Z * string))) (acc : gset Z) x :
  x ∈ fold_left (fun acc name_dct => acc ∪ list_to_set (dict_keys name_dct)) dcts acc <->
  x ∈ acc \/ exists name_dct, name_dct ∈ dcts /\ x ∈ dict_keys name_dct.
Proof.
  revert acc. induction dcts as [|dc dcts IH]; intros acc; simpl.
  - split; [by left|]. intros [?|(? & []%elem_of_nil & _)]; done.
  - rewrite IH, elem_of_union, elem_of_list_to_set. split.
    + intros [[?|?]|(dc' & ? & ?)]; [by left | right; exists dc | right; exists dc'];
        split; try done; [left | by right].
    + intros [?|(dc' & [->|?]%elem_of_cons & ?)]; [tauto | tauto |].
      right. by exists dc'.
Qed.

Lemma elem_of_all_historical x :
  x ∈ all_historical_bfs_codes self <->
  exists name_dct, name_dct ∈ (gmde_dct self).*2 /\ x ∈ dict_keys name_dct.
Proof.
  unfold all_historical_bfs_codes. rewrite elem_of_historical_fold.
  split; [intros [[]%not_elem_of_empty|?]; done | by right].
Qed.

(** Every code of a catalog state is a historical code. *)
Lemma unique_gemeinden_historical g :
  unique_gemeinden self g ⊆ all_historical_bfs_codes self.
Proof.
  intros x. unfold unique_gemeinden.
  destruct (dict_get g (gmde_dct self)) as [dc|] eqn:E; simpl.
  - rewrite elem_of_list_to_set. intros Hx. apply elem_of_all_historical.
    exists dc. split; [|done]. apply dict_get_Some_elem in E.
    apply list_elem_of_fmap. by exists (g, dc).
  - by intros ?%not_elem_of_empty.
Qed.

Lemma elem_of_check_for_unpoulated_areas x F :
  x ∈ _check_for_unpoulated_areas F <->
  x ∈ F /\ (x ∉ dict_keys gmde_freie_geb) /\ (x < 7000)%Z.
Proof.
  unfold _check_for_unpoulated_areas. cbv zeta.
  rewrite !elem_of_difference, !elem_of_filter, elem_of_difference, elem_of_filter.
  split.
  - intros ((HF & Hs) & Hl). split_and!; [done | tauto |].
    destruct (decide (x < 7000)%Z); [done|]. exfalso. apply Hl. split; [lia|].
    split; [done | tauto].
  - intros (HF & Hs & Hl). split; [tauto|]. intros [? _]. lia.
Qed.

Lemma check_for_unpoulated_areas_subseteq F : _check_for_unpoulated_areas F ⊆ F.
Proof. intros x. rewrite elem_of_check_for_unpoulated_areas. tauto. Qed.

Lemma first_name_of_Ok df code :
  code ∈ df.*1 -> exists name, first_name_of df code = Ok name /\ (code, name) ∈ df.
Proof.
  intros Hin. unfold first_name_of.
  destruct (filter (fun row => row.1 = code) df) as [|[c n] rest] eqn:E.
  - exfalso. apply list_elem_of_fmap in Hin as (row & -> & Hrow).
    assert (row ∈ filter (fun row' => row'.1 = row.1) df) as Hf
      by (by apply list_elem_of_filter).
    rewrite E in Hf. by apply elem_of_nil in Hf.
  - exists n. split; [done|].
    assert ((c, n) ∈ filter (fun row => row.1 = code) df) as Hf by (rewrite E; left).
    apply list_elem_of_filter in Hf as [Hc Hf]. simpl in Hc. by subst.
Qed.

Lemma wrong_codes_loop_Ok df (codes : list Z) acc :
  (forall c, c ∈ codes -> c ∈ df.*1) ->
  is_Ok (for_each (fun acc code => name ← first_name_of df code; Ok (dict_set code name acc))
                  codes acc).
Proof.
  revert acc. induction codes as [|c codes IH]; intros acc Hc; simpl.
  - by eexists.
  - destruct (first_name_of_Ok df c) as (n & -> & _); [apply Hc; left|]. simpl.
    apply IH. intros c' Hc'. apply Hc. by right.
Qed.

(** Without a never-issued code the clean-up reads its unbound local. *)
Lemma check_for_non_bfs_codes_unbound df F :
  F ⊆ all_historical_bfs_codes self ->
  _check_for_non_bfs_codes self df F = Raise UnboundLocalError.
Proof.
  intros Hsub. unfold _check_for_non_bfs_codes. cbv zeta.
  apply difference_empty in Hsub. rewrite Hsub, size_empty.
  rewrite decide_False; [done | lia].
Qed.

(** With one it returns the historical codes of the set. *)
Lemma check_for_non_bfs_codes_Ok df F :
  F ⊆ list_to_set df.*1 ->
  ¬ F ⊆ all_historical_bfs_codes self ->
  exists wrong_codes_dict,
    _check_for_non_bfs_codes self df F
    = Ok (F ∖ (F ∖ all_historical_bfs_codes self), wrong_codes_dict).
Proof.
  intros Hdf Hwrong. unfold _check_for_non_bfs_codes. cbv zeta.
  rewrite decide_True.
  - destruct (wrong_codes_loop_Ok df (elements (F ∖ all_historical_bfs_codes self)) [])
      as [wcd Hwcd].
    + intros c Hc%elem_of_elements. apply elem_of_difference in Hc as [Hc _].
      apply Hdf in Hc. by apply elem_of_list_to_set in Hc.
    + exists wcd. by rewrite Hwcd.
  - destruct (decide (size (F ∖ all_historical_bfs_codes self) = 0)) as [E|]; [|lia].
    apply size_empty_inv in E. exfalso. apply Hwrong.
    apply difference_empty. by apply leibniz_equiv.
Qed.

Lemma check_for_non_bfs_codes_inv df F r :
  _check_for_non_bfs_codes self df F = Ok r ->
  ¬ F ⊆ all_historical_bfs_codes self /\
  r.1 = F ∖ (F ∖ all_historical_bfs_codes self).
Proof.
  unfold _check_for_non_bfs_codes. cbv zeta. case_decide as Hsz; [|discriminate].
  intros (wcd & _ & [= <-])%bind_Ok_inv. split; [|done].
  intros Hsub%difference_empty. rewrite Hsub, size_empty in Hsz. lia.
Qed.

(** The backward scan returns the first state of the list it is given
    whose codes contain the set, and raises [ValueError] when there is none. *)
Lemma infer_loop_Ok F staende g :
  infer_loop self F staende = Ok g <->
  exists before after,
    staende = before ++ g :: after /\
    F ⊆ unique_gemeinden self g /\
    forall h, h ∈ before -> ¬ F ⊆ unique_gemeinden self h.
Proof.
  induction staende as [|s staende IH]; simpl.
  - split; [discriminate|]. intros ([|??] & ? & ? & _); discriminate.
  - case_bool_decide as Hs; rewrite difference_empty in Hs.
    + split.
      * intros [= <-]. exists [], staende. split_and!; [done..|].
        intros h []%elem_of_nil.
      * intros ([|b before] & after & Heq & Hg & Hb); simplify_eq/=; [done|].
        exfalso. apply (Hb b); [left | done].
    + rewrite IH. split.
      * intros (before & after & -> & Hg & Hb). exists (s :: before), after.
        split_and!; [done..|]. intros h [->|?]%elem_of_cons; auto.
      * intros ([|b before] & after & Heq & Hg & Hb); simplify_eq/=; [done|].
        exists before, after. split_and!; [done..|]. intros h Hh. apply Hb. by right.
Qed.

Lemma infer_loop_Raise F staende e :
  infer_loop self F staende = Raise e <->
  e = ValueError /\ forall h, h ∈ staende -> ¬ F ⊆ unique_gemeinden self h.
Proof.
  induction staende as [|s staende IH]; simpl.
  - split; [intros [= <-]; split; [done|]; intros h []%elem_of_nil | by intros [-> _]].
  - case_bool_decide as Hs; rewrite difference_empty in Hs.
    + split; [discriminate|]. intros [_ Hn]. exfalso. apply (Hn s); [left | done].
    + rewrite IH. split; intros [-> Hn]; (split; [done|]).
      * intros h [->|?]%elem_of_cons; auto.
      * intros h Hh. apply Hn. by right.
Qed.

(** [_infer_gemeindestand] scans from the newest state to the oldest: the
    state it returns contains the set and no newer state does. *)
Lemma infer_gemeindestand_Ok F g :
  _infer_gemeindestand self F = Ok g <->
  exists older newer,
    gemeindestaende self = older ++ g :: newer /\
    F ⊆ unique_gemeinden self g /\
    forall h, h ∈ newer -> ¬ F ⊆ unique_gemeinden self h.
Proof.
  unfold _infer_gemeindestand. rewrite infer_loop_Ok. split.
  - intros (before & after & Hrev & Hg & Hb).
    exists (reverse after), (reverse before). split_and!; [|done|].
    + rewrite <- (reverse_involutive (gemeindestaende self)), Hrev.
      by rewrite reverse_app, reverse_cons, <- app_assoc.
    + intros h Hh. rewrite elem_of_reverse in Hh. auto.
  - intros (older & newer & Heq & Hg & Hn).
    exists (reverse newer), (reverse older). split_and!; [|done|].
    + by rewrite Heq, reverse_app, reverse_cons, <- app_assoc.
    + intros h Hh. rewrite elem_of_reverse in Hh. auto.
Qed.

Lemma infer_gemeindestand_Raise F e :
  _infer_gemeindestand self F = Raise e <->
  e = ValueError /\ forall h, h ∈ gemeindestaende self -> ¬ F ⊆ unique_gemeinden self h.
Proof.
  unfold _infer_gemeindestand. rewrite infer_loop_Raise.
  split; intros [-> Hn]; (split; [done|]); intros h Hh; apply Hn;
    [by rewrite elem_of_reverse | by rewrite elem_of_reverse in Hh].
Qed.

Lemma candidates_loop_Some F candidates c :
  candidates_loop self F candidates = Some c ->
  c ∈ candidates /\ F ⊆ unique_gemeinden self c.
Proof.
  induction candidates as [|c' candidates IH]; simpl; [discriminate|].
  destruct (_check_gemeindestand self c' F) eqn:E.
  - intros [= <-]. split; [left | by apply check_gemeindestand_spec].
  - intros [? ?]%IH. split; [by right | done].
Qed.

Lemma candidates_loop_None F candidates :
  candidates_loop self F candidates = None <->
  forall c, c ∈ candidates -> ¬ F ⊆ unique_gemeinden self c.
Proof.
  induction candidates as [|c' candidates IH]; simpl.
  - split; [intros _ c []%elem_of_nil | done].
  - destruct (_check_gemeindestand self c' F) eqn:E.
    + split; [discriminate|]. intros Hn. exfalso. apply (Hn c'); [left|].
      by apply check_gemeindestand_spec.
    + rewrite IH. split.
      * intros Hn c [->|?]%elem_of_cons; [|auto].
        rewrite <- check_gemeindestand_spec. congruence.
      * intros Hn c Hc. apply Hn. by right.
Qed.

Lemma elem_of_candidates c n :
  c ∈ (filter (fun row => row.2 = n) (data self)).*1 <-> (c, n) ∈ data self.
Proof.
  rewrite list_elem_of_fmap. split.
  - intros ([c' n'] & -> & [Hn Hin]%list_elem_of_filter). simpl in *. by subst.
  - intros Hin. exists (c, n). split; [done|]. by apply list_elem_of_filter.
Qed.

Lemma candidates_gemeindestaende c n :
  c ∈ (filter (fun row => row.2 = n) (data self)).*1 -> c ∈ gemeindestaende self.
Proof.
  rewrite elem_of_candidates. intros Hin. unfold gemeindestaende.
  apply list_elem_of_fmap. by exists (c, n).
Qed.

(** The search that follows the clean-up only ever raises [ValueError],
    and raises it exactly when no catalog state contains the cleaned set. *)
Lemma search_gemeindestand_Raise n F wrong_codes_dict e :
  search_gemeindestand self n F wrong_codes_dict = Raise e <->
  e = ValueError /\ forall h, h ∈ gemeindestaende self -> ¬ F ⊆ unique_gemeinden self h.
Proof.
  assert (infer_and_correct self F wrong_codes_dict = Raise e <->
          e = ValueError /\
          forall h, h ∈ gemeindestaende self -> ¬ F ⊆ unique_gemeinden self h) as Hinfer.
  { unfold infer_and_correct. rewrite <- infer_gemeindestand_Raise.
    destruct (_infer_gemeindestand self F); split; congruence. }
  unfold search_gemeindestand. cbv zeta.
  pose proof (candidates_gemeindestaende) as Hcand. specialize (fun c => Hcand c n).
  destruct ((filter (fun row => row.2 = n) (data self)).*1) as [|c1 [|c2 cs]] eqn:Ecs;
    [done | |].
  - destruct (_check_gemeindestand self c1 F) eqn:E; [|done].
    split; [discriminate|]. intros [_ Hn]. exfalso. apply (Hn c1); [apply Hcand; left|].
    by apply check_gemeindestand_spec.
  - destruct (candidates_loop self F (c1 :: c2 :: cs)) as [c|] eqn:E; [|done].
    split; [discriminate|]. intros [_ Hn].
    apply candidates_loop_Some in E as [Hc HF]. exfalso. apply (Hn c); auto.
Qed.

(** When a state with [n] codes contains the cleaned set, the search
    returns through the cardinality path, with no correction. *)
Lemma search_gemeindestand_candidate n F wrong_codes_dict g :
  (g, n) ∈ data self ->
  F ⊆ unique_gemeinden self g ->
  exists c, search_gemeindestand self n F wrong_codes_dict = Ok (c, None) /\
            (c, n) ∈ data self /\ F ⊆ unique_gemeinden self c.
Proof.
  intros Hg HF. unfold search_gemeindestand. cbv zeta.
  pose proof (elem_of_candidates) as Hcand. specialize (fun c => Hcand c n).
  destruct ((filter (fun row => row.2 = n) (data self)).*1) as [|c1 [|c2 cs]] eqn:Ecs.
  - apply Hcand in Hg. by apply elem_of_nil in Hg.
  - apply Hcand in Hg as Hg'. apply list_elem_of_singleton in Hg' as ->.
    apply check_gemeindestand_spec in HF as HF'. rewrite HF'.
    exists c1. by split_and!.
  - destruct (candidates_loop self F (c1 :: c2 :: cs)) as [c|] eqn:E.
    + apply candidates_loop_Some in E as [Hc HFc]. exists c. split_and!; [done| |done].
      by apply Hcand.
    + exfalso. rewrite candidates_loop_None in E. apply (E g); [|done]. by apply Hcand.
Qed.

(** [find_gemeindestand] on a DataFrame without never-issued codes. *)
Lemma find_gemeindestand_unbound df :
  _check_for_unpoulated_areas (list_to_set df.*1) ⊆ all_historical_bfs_codes self ->
  find_gemeindestand self df = Raise UnboundLocalError.
Proof.
  intros Hsub. unfold find_gemeindestand. cbv zeta.
  by rewrite check_for_non_bfs_codes_unbound.
Qed.

(** [find_gemeindestand] raises [ValueError] exactly when the clean-up has
    found a never-issued code and no catalog state contains the cleaned
    set. *)
Lemma find_gemeindestand_ValueError df :
  let F := _check_for_unpoulated_areas (list_to_set df.*1) in
  find_gemeindestand self df = Raise ValueError <->
  ¬ F ⊆ all_historical_bfs_codes self /\
  forall h, h ∈ gemeindestaende self ->
            ¬ F ∖ (F ∖ all_historical_bfs_codes self) ⊆ unique_gemeinden self h.
Proof.
  intros F. unfold find_gemeindestand. cbv zeta. fold F.
  destruct (decide (F ⊆ all_historical_bfs_codes self)) as [Hsub|Hwrong].
  - rewrite check_for_non_bfs_codes_unbound by done. simpl. split; [discriminate | tauto].
  - destruct (check_for_non_bfs_codes_Ok df F) as [wcd ->]; [|done|].
    { subst F. apply check_for_unpoulated_areas_subseteq. }
    simpl. rewrite search_gemeindestand_Raise. tauto.
Qed.
End identifier_facts.

Lemma fetch_base_data_wf snapshots : NoDup snapshots.*1 -> catalog_wf (_fetch_base_data snapshots).
Proof.
  intros Hnd. split.
  - unfold gemeindestaende, _fetch_base_data. simpl.
    rewrite <- list_fmap_compose.
    assert ((fst ∘ (fun ds : date * list (Z * string) =>
                      (ds.1, size (list_to_set ds.2.*1 : gset Z)))) <$> snapshots
            = snapshots.*1) as ->; [|done].
    clear. induction snapshots as [|[d s] l IH]; csimpl; [done | by rewrite IH].
  - intros g n Hin. unfold _fetch_base_data in Hin. simpl in Hin.
    apply list_elem_of_fmap in Hin as ([d snap] & [= -> ->] & Hin). simpl.
    unfold unique_gemeinden, _fetch_base_data. simpl.
    assert ((map (fun ds : date * list (Z * string) => (ds.1, dict_of_items ds.2)) snapshots).*1
      = snapshots.*1) as Hk.
    { clear. induction snapshots as [|[d' s'] l IH]; csimpl; [done | by rewrite IH]. }
    rewrite dict_of_items_NoDup by (unfold dict_keys; by rewrite Hk).
    rewrite (dict_get_elem d (dict_of_items snap)).
    + simpl. f_equal. apply set_eq. intros x.
      rewrite !elem_of_list_to_set. symmetry. apply dict_of_items_keys.
    + unfold dict_keys. by rewrite Hk.
    + apply list_elem_of_fmap. by exists (d, snap).
Qed.

Section identifier_claims.
Variable self : BaseMunicipalityData.

(** In a well-formed catalog the cardinality path, entered with exactly the
    codes of a catalog state, returns a state with these codes and no
    correction. *)
Lemma search_gemeindestand_exact g wrong_codes_dict :
  catalog_wf self ->
  g ∈ gemeindestaende self ->
  exists c,
    search_gemeindestand self (size (unique_gemeinden self g)) (unique_gemeinden self g)
                         wrong_codes_dict = Ok (c, None) /\
    unique_gemeinden self c = unique_gemeinden self g.
Proof.
  intros [_ Hsize] Hg. unfold gemeindestaende in Hg.
  apply list_elem_of_fmap in Hg as ([g' n] & -> & Hg). simpl.
  pose proof (Hsize _ _ Hg) as Hn. rewrite <- Hn.
  destruct (search_gemeindestand_candidate self n (unique_gemeinden self g')
              wrong_codes_dict g' Hg) as (c & Hc & Hcn & Hsub); [done|].
  exists c. split; [done|]. symmetry.
  apply set_subseteq_size_eq; [done|]. rewrite <- (Hsize _ _ Hcn), Hn. done.
Qed.

(** ... but [find_gemeindestand] never gets there: on every DataFrame whose
    filtered codes are those of a catalog state it raises. *)
Lemma find_gemeindestand_exact_raises df g :
  _check_for_unpoulated_areas (list_to_set df.*1) = unique_gemeinden self g ->
  find_gemeindestand self df = Raise UnboundLocalError.
Proof.
  intros HF. apply find_gemeindestand_unbound. rewrite HF.
  apply unique_gemeinden_historical.
Qed.

(** One code of a catalog state replaced by a never-issued code that
    survives the filter: the cardinality path answers, with no correction. *)
Lemma find_gemeindestand_replaced_code df g n c w :
  catalog_wf self ->
  (g, n) ∈ data self ->
  c ∈ unique_gemeinden self g ->
  w ∉ all_historical_bfs_codes self ->
  _check_for_unpoulated_areas (list_to_set df.*1) = unique_gemeinden self g ∖ {[c]} ∪ {[w]} ->
  exists c', find_gemeindestand self df = Ok (c', None) /\ (c', n) ∈ data self.
Proof.
  intros [_ Hsize] Hg Hc Hw HF.
  pose proof (unique_gemeinden_historical self g) as Hhist.
  pose proof (Hsize _ _ Hg) as Hn.
  unfold find_gemeindestand. cbv zeta.
  pose proof (check_for_unpoulated_areas_subseteq (list_to_set df.*1)) as HFdf.
  remember (_check_for_unpoulated_areas (list_to_set df.*1)) as F eqn:EF.
  remember (unique_gemeinden self g) as U eqn:EU.
  remember (all_historical_bfs_codes self) as H eqn:EH.
  assert (w ∉ U) as HwU by (intros ?; apply Hw; auto).
  destruct (check_for_non_bfs_codes_Ok self df F) as [wcd Hwcd]; [done| |].
  { rewrite <- EH. intros Hsub. apply Hw, Hsub. rewrite HF.
    apply elem_of_union. right. by apply elem_of_singleton. }
  rewrite Hwcd. simpl.
  assert (size F = n) as ->.
  { rewrite HF, size_union.
    - rewrite size_difference, !size_singleton.
      + assert (size U <> 0); [|lia]. intros HU%size_empty_inv.
        apply HU in Hc. by apply not_elem_of_empty in Hc.
      + by intros x ->%elem_of_singleton.
    - intros x [Hx _]%elem_of_difference ->%elem_of_singleton. done. }
  rewrite <- EH.
  destruct (search_gemeindestand_candidate self n (F ∖ (F ∖ H)) wcd g Hg)
    as (c' & Hs & Hc' & _).
  { rewrite <- EU, HF. intros x [Hx Hnx]%elem_of_difference.
    apply elem_of_union in Hx as [[Hx _]%elem_of_difference| ->%elem_of_singleton]; [done|].
    exfalso. apply Hnx. apply elem_of_difference. split; [|done].
    apply elem_of_union. right. by apply elem_of_singleton. }
  rewrite Hs. by exists c'.
Qed.
End identifier_claims.

(** *** Scenario A: the codes of the only catalog state *)

(** C1.  The codes {261, 262, 263} are exactly those of the state 01-01-2020
    of the catalog, for which the specification promises the pair
    (01-01-2020, no correction).  No code is never-issued, so
    [_check_for_non_bfs_codes] returns [wrong_codes_dict] without having bound
    it and [find_gemeindestand] raises [UnboundLocalError]. *)
Theorem find_gemeindestand_scenario_A_raises :
  _check_for_unpoulated_areas (list_to_set df1.*1) = unique_gemeinden cat1 (toordinal 2020 1 1) /\
  find_gemeindestand cat1 df1 = Raise UnboundLocalError.
Proof. split; by vm_compute. Qed.

(** *** Scenario B: one code replaced by a never-issued one *)

(** C2.  The DataFrame carries the codes of the state 01-01-2020 with 263
    ("Alt-Dorf") replaced by the never-issued 4999 under the same name.  The
    specification promises the same state and the correction 4999 -> 263;
    [find_gemeindestand] returns through the cardinality path, which
    discards [wrong_codes_dict]: the state comes with no correction. *)
Theorem find_gemeindestand_scenario_B_no_correction :
  (4999%Z ∉ all_historical_bfs_codes cat2) /\
  _check_for_unpoulated_areas (list_to_set df2.*1)
    = unique_gemeinden cat2 (toordinal 2020 1 1) ∖ {[263%Z]} ∪ {[4999%Z]} /\
  find_gemeindestand cat2 df2 = Ok (toordinal 2020 1 1, None) /\
  _correct_wrong_codes cat2 (toordinal 2020 1 1) [(4999%Z, "Alt-Dorf")] = [(4999%Z, 263%Z)].
Proof. split_and!; by vm_compute. Qed.

(** The never-issued code of the specification's own scenario, 999999, is
    removed by the filter of codes from 7000 up before the clean-up sees it:
    the call then fails as in scenario A. *)
Lemma find_gemeindestand_scenario_B_999999 :
  find_gemeindestand cat2 [(261, "A"); (262, "B"); (999999, "Alt-Dorf")]%Z
  = Raise UnboundLocalError.
Proof. by vm_compute. Qed.

(** *** Codes of two states that never coexisted *)

(** C7.  No state of the catalog contains {261, 263}, the backward scan on
    this set is exhausted ([ValueError]); the specification has
    [find_gemeindestand] raise it.  Both codes are historical, so the
    clean-up raises [UnboundLocalError] before any search is made. *)
Theorem find_gemeindestand_no_state_unbound :
  _check_for_unpoulated_areas (list_to_set df7.*1) = list_to_set df7.*1 /\
  _infer_gemeindestand cat7 (list_to_set df7.*1) = Raise ValueError /\
  find_gemeindestand cat7 df7 = Raise UnboundLocalError.
Proof. split_and!; by vm_compute. Qed.

(** *** Correction builder *)

(** C9.  Two never-issued codes recorded under one name: the specification
    has the builder send both to the code of that name, dropping no entry.
    The builder first inverts the WrongCodes map into a map keyed by name,
    where the second code replaces the first, so the first wrong code gets no
    correction at all.  [find_gemeindestand] reaches the builder with such a
    map from a DataFrame that carries both codes (the order in which a set
    of codes is walked being unspecified, only the number of corrections is
    stated for it). *)
Theorem correct_wrong_codes_same_name_drops_entry :
  let wrong_codes_dict := [(4998, "Alt-Dorf"); (4999, "Alt-Dorf")]%Z in
  let corrections := _correct_wrong_codes cat2 (toordinal 2020 1 1) wrong_codes_dict in
  corrections = [(4999, 263)]%Z /\
  dict_get 4998%Z corrections = None /\
  exists corrections',
    find_gemeindestand cat2
      [(261, "A"); (262, "B"); (4998, "Alt-Dorf"); (4999, "Alt-Dorf")]%Z
    = Ok (toordinal 2020 1 1, Some corrections') /\
    length corrections' = 1.
Proof. split_and!; [by vm_compute..|]. eexists. split; by vm_compute. Qed.

(** For a WrongCodes map whose names are pairwise distinct the builder does
    what the specification says: it keeps every wrong code, in order, and
    sends it to the code its recorded name has in the name-to-code table of
    the inferred state, or to itself when the table does not know the name. *)
Lemma correct_wrong_codes_distinct_names
    (self : BaseMunicipalityData) (inferred_gmde_stand : date)
    (wrong_codes_dict : list (Z * string)) :
  NoDup (dict_keys wrong_codes_dict) ->
  NoDup wrong_codes_dict.*2 ->
  let name_to_code :=
    dict_invert (default [] (dict_get inferred_gmde_stand (gmde_dct self))) in
  let corrections := _correct_wrong_codes self inferred_gmde_stand wrong_codes_dict in
  dict_keys corrections = dict_keys wrong_codes_dict /\
  forall wrong name,
    (wrong, name) ∈ wrong_codes_dict ->
    dict_get wrong corrections = Some (default wrong (dict_get name name_to_code)).
Proof.
  intros Hcodes Hnames name_to_code corrections.
  assert (corrections =
          map (fun wn => (wn.1, default wn.1 (dict_get wn.2 name_to_code))) wrong_codes_dict)
    as Hcorr.
  { subst corrections. unfold _correct_wrong_codes. cbv zeta. fold name_to_code.
    rewrite dict_invert_NoDup by done. rewrite swap_keys.
    set (wrong_dict := map (fun kv : Z * string => (kv.2, kv.1)) wrong_codes_dict).
    assert (forall wn, wn ∈ wrong_codes_dict -> dict_get wn.2 wrong_dict = Some wn.1) as Hget.
    { intros [w n] Hin. apply dict_get_elem.
      - subst wrong_dict. by rewrite swap_keys.
      - apply list_elem_of_fmap. by exists (w, n). }
    assert (map (fun name =>
                   (default 0%Z (dict_get name wrong_dict),
                    default (default 0%Z (dict_get name wrong_dict))
                            (dict_get name name_to_code))) wrong_codes_dict.*2
            = map (fun wn => (wn.1, default wn.1 (dict_get wn.2 name_to_code)))
                  wrong_codes_dict) as ->.
    { clearbody wrong_dict. clear Hcodes Hnames.
      induction wrong_codes_dict as [|[w n] l IH]; csimpl; [done|].
      pose proof (Hget (w, n) ltac:(left)) as Hw. simpl in Hw. rewrite Hw.
      simpl. f_equal. apply IH.
      intros wn Hwn. apply Hget. by right. }
    apply dict_of_items_NoDup. clear -Hcodes.
    unfold dict_keys in *. rewrite <- list_fmap_compose.
    erewrite list_fmap_ext; [exact Hcodes|]. by intros ? [].  }
  assert (dict_keys corrections = dict_keys wrong_codes_dict) as Hkeys.
  { rewrite Hcorr. unfold dict_keys. rewrite <- list_fmap_compose.
    apply list_fmap_ext. by intros ? []. }
  split; [done|]. intros wrong name Hin. apply dict_get_elem.
  - by rewrite Hkeys.
  - rewrite Hcorr. apply list_elem_of_fmap. by exists (wrong, name).
Qed.

Example correct_wrong_codes_distinct_names_example :
  let wrong_codes_dict := [(4999, "Alt-Dorf"); (4998, "Nirgendwo")]%Z in
  let corrections := _correct_wrong_codes cat2 (toordinal 2020 1 1) wrong_codes_dict in
  dict_keys corrections = [4999; 4998]%Z /\
  forall wrong name,
    (wrong, name) ∈ wrong_codes_dict ->
    dict_get wrong corrections
    = Some (default wrong
              (dict_get name
                 (dict_invert (default [] (dict_get (toordinal 2020 1 1) (gmde_dct cat2)))))).
Proof.
  apply (correct_wrong_codes_distinct_names cat2 (toordinal 2020 1 1)
           [(4999, "Alt-Dorf"); (4998, "Nirgendwo")]%Z).
  - by_compute.
  - by_compute.
Qed.

(** ** Mapping composer *)

Lemma elem_of_flat_map {A B} (f : A -> list B) (l : list A) (y : B) :
  y ∈ flat_map f l <-> exists x, x ∈ l /\ y ∈ f x.
Proof.
  induction l as [|a l IH]; simpl.
  - split; [by intros ?%elem_of_nil | by intros (? & ?%elem_of_nil & _)].
  - rewrite elem_of_app, IH. split.
    + intros [?|(x & ? & ?)]; [exists a; split; [left | done] | exists x; split; [by right | done]].
    + intros (x & [->|?]%elem_of_cons & ?); [by left | right; by exists x].
Qed.

Lemma elem_of_map {A B} (f : A -> B) (l : list A) (y : B) :
  y ∈ map f l <-> exists x, y = f x /\ x ∈ l.
Proof. apply list_elem_of_fmap. Qed.

Lemma flat_map_ext_elem {A B} (f g : A -> list B) (l : list A) :
  (forall x, x ∈ l -> f x = g x) -> flat_map f l = flat_map g l.
Proof.
  induction l as [|a l IH]; intros Hfg; simpl; [done|].
  rewrite Hfg by left. f_equal. apply IH. intros x Hx. apply Hfg. by right.
Qed.

Lemma comprehension_Forall2 {A B} (f : A -> result B) xs ys :
  comprehension f xs = Ok ys <-> Forall2 (fun x y => f x = Ok y) xs ys.
Proof.
  revert ys. induction xs as [|x xs IH]; intros ys; simpl.
  - split; [intros [= <-]; constructor | by intros ->%Forall2_nil_inv_l].
  - split.
    + intros (y & Hy & (ys' & Hys & [= <-])%bind_Ok_inv)%bind_Ok_inv.
      constructor; [done | by apply IH].
    + intros (y & ys' & Hy & Hys & ->)%Forall2_cons_inv_l.
      rewrite Hy. simpl. apply IH in Hys. by rewrite Hys.
Qed.

(** *** Sorting the dates of a call *)

Lemma StronglySorted_le_lt (l : list Z) :
  StronglySorted Z.le l -> NoDup l -> StronglySorted Z.lt l.
Proof.
  induction 1 as [|x l Hl IH Hx]; intros Hnd; [constructor|].
  apply NoDup_cons in Hnd as [Hxl Hnd]. constructor; [by apply IH|].
  rewrite Forall_forall in Hx |- *. intros y Hy.
  assert (x <> y) by (intros ->; done). specialize (Hx y Hy). lia.
Qed.

Lemma StronglySorted_lt_NoDup (l : list Z) : StronglySorted Z.lt l -> NoDup l.
Proof.
  induction 1 as [|x l Hl IH Hx]; [constructor|].
  apply NoDup_cons. split; [|done]. intros Hin.
  rewrite Forall_forall in Hx. specialize (Hx x Hin). lia.
Qed.

(** [sorted(set(xs))] is strictly increasing and has the elements of [xs]. *)
Lemma sorted_set_spec (xs : list date) :
  StronglySorted Z.lt (sorted_set xs) /\ forall d, d ∈ sorted_set xs <-> d ∈ xs.
Proof.
  unfold sorted_set. split.
  - apply StronglySorted_le_lt.
    + apply StronglySorted_merge_sort; apply _.
    + rewrite merge_sort_Permutation. apply NoDup_elements.
  - intros d. rewrite merge_sort_Permutation, elem_of_elements, elem_of_list_to_set. done.
Qed.

(** *** The requests *)

Lemma fetch_tasks_length start_date targets :
  length (fetch_tasks start_date targets) = length targets.
Proof.
  revert start_date. induction targets as [|t targets IH]; intros s; simpl; [done|].
  by rewrite IH.
Qed.

(** Request number [i] is the hop from date [i] to date [i + 1]. *)
Lemma fetch_tasks_lookup start_date targets i a b :
  fetch_tasks start_date targets !! i = Some (a, b) <->
  (start_date :: targets) !! i = Some a /\ (start_date :: targets) !! (S i) = Some b.
Proof.
  revert start_date i. induction targets as [|t targets IH]; intros s i; simpl.
  - split; [done|]. by intros [_ ?].
  - destruct i as [|i]; simpl.
    + split; [by intros [= -> ->] | by intros [[= ->] [= ->]]].
    + by rewrite IH.
Qed.

(** *** The fold *)

Lemma column_index_app_last cols d :
  d ∉ cols -> column_index d (cols ++ [d]) = Some (length cols).
Proof.
  induction cols as [|c cols IH]; simpl; intros Hd.
  - by rewrite decide_True.
  - apply not_elem_of_cons in Hd as [Hne Hd]. rewrite decide_False by done.
    by rewrite IH.
Qed.

Lemma renamed_wf start_date target mapping : frame_wf (renamed start_date target mapping).
Proof.
  intros row Hrow. simpl in *. apply list_elem_of_fmap in Hrow as (e & -> & _). done.
Qed.

Lemma join_row_length table r : length (join_row table r) = 1 `max` length (matching r table).
Proof.
  unfold join_row. destruct (matching r table) as [|m ms]; [done|].
  rewrite length_map. simpl. lia.
Qed.

Lemma join_row_elem table r w : w ∈ join_row table r -> exists x, w = r ++ [x].
Proof.
  unfold join_row. destruct (matching r table) as [|m ms].
  - intros ->%list_elem_of_singleton. by eexists.
  - intros (e & -> & _)%elem_of_map. by eexists.
Qed.

Lemma left_join_last_rows running target table w :
  w ∈ rows (left_join_last running target table) <->
  exists r, r ∈ rows running /\ w ∈ join_row table r.
Proof. unfold left_join_last. simpl. apply elem_of_flat_map. Qed.

Lemma left_join_last_wf running target table :
  frame_wf running -> frame_wf (left_join_last running target table).
Proof.
  intros Hwf w (r & Hr & Hw)%left_join_last_rows.
  apply join_row_elem in Hw as [x ->]. simpl. rewrite !length_app. simpl. by rewrite (Hwf r Hr).
Qed.

(** On a frame whose last columns are those of [start_date], the merge on
    the columns named after [start_date] is the left join on the last hop. *)
Lemma merge_left_last full start_date target mapping earlier :
  frame_wf full ->
  columns full = earlier ++ [start_date] ->
  start_date ∉ earlier ->
  merge_left full start_date target mapping = Ok (left_join_last full target mapping).
Proof.
  intros Hwf Hcols Hfresh. unfold merge_left, left_join_last.
  rewrite Hcols, column_index_app_last by done. do 2 f_equal.
  apply flat_map_ext_elem. intros row Hrow. unfold join_row, matching.
  assert (row !! length earlier = last row) as ->; [|done].
  rewrite last_lookup. f_equal. rewrite (Hwf row Hrow), Hcols, length_app. simpl. lia.
Qed.

Lemma compose_loop_join targets i mappings full start_date earlier :
  frame_wf full ->
  columns full = earlier ++ [start_date] ->
  NoDup (earlier ++ start_date :: drop i targets) ->
  length mappings <= length (drop i targets) ->
  compose_loop targets i mappings (Some full) start_date
  = Ok (Some (fold_left (fun running dt => left_join_last running dt.1 dt.2)
                        (zip (drop i targets) mappings) full)).
Proof.
  revert i full start_date earlier.
  induction mappings as [|mapping mappings IH]; intros i full start_date earlier
    Hwf Hcols Hnd Hlen; simpl.
  - by rewrite zip_with_nil_r.
  - destruct (drop i targets) as [|target later] eqn:Hdrop; [simpl in Hlen; lia|].
    assert (targets !! i = Some target) as Hi.
    { rewrite <- (take_drop i targets) at 1. rewrite Hdrop.
      rewrite lookup_app_r by (rewrite length_take; lia).
      rewrite length_take. replace (i - i `min` length targets) with 0; [done|].
      assert (i < length targets); [|lia].
      apply (f_equal length) in Hdrop. rewrite length_drop in Hdrop. simpl in Hdrop. lia. }
    assert (drop (S i) targets = later) as Hdrop'.
    { rewrite <- (Nat.add_1_l i), Nat.add_comm, <- drop_drop, Hdrop. done. }
    rewrite Hi.
    rewrite (merge_left_last full start_date target mapping earlier); [|done..|].
    + simpl. rewrite (IH (S i) _ target (earlier ++ [start_date])).
      * by rewrite Hdrop'.
      * by apply left_join_last_wf.
      * simpl. by rewrite Hcols.
      * rewrite Hdrop'. by rewrite <- app_assoc.
      * rewrite Hdrop'. simpl in Hlen. lia.
    + apply NoDup_app in Hnd as (_ & Hdisj & _). intros Hin.
      apply (Hdisj _ Hin). left.
Qed.

(** The loop of [create_multi_mapping] is the fold of the specification:
    the tables are consumed in the order of the hops, each joined on the
    columns of the date the previous hop ended at. *)
Lemma compose_loop_spec_fold earliest_date targets mappings :
  NoDup (earliest_date :: targets) ->
  length mappings = length targets ->
  compose_loop targets 0 mappings None earliest_date
  = Ok (spec_fold (earliest_date :: targets) mappings).
Proof.
  intros Hnd Hlen. destruct mappings as [|mapping mappings]; simpl.
  - by destruct targets.
  - destruct targets as [|target later]; [done|]. simpl.
    rewrite (compose_loop_join (target :: later) 1 mappings _ target [earliest_date]).
    + done.
    + apply renamed_wf.
    + done.
    + done.
    + simpl. rewrite drop_0. simpl in Hlen. lia.
Qed.

(** *** Rows are kept *)

Lemma filter_prefix_join_row p table r :
  p `prefix_of` r ->
  filter (fun w => p `prefix_of` w) (join_row table r) = join_row table r.
Proof.
  intros Hp. pose proof (join_row_elem table r) as Hall.
  induction (join_row table r) as [|w ws IH]; [done|].
  destruct (Hall w) as [x ->]; [left|].
  rewrite filter_cons, decide_True by (by apply prefix_app_r).
  f_equal. apply IH. intros w' Hw'. apply Hall. by right.
Qed.

Lemma extensions_join_ge p running target table :
  length (extensions p running) <= length (extensions p (left_join_last running target table)).
Proof.
  unfold extensions, left_join_last. simpl.
  induction (rows running) as [|r rs IH]; simpl; [done|].
  rewrite filter_app, length_app, filter_cons.
  case_decide as Hp; simpl; [|lia].
  rewrite filter_prefix_join_row, join_row_length by done. lia.
Qed.

(** A row of the running table is continued once per matching edge of the
    next hop, and once when no edge matches. *)
Lemma extensions_join_row r running target table :
  r ∈ rows running ->
  1 `max` length (matching r table)
  <= length (extensions r (left_join_last running target table)).
Proof.
  unfold extensions, left_join_last. simpl.
  induction (rows running) as [|r' rs IH]; intros Hin; [by apply elem_of_nil in Hin|].
  simpl. rewrite filter_app, length_app.
  destruct (decide (r = r')) as [<-|Hne].
  - rewrite filter_prefix_join_row, join_row_length by done. lia.
  - apply elem_of_cons in Hin as [?|Hin]; [done|]. specialize (IH Hin). lia.
Qed.

Lemma extensions_fold_ge p (steps : list (date * list edge)) running :
  length (extensions p running)
  <= length (extensions p (fold_left (fun running dt => left_join_last running dt.1 dt.2)
                                     steps running)).
Proof.
  revert running. induction steps as [|[d t] steps IH]; intros running; simpl; [done|].
  etrans; [apply (extensions_join_ge p running d t) | apply IH].
Qed.

Lemma extensions_elem p f : 1 <= length (extensions p f) -> exists w, w ∈ rows f /\ p `prefix_of` w.
Proof.
  unfold extensions. destruct (filter _ (rows f)) as [|w ws] eqn:E; simpl; [lia|].
  intros _. exists w.
  assert (w ∈ filter (fun w => p `prefix_of` w) (rows f)) as Hw by (rewrite E; left).
  apply list_elem_of_filter in Hw. tauto.
Qed.

(** Every row of the first hop's table starts a row of the folded table. *)
Lemma fold_keeps_first_rows d0 d1 table0 (steps : list (date * list edge)) e :
  e ∈ table0 ->
  exists w,
    w ∈ rows (fold_left (fun running dt => left_join_last running dt.1 dt.2)
                        steps (renamed d0 d1 table0)) /\
    [(InitialCode e, InitialName e); (TerminalCode e, TerminalName e)] `prefix_of` w.
Proof.
  intros He. apply extensions_elem. etrans; [|apply extensions_fold_ge].
  unfold extensions, renamed. simpl.
  apply list_elem_of_split in He as (l1 & l2 & ->).
  rewrite map_app, filter_app, length_app. simpl.
  rewrite filter_cons, decide_True by done. simpl. lia.
Qed.

(** The dates of the hops are sorted, and the snapped origin is one of them. *)
Lemma hop_dates_inv self origin targets hops :
  hop_dates self origin targets = Ok hops ->
  StronglySorted Z.lt hops /\ hops <> [].
Proof.
  unfold hop_dates.
  intros (o & _ & (ts & _ & [= <-])%bind_Ok_inv)%bind_Ok_inv.
  destruct (sorted_set_spec (ts ++ [o])) as [Hsorted Helem]. split; [done|].
  intros Hnil. apply (elem_of_nil o). rewrite <- Hnil. apply Helem.
  apply elem_of_app. right. left.
Qed.

(** Once its requests are answered, [create_multi_mapping] returns the fold
    of the answers over the dates of its hops. *)
Lemma create_multi_mapping_result self _fetch_mapping origin targets return_names hops tables :
  hop_dates self origin targets = Ok hops ->
  Forall2 (fun hop table => _fetch_mapping hop.1 hop.2 = Ok table)
          (create_multi_mapping self _fetch_mapping origin targets return_names).1 tables ->
  (create_multi_mapping self _fetch_mapping origin targets return_names).2
  = return_mapping return_names (spec_fold hops tables).
Proof.
  intros Hhops. destruct (hop_dates_inv _ _ _ _ Hhops) as [Hsorted Hne].
  unfold create_multi_mapping. rewrite Hhops.
  destruct hops as [|earliest later]; [done|]. simpl.
  intros Hfetched.
  assert (gather _fetch_mapping (fetch_tasks earliest later) = Ok tables) as ->
    by (by apply comprehension_Forall2).
  simpl. rewrite compose_loop_spec_fold; [done | |].
  - by apply StronglySorted_lt_NoDup.
  - apply Forall2_length in Hfetched. by rewrite fetch_tasks_length in Hfetched.
Qed.

(** C3.  The fold of [create_multi_mapping] over the fetched tables of a
    call (dates pairwise distinct, one table per hop, at least one hop) is
    the left join of every later table on the code and name columns of the
    date the previous hop ended at.  Every row of the first hop's table
    starts at least one row of the final table, so every origin code of the
    first table occurs in the first code column; and a row of the running
    table that matches several edges of a later hop is continued by at least
    as many rows of the final table. *)
Theorem compose_keeps_rows
    (earliest_date : date) (targets : list date)
    (table0 : list edge) (tables : list (list edge)) :
  NoDup (earliest_date :: targets) ->
  length targets = S (length tables) ->
  exists full,
    compose_loop targets 0 (table0 :: tables) None earliest_date = Ok (Some full) /\
    spec_fold (earliest_date :: targets) (table0 :: tables) = Some full /\
    (forall e, e ∈ table0 ->
       exists w, w ∈ rows full /\
         [(InitialCode e, InitialName e); (TerminalCode e, TerminalName e)] `prefix_of` w) /\
    (forall e, e ∈ table0 ->
       exists w, w ∈ rows full /\ fst <$> head w = Some (InitialCode e)) /\
    (forall hops1 d hops2 tables1 table tables2 running r,
       earliest_date :: targets = hops1 ++ d :: hops2 ->
       table0 :: tables = tables1 ++ table :: tables2 ->
       length hops1 = S (length tables1) ->
       spec_fold hops1 tables1 = Some running ->
       r ∈ rows running ->
       1 <= length (extensions r full) /\
       length (matching r table) <= length (extensions r full)).
Proof.
  intros Hnd Hlen.
  destruct targets as [|d1 later]; [done|]. simpl in Hlen.
  set (full := fold_left (fun running dt => left_join_last running dt.1 dt.2)
                         (zip later tables) (renamed earliest_date d1 table0)).
  assert (forall e, e ∈ table0 ->
     exists w, w ∈ rows full /\
       [(InitialCode e, InitialName e); (TerminalCode e, TerminalName e)] `prefix_of` w)
    as Hrows by (intros e He; by apply fold_keeps_first_rows).
  exists full. split_and!.
  - apply (compose_loop_spec_fold earliest_date (d1 :: later) (table0 :: tables) Hnd).
    simpl. lia.
  - done.
  - done.
  - intros e (w & Hw & [k ->])%Hrows. by exists ([(InitialCode e, InitialName e);
      (TerminalCode e, TerminalName e)] ++ k).
  - intros hops1 d hops2 tables1 table tables2 running r Hhops Htables Hlen1 Hrun Hr.
    destruct hops1 as [|h0 [|h1 later1]]; [done| |].
    { by destruct tables1. }
    destruct tables1 as [|t0 tables1]; [done|].
    simpl in Hhops, Htables, Hrun, Hlen1. simplify_eq.
    assert (full = fold_left (fun running dt => left_join_last running dt.1 dt.2)
                     (zip hops2 tables2)
                     (left_join_last
                        (fold_left (fun running dt => left_join_last running dt.1 dt.2)
                                   (zip later1 tables1) (renamed h0 h1 t0))
                        d table)) as ->.
    { subst full. rewrite zip_with_app by lia. by rewrite fold_left_app. }
    pose proof (extensions_join_row r _ d table Hr) as Hjoin.
    pose proof (extensions_fold_ge r (zip hops2 tables2)
                  (left_join_last
                     (fold_left (fun running dt => left_join_last running dt.1 dt.2)
                                (zip later1 tables1) (renamed h0 h1 t0)) d table)) as Hfold.
    lia.
Qed.

Lemma compose_keeps_rows_witness :
  let targets := [d2019; d2020] in
  let table0 := [mk_edge 1 "A" 1 "A"; mk_edge 2 "B" 3 "C"] in
  let tables := [[mk_edge 1 "A" 10 "A1"; mk_edge 1 "A" 11 "A2"; mk_edge 3 "C" 3 "C"]] in
  exists full,
    compose_loop targets 0 (table0 :: tables) None d2018 = Ok (Some full) /\
    spec_fold (d2018 :: targets) (table0 :: tables) = Some full /\
    (forall e, e ∈ table0 ->
       exists w, w ∈ rows full /\
         [(InitialCode e, InitialName e); (TerminalCode e, TerminalName e)] `prefix_of` w) /\
    (forall e, e ∈ table0 ->
       exists w, w ∈ rows full /\ fst <$> head w = Some (InitialCode e)) /\
    (forall hops1 d hops2 tables1 table tables2 running r,
       d2018 :: targets = hops1 ++ d :: hops2 ->
       table0 :: tables = tables1 ++ table :: tables2 ->
       length hops1 = S (length tables1) ->
       spec_fold hops1 tables1 = Some running ->
       r ∈ rows running ->
       1 <= length (extensions r full) /\
       length (matching r table) <= length (extensions r full)).
Proof.
  apply (compose_keeps_rows d2018 [d2019; d2020]
           [mk_edge 1 "A" 1 "A"; mk_edge 2 "B" 3 "C"]
           [[mk_edge 1 "A" 10 "A1"; mk_edge 1 "A" 11 "A2"; mk_edge 3 "C" 3 "C"]]).
  - by_compute.
  - reflexivity.
Defined.

(** The split of code 1 at the second hop of the example: two rows. *)
Example compose_split_example :
  compose_loop [d2019; d2020] 0
    [ [mk_edge 1 "A" 1 "A"; mk_edge 2 "B" 3 "C"];
      [mk_edge 1 "A" 10 "A1"; mk_edge 1 "A" 11 "A2"; mk_edge 3 "C" 3 "C"] ]
    None d2018
  = Ok (Some {| columns := [d2018; d2019; d2020];
                rows := [ [(Some 1, Some "A"); (Some 1, Some "A"); (Some 10, Some "A1")];
                          [(Some 1, Some "A"); (Some 1, Some "A"); (Some 11, Some "A2")];
                          [(Some 2, Some "B"); (Some 3, Some "C"); (Some 3, Some "C")] ]%Z |}).
Proof. by vm_compute. Qed.

(** In that table the running row (1, "A") -> (1, "A") matches two edges of
    the second hop and is continued by two rows. *)
Example compose_split_counts :
  let running_row := [(Some 1%Z, Some "A"); (Some 1%Z, Some "A")] in
  let table := [mk_edge 1 "A" 10 "A1"; mk_edge 1 "A" 11 "A2"; mk_edge 3 "C" 3 "C"] in
  spec_fold [d2018; d2019] [[mk_edge 1 "A" 1 "A"; mk_edge 2 "B" 3 "C"]]
    = Some {| columns := [d2018; d2019];
              rows := [running_row; [(Some 2%Z, Some "B"); (Some 3%Z, Some "C")]] |} /\
  length (matching running_row table) = 2 /\
  (forall full,
     spec_fold [d2018; d2019; d2020] [[mk_edge 1 "A" 1 "A"; mk_edge 2 "B" 3 "C"]; table]
       = Some full ->
     length (extensions running_row full) = 2).
Proof.
  split_and!; [by vm_compute..|]. intros full Hfull. vm_compute in Hfull.
  injection Hfull as <-. by vm_compute.
Qed.

(** The same on the table the call returns: with or without the name
    columns, every origin code of the first fetched table is in its first
    code column. *)
Lemma create_multi_mapping_keeps_origin_codes
    self _fetch_mapping origin targets return_names hops table0 tables e :
  hop_dates self origin targets = Ok hops ->
  Forall2 (fun hop table => _fetch_mapping hop.1 hop.2 = Ok table)
          (create_multi_mapping self _fetch_mapping origin targets return_names).1
          (table0 :: tables) ->
  e ∈ table0 ->
  match (create_multi_mapping self _fetch_mapping origin targets return_names).2 with
  | Ok (Some (WithNames full)) =>
      exists w, w ∈ rows full /\ head w = Some (InitialCode e, InitialName e)
  | Ok (Some (CodesOnly _ code_rows)) =>
      exists w, w ∈ code_rows /\ head w = Some (InitialCode e)
  | _ => False
  end.
Proof.
  intros Hhops Hfetched He.
  rewrite (create_multi_mapping_result _ _ _ _ _ hops (table0 :: tables)) by done.
  assert (length (create_multi_mapping self _fetch_mapping origin targets return_names).1
          = length hops - 1) as Hlen.
  { unfold create_multi_mapping. rewrite Hhops. destruct hops as [|d0 later]; [done|].
    simpl. rewrite fetch_tasks_length. lia. }
  apply Forall2_length in Hfetched. rewrite Hlen in Hfetched. simpl in Hfetched.
  destruct hops as [|d0 [|d1 later]]; [simpl in Hfetched; lia..|]. simpl.
  destruct (fold_keeps_first_rows d0 d1 table0 (zip later tables) e He)
    as (w & Hw & [k ->]).
  destruct return_names; simpl.
  - by exists ([(InitialCode e, InitialName e); (TerminalCode e, TerminalName e)] ++ k).
  - exists (map fst ([(InitialCode e, InitialName e); (TerminalCode e, TerminalName e)] ++ k)).
    split; [|done]. apply elem_of_map. by eexists.
Qed.

(** C4.  When the origin and the targets resolve to catalog dates, the
    dates of the hops are the strictly increasing sequence of the snapped
    origin and the snapped targets; request number [i] is the fetch from
    date [i] to date [i + 1] of that sequence, so there are as many requests
    as consecutive pairs; and once the requests are answered the result is
    the fold of the answers in the order of the hops. *)
Theorem create_multi_mapping_hops
    (self : BaseMunicipalityData) (_fetch_mapping : date -> date -> result (list edge))
    (origin : date) (targets : targets_arg) (return_names : bool)
    (snapped_origin : date) (snapped_targets : list date) :
  _find_closest_official_gemeindestand self origin "smaller" = Ok snapped_origin ->
  _validate_and_transform_targets self targets = Ok snapped_targets ->
  exists hops,
    hop_dates self origin targets = Ok hops /\
    StronglySorted Z.lt hops /\
    (forall d, d ∈ hops <-> d = snapped_origin \/ d ∈ snapped_targets) /\
    let call := create_multi_mapping self _fetch_mapping origin targets return_names in
    length call.1 = length hops - 1 /\
    (forall i a b, call.1 !! i = Some (a, b) <-> hops !! i = Some a /\ hops !! (S i) = Some b) /\
    (forall tables,
       Forall2 (fun hop table => _fetch_mapping hop.1 hop.2 = Ok table) call.1 tables ->
       call.2 = return_mapping return_names (spec_fold hops tables)).
Proof.
  intros Horigin Htargets.
  destruct (sorted_set_spec (snapped_targets ++ [snapped_origin])) as [Hsorted Helem].
  exists (sorted_set (snapped_targets ++ [snapped_origin])).
  assert (hop_dates self origin targets
          = Ok (sorted_set (snapped_targets ++ [snapped_origin]))) as Hhops.
  { unfold hop_dates. rewrite Horigin. simpl. rewrite Htargets. done. }
  split_and!; [done..| |].
  { intros d. rewrite Helem, elem_of_app, list_elem_of_singleton. tauto. }
  unfold create_multi_mapping. rewrite Hhops.
  destruct (sorted_set (snapped_targets ++ [snapped_origin])) as [|earliest later] eqn:E.
  { exfalso. apply (elem_of_nil snapped_origin). apply Helem.
    apply elem_of_app. right. left. }
  cbv zeta. simpl. split_and!.
  - rewrite fetch_tasks_length. lia.
  - intros i a b. apply fetch_tasks_lookup.
  - intros tables Hfetched.
    pose proof (create_multi_mapping_result self _fetch_mapping origin targets return_names
                  (earliest :: later) tables) as Hresult.
    unfold create_multi_mapping in Hresult. rewrite Hhops in Hresult. by apply Hresult.
Qed.

Lemma create_multi_mapping_hops_witness :
  exists hops,
    hop_dates cat3 (d2018 + 5)%Z (TargetList [d2021; (d2019 - 3)%Z; d2021]) = Ok hops /\
    StronglySorted Z.lt hops /\
    (forall d, d ∈ hops <-> d = d2018 \/ d ∈ [d2021; d2019; d2021]) /\
    let call := create_multi_mapping cat3 fetch3 (d2018 + 5)%Z
                  (TargetList [d2021; (d2019 - 3)%Z; d2021]) true in
    length call.1 = length hops - 1 /\
    (forall i a b, call.1 !! i = Some (a, b) <-> hops !! i = Some a /\ hops !! (S i) = Some b) /\
    (forall tables,
       Forall2 (fun hop table => fetch3 hop.1 hop.2 = Ok table) call.1 tables ->
       call.2 = return_mapping true (spec_fold hops tables)).
Proof.
  apply (create_multi_mapping_hops cat3 fetch3 (d2018 + 5)%Z
           (TargetList [d2021; (d2019 - 3)%Z; d2021]) true d2018 [d2021; d2019; d2021]).
  - by vm_compute.
  - by vm_compute.
Defined.

(** The requests of that call: 2018 -> 2019 and 2019 -> 2021, nothing else. *)
Example create_multi_mapping_requests_example :
  (create_multi_mapping cat3 fetch3 (d2018 + 5)%Z
     (TargetList [d2021; (d2019 - 3)%Z; d2021]) true).1
  = [(d2018, d2019); (d2019, d2021)].
Proof. by vm_compute. Qed.

(** *** Range and list targets *)

Lemma list_index_app_fresh (x : Z) (before after : list Z) :
  x ∉ before -> list_index x (before ++ x :: after) = Ok (length before).
Proof.
  induction before as [|y before IH]; simpl; intros Hx.
  - by rewrite decide_True.
  - apply not_elem_of_cons in Hx as [Hne Hx]. rewrite decide_False by done.
    by rewrite IH.
Qed.

Lemma find_closest_catalog_date self d prefer :
  d ∈ gemeindestaende self -> _find_closest_official_gemeindestand self d prefer = Ok d.
Proof. intros Hd. unfold _find_closest_official_gemeindestand. by rewrite decide_True. Qed.

(** C5.  In a catalog of distinct dates in which D1, D2, D3 follow each
    other, the range target (D1, D3) and the list target [D1, D2, D3] make
    the same call: the same requests and the same result. *)
Theorem create_multi_mapping_range_list
    (self : BaseMunicipalityData) (_fetch_mapping : date -> date -> result (list edge))
    (D0 D1 D2 D3 : date) (before after : list date) (return_names : bool) :
  NoDup (gemeindestaende self) ->
  gemeindestaende self = before ++ [D1; D2; D3] ++ after ->
  create_multi_mapping self _fetch_mapping D0 (TargetTuple [D1; D3]) return_names
  = create_multi_mapping self _fetch_mapping D0 (TargetList [D1; D2; D3]) return_names.
Proof.
  intros Hnd Hcat.
  assert (_validate_and_transform_targets self (TargetTuple [D1; D3])
          = _validate_and_transform_targets self (TargetList [D1; D2; D3])) as Hsame.
  { assert (forall d, d ∈ [D1; D2; D3] -> d ∈ gemeindestaende self) as Hin.
    { intros d Hd. rewrite Hcat. apply elem_of_app. right. apply elem_of_app. by left. }
    simpl. rewrite !find_closest_catalog_date by (apply Hin; set_solver). simpl.
    rewrite Hcat in Hnd |- *.
    change (before ++ [D1; D2; D3] ++ after) with (before ++ D1 :: D2 :: D3 :: after) in *.
    rewrite list_index_app_fresh.
    2:{ apply NoDup_app in Hnd as (_ & Hdisj & _). intros HD1. apply (Hdisj _ HD1). left. }
    simpl.
    assert (before ++ D1 :: D2 :: D3 :: after = (before ++ [D1; D2]) ++ D3 :: after) as Hre
      by (by rewrite <- app_assoc).
    rewrite Hre in Hnd. rewrite Hre at 1.
    rewrite list_index_app_fresh.
    2:{ apply NoDup_app in Hnd as (_ & Hdisj & _). intros HD3. apply (Hdisj _ HD3). left. }
    simpl. f_equal.
    replace (before ++ D1 :: D2 :: D3 :: after) with ((before ++ [D1; D2; D3]) ++ after)
      by (by rewrite <- app_assoc).
    rewrite take_app_length'.
    2:{ rewrite !length_app. simpl. lia. }
    by rewrite drop_app_length. }
  unfold create_multi_mapping, hop_dates. by rewrite Hsame.
Qed.

Lemma create_multi_mapping_range_list_witness :
  create_multi_mapping cat3 fetch3 d2018 (TargetTuple [d2019; d2021]) true
  = create_multi_mapping cat3 fetch3 d2018 (TargetList [d2019; d2020; d2021]) true.
Proof.
  apply (create_multi_mapping_range_list cat3 fetch3 d2018 d2019 d2020 d2021 [d2018] []).
  - by_compute.
  - reflexivity.
Defined.

(** ** Newest-state projector *)

Lemma elem_of_unique (xs : list Z) x : x ∈ unique xs <-> x ∈ xs.
Proof.
  induction xs as [|y xs IH]; simpl; [done|].
  rewrite !elem_of_cons, list_elem_of_filter, IH.
  destruct (decide (x = y)); [tauto|]. tauto.
Qed.

Lemma NoDup_unique (xs : list Z) : NoDup (unique xs).
Proof.
  induction xs as [|y xs IH]; simpl; [constructor|].
  apply NoDup_cons. split.
  - rewrite list_elem_of_filter. tauto.
  - by apply NoDup_filter.
Qed.

Lemma last_removelast {A} (l : list A) x : last l = Some x -> l = removelast l ++ [x].
Proof.
  induction l as [|a l IH]; [done|]. destruct l as [|b l].
  - by intros [= ->].
  - intros Hl. change (last (a :: b :: l)) with (last (b :: l)) in Hl.
    change (removelast (a :: b :: l)) with (a :: removelast (b :: l)).
    simpl. f_equal. by apply IH.
Qed.

(** The Gemeindestaende of the data: [origins] are the distinct dates other
    than [newest]. *)
Lemma origins_spec (df : list row) newest :
  last (merge_sort Z.le (unique (omap stand df))) = Some newest ->
  let origins := removelast (merge_sort Z.le (unique (omap stand df))) in
  NoDup origins /\
  (newest ∉ origins) /\
  (newest ∈ omap stand df) /\
  forall o, o ∈ origins <-> o ∈ omap stand df /\ o <> newest.
Proof.
  intros Hlast origins.
  pose proof (last_removelast _ _ Hlast) as Hsplit. fold origins in Hsplit.
  assert (NoDup (origins ++ [newest])) as Hnd.
  { rewrite <- Hsplit, merge_sort_Permutation. apply NoDup_unique. }
  assert (forall o, o ∈ origins ++ [newest] <-> o ∈ omap stand df) as Helem.
  { intros o. by rewrite <- Hsplit, merge_sort_Permutation, elem_of_unique. }
  apply NoDup_app in Hnd as (Hnd & Hdisj & _).
  assert (newest ∉ origins) as Hnew by (intros Hin; apply (Hdisj _ Hin); left).
  split_and!; [done..| |].
  - apply Helem, elem_of_app. right. left.
  - intros o. rewrite <- Helem, elem_of_app, list_elem_of_singleton. split.
    + intros Ho. split; [by left|]. by intros ->.
    + intros [[?|?] ?]; done.
Qed.

Lemma filter_none {A} (P : A -> Prop) `{forall x, Decision (P x)} (l : list A) :
  (forall x, x ∈ l -> ¬ P x) -> filter P l = [].
Proof.
  induction l as [|a l IH]; intros Hn; [done|].
  rewrite filter_cons, decide_False by (apply Hn; left).
  apply IH. intros x Hx. apply Hn. by right.
Qed.

Lemma map_flat_map {A B C} (f : B -> C) (g : A -> list B) (l : list A) :
  map f (flat_map g l) = flat_map (fun x => map f (g x)) l.
Proof. induction l as [|a l IH]; simpl; [done|]. by rewrite map_app, IH. Qed.

Section projector_facts.
Variable _fetch_mapping : date -> date -> result (list edge).
Variable newest : date.

Lemma set_extra_stand c v r : stand (set_extra c v r) = stand r.
Proof. done. Qed.

Lemma set_extra_code c v r : code (set_extra c v r) = code r.
Proof. done. Qed.

Lemma apply_merge_flat_map origin mapping df :
  apply_update newest (merge_update origin mapping df)
  = flat_map (step_row newest origin mapping) df.
Proof.
  unfold apply_update, merge_update. rewrite map_flat_map.
  apply flat_map_ext_elem. intros r _. unfold step_row.
  destruct (filter _ mapping) as [|m ms]; [done|]. by rewrite map_map.
Qed.

Lemma step_row_stand origin mapping r r' :
  r' ∈ step_row newest origin mapping r -> stand r' = stand r.
Proof.
  unfold step_row. destruct (filter _ mapping) as [|m ms].
  - by intros ->%list_elem_of_singleton.
  - by intros (e & -> & _)%elem_of_map.
Qed.

Lemma step_row_other origin mapping r :
  stand r <> Some origin -> step_row newest origin mapping r = [r].
Proof.
  intros Hne. unfold step_row.
  rewrite filter_none; [done|]. intros m _ [? _]. done.
Qed.

Lemma flat_map_flat_map {A B C} (f : A -> list B) (g : B -> list C) l :
  flat_map g (flat_map f l) = flat_map (fun x => flat_map g (f x)) l.
Proof.
  induction l as [|a l IH]; simpl; [done|]. by rewrite flat_map_app, IH.
Qed.

Lemma flat_map_singleton {A} (l : list A) : flat_map (fun x => [x]) l = l.
Proof. induction l as [|a l IH]; simpl; [done | by rewrite IH]. Qed.

Lemma loop_flat_map steps df :
  fold_left (fun rows om => flat_map (step_row newest om.1 om.2) rows) steps df
  = flat_map (loop_row newest steps) df.
Proof.
  unfold loop_row. revert df.
  induction steps as [|[o m] steps IH]; intros df; simpl.
  - by rewrite flat_map_singleton.
  - rewrite IH, flat_map_flat_map. apply flat_map_ext_elem. intros r _.
    rewrite app_nil_r. by rewrite IH.
Qed.

Lemma loop_row_other steps r :
  (forall o, o ∈ steps.*1 -> stand r <> Some o) -> loop_row newest steps r = [r].
Proof.
  unfold loop_row. induction steps as [|[o m] steps IH]; intros Hne; simpl; [done|].
  rewrite app_nil_r, step_row_other by (apply Hne; left). apply IH.
  intros o' Ho'. apply Hne. by right.
Qed.

Lemma loop_row_step steps origin mapping r :
  NoDup steps.*1 ->
  (origin, mapping) ∈ steps ->
  stand r = Some origin ->
  loop_row newest steps r = step_row newest origin mapping r.
Proof.
  induction steps as [|[o m] steps IH]; intros Hnd Hin Hstand.
  - by apply elem_of_nil in Hin.
  - csimpl in Hnd. apply NoDup_cons in Hnd as [Ho Hnd].
    unfold loop_row. simpl. rewrite app_nil_r.
    destruct (decide (o = origin)) as [->|Hne].
    + assert (m = mapping) as ->.
      { apply elem_of_cons in Hin as [[= ->]|Hin]; [done|].
        exfalso. apply Ho. apply list_elem_of_fmap. by exists (origin, mapping). }
      rewrite loop_flat_map.
      rewrite (flat_map_ext_elem _ (fun x => [x])); [apply flat_map_singleton|].
      intros r' Hr'. apply loop_row_other. intros o' Ho' Hs.
      rewrite (step_row_stand _ _ _ _ Hr'), Hstand in Hs. by injection Hs as ->.
    + rewrite step_row_other by (rewrite Hstand; congruence).
      apply IH; [done| |done].
      apply elem_of_cons in Hin as [[= ? ?]|Hin]; [by subst | done].
Qed.

(** The loop over the fetched tables: it succeeds when every table can be
    cast, and is then the iteration of [step_row]. *)
Lemma for_each_project_step (oms : list (date * list edge)) df out :
  for_each (project_step newest) oms df = Ok out <->
  exists casts,
    Forall2 (fun om cast => int_columns om.2 = Ok cast) oms casts /\
    out = flat_map (loop_row newest (zip oms.*1 casts)) df.
Proof.
  revert df. induction oms as [|[o t] oms IH]; intros df; simpl.
  - split.
    + intros [= <-]. exists []. split; [constructor|].
      unfold loop_row. simpl. by rewrite flat_map_singleton.
    + intros (casts & ->%Forall2_nil_inv_l & ->).
      unfold loop_row. simpl. by rewrite flat_map_singleton.
  - unfold project_step at 1. simpl.
    destruct (int_columns t) as [m|e] eqn:Et; simpl.
    + rewrite IH, apply_merge_flat_map. split.
      * intros (casts & Hcasts & ->). exists (m :: casts). split; [by constructor|].
        rewrite <- !loop_flat_map. done.
      * intros (casts & (m' & casts' & Hm & Hcasts & ->)%Forall2_cons_inv_l & ->).
        simpl in Hm. rewrite Et in Hm. injection Hm as <-.
        exists casts'. split; [done|]. rewrite <- !loop_flat_map. done.
    + split; [discriminate|].
      intros (casts & (m' & casts' & Hm & _)%Forall2_cons_inv_l & _).
      simpl in Hm. congruence.
Qed.
End projector_facts.

Section projector_returns.
Variable _fetch_mapping : date -> date -> result (list edge).

Lemma comprehension_is_Ok {A B} (f : A -> result B) (xs : list A) :
  (forall x, x ∈ xs -> is_Ok (f x)) -> is_Ok (comprehension f xs).
Proof.
  induction xs as [|x xs IH]; intros Hf; simpl; [by eexists|].
  destruct (Hf x) as [y ->]; [left|]. simpl.
  destruct IH as [ys ->]; [|by eexists]. intros x' Hx'. apply Hf. by right.
Qed.

Lemma for_each_project_is_Ok newest (oms : list (date * list edge)) df :
  (forall om, om ∈ oms -> is_Ok (int_columns om.2)) ->
  is_Ok (for_each (project_step newest) oms df).
Proof.
  revert df. induction oms as [|om oms IH]; intros df Hok; simpl; [by eexists|].
  unfold project_step at 1. destruct (Hok om) as [m ->]; [left|]. simpl.
  apply IH. intros om' Hom'. apply Hok. by right.
Qed.

Lemma lookup_zip_Some {A B} (l : list A) (k : list B) i a b :
  l !! i = Some a -> k !! i = Some b -> zip l k !! i = Some (a, b).
Proof. intros Ha Hb. by rewrite lookup_zip_with, Ha, Hb. Qed.

Lemma init_row_stand newest r : stand (init_row newest r) = stand r.
Proof. done. Qed.

Lemma omap_stand_init newest df : omap stand (map (init_row newest) df) = omap stand df.
Proof. induction df as [|r df IH]; [done|]. csimpl. by rewrite IH. Qed.

(** For one initialised row, the loop followed by the last assignment is
    [project_row]. *)
Lemma copy_newest_loop_row newest origins casts r :
  NoDup origins ->
  newest ∉ origins ->
  Forall2 (fun o cast => _fetch_mapping o newest ≫= int_columns = Ok cast) origins casts ->
  (forall o, stand r = Some o -> o <> newest -> o ∈ origins) ->
  copy_newest newest (loop_row newest (zip origins casts) r)
  = project_row _fetch_mapping newest r.
Proof.
  intros Hnd Hnew Hcasts Horigin.
  assert ((zip origins casts).*1 = origins) as Hfst.
  { apply fst_zip. apply Forall2_length in Hcasts. unfold date in *. lia. }
  unfold project_row. destruct (decide (stand r = Some newest)) as [Hs|Hs].
  - rewrite loop_row_other.
    + unfold copy_newest. simpl. by rewrite decide_True.
    + rewrite Hfst. intros o Ho. rewrite Hs. intros [= ->]. done.
  - destruct (stand r) as [o|] eqn:Hstand.
    + assert (o <> newest) as Hne by congruence.
      pose proof (Horigin o eq_refl Hne) as Ho.
      apply list_elem_of_lookup in Ho as [i Hi].
      destruct (Forall2_lookup_l _ _ _ _ _ Hcasts Hi) as (cast & Hcast & Hfetch).
      rewrite (loop_row_step newest _ o cast); [| by rewrite Hfst | | done].
      2:{ apply list_elem_of_lookup. exists i. by apply lookup_zip_Some. }
      unfold edges_of. rewrite Hstand, decide_False, Hfetch by done. unfold step_row.
      rewrite (list_filter_iff _ (fun m => code r = Some m.1)).
      2:{ intros m. rewrite Hstand. tauto. }
      unfold copy_newest. destruct (filter _ cast) as [|m ms].
      * simpl. by rewrite Hstand, decide_False.
      * rewrite map_map. apply map_ext. intros m'.
        rewrite set_extra_stand, Hstand. by rewrite decide_False.
    + rewrite loop_row_other by (intros o _; congruence).
      unfold copy_newest, edges_of. simpl. rewrite Hstand. by rewrite decide_False.
Qed.

(** What the projector returns: it succeeds when the data names a
    Gemeindestand and the table of every older Gemeindestand is fetched and
    can be cast, and it then returns the rows of [project_row] for the
    rows of the data, in their order. *)
Lemma projector_returns df out :
  (map_multiple_gemeindestaende_to_newest _fetch_mapping df).2 = Ok out <->
  exists newest,
    last (merge_sort Z.le (unique (omap stand df))) = Some newest /\
    (forall o, o ∈ omap stand df -> o <> newest ->
               is_Ok (_fetch_mapping o newest ≫= int_columns)) /\
    out = flat_map (project_row _fetch_mapping newest) (map (init_row newest) df).
Proof.
  unfold map_multiple_gemeindestaende_to_newest. cbv zeta.
  destruct (last (merge_sort Z.le (unique (omap stand df)))) as [newest|] eqn:Hlast.
  2:{ simpl. split; [discriminate | by intros (? & [=] & _)]. }
  destruct (origins_spec df newest Hlast) as (Hnd & Hnew & _ & Horigins).
  set (origins := removelast (merge_sort Z.le (unique (omap stand df)))) in *.
  clearbody origins. rewrite map_map. fold (init_row newest).
  change (map (fun x => fill_code (set_extra (BfsGmdeCode newest) (Int 0) x)) df)
    with (map (init_row newest) df).
  assert (forall mappings casts,
    Forall2 (fun o t => _fetch_mapping o newest = Ok t) origins mappings ->
    Forall2 (fun om cast => int_columns om.2 = Ok cast) (zip origins mappings) casts ->
    copy_newest newest
      (flat_map (loop_row newest (zip (zip origins mappings).*1 casts))
                (map (init_row newest) df))
    = flat_map (project_row _fetch_mapping newest) (map (init_row newest) df)) as Hout.
  { intros mappings casts Hfetch Hcast.
    assert ((zip origins mappings).*1 = origins) as ->.
    { apply fst_zip. apply Forall2_length in Hfetch. unfold date in *. lia. }
    assert (Forall2 (fun o cast => _fetch_mapping o newest ≫= int_columns = Ok cast)
                    origins casts) as Hboth.
    { apply Forall2_same_length_lookup. split.
      - apply Forall2_length in Hfetch, Hcast. rewrite length_zip_with in Hcast.
        unfold date in *. lia.
      - intros i o cast Ho Hc.
        destruct (Forall2_lookup_l _ _ _ _ _ Hfetch Ho) as (t & Ht & Hft).
        assert (zip origins mappings !! i = Some (o, t)) as Hz
          by (by apply lookup_zip_Some).
        destruct (Forall2_lookup_l _ _ _ _ _ Hcast Hz) as (cast' & Hc' & Hint).
        rewrite Hft. simpl in *. congruence. }
    unfold copy_newest at 1. rewrite map_flat_map.
    apply flat_map_ext_elem. intros r Hr.
    apply (copy_newest_loop_row newest origins casts r Hnd Hnew Hboth).
    intros o Ho Hne. apply Horigins. split; [|done].
    rewrite <- (omap_stand_init newest). apply list_elem_of_omap. by exists r. }
  split.
  - destruct (comprehension (fun origin => _fetch_mapping origin newest) origins)
      as [mappings|e] eqn:Hfetch; [|discriminate].
    destruct (for_each (project_step newest) (zip origins mappings)
                       (map (init_row newest) df)) as [merged|e] eqn:Hloop;
      [|discriminate].
    simpl. intros [= <-]. exists newest. split; [done|].
    apply comprehension_Forall2 in Hfetch.
    apply for_each_project_step in Hloop as (casts & Hcasts & ->).
    split; [|by apply Hout].
    intros o Ho Hne. assert (o ∈ origins) as Hin by (by apply Horigins).
    apply list_elem_of_lookup in Hin as [i Hi].
    destruct (Forall2_lookup_l _ _ _ _ _ Hfetch Hi) as (t & Ht & ->). simpl.
    assert (zip origins mappings !! i = Some (o, t)) as Hz
      by (by apply lookup_zip_Some).
    destruct (Forall2_lookup_l _ _ _ _ _ Hcasts Hz) as (cast & _ & Hint).
    by exists cast.
  - intros (newest' & [= <-] & Hok & ->).
    destruct (comprehension_is_Ok (fun origin => _fetch_mapping origin newest) origins)
      as [mappings Hfetch].
    { intros o [Ho Hne]%Horigins. destruct (Hok o Ho Hne) as [cast Hcast].
      destruct (_fetch_mapping o newest); [by eexists | discriminate]. }
    rewrite Hfetch. apply comprehension_Forall2 in Hfetch.
    destruct (for_each_project_is_Ok newest (zip origins mappings)
                (map (init_row newest) df)) as [merged Hloop].
    { intros [o t] Hom. apply list_elem_of_lookup in Hom as [i Hi].
      apply lookup_zip_with_Some in Hi as (o' & t' & [= <- <-] & Ho & Ht).
      destruct (Forall2_lookup_l _ _ _ _ _ Hfetch Ho) as (t'' & Ht'' & Hft).
      assert (t'' = t) as -> by congruence.
      assert (o ∈ origins) as Hin by (apply list_elem_of_lookup; by exists i).
      apply Horigins in Hin as [Hin Hne]. destruct (Hok o Hin Hne) as [cast Hcast].
      rewrite Hft in Hcast. by exists cast. }
    rewrite Hloop. simpl. f_equal.
    apply for_each_project_step in Hloop as (casts & Hcasts & ->).
    by apply Hout.
Qed.
End projector_returns.

Section projector_rows.
Variable _fetch_mapping : date -> date -> result (list edge).
Variable newest : date.

Lemma projected_init r : projected newest (init_row newest r) = Some (Int 0).
Proof. unfold projected, init_row. simpl. apply dict_get_set_eq. Qed.

Lemma init_row_code r : code (init_row newest r) = Some (default 0%Z (code r)).
Proof. done. Qed.

(** Every returned row holds a number in the projected column. *)
Lemma project_row_projected r r' :
  r' ∈ project_row _fetch_mapping newest (init_row newest r) ->
  exists z, projected newest r' = Some (Int z).
Proof.
  unfold project_row. case_decide as Hs.
  - intros ->%list_elem_of_singleton. exists (default 0%Z (code r)).
    unfold projected, code_cell. simpl. apply dict_get_set_eq.
  - destruct (edges_of _ _ _) as [|m ms].
    + intros ->%list_elem_of_singleton. exists 0%Z. apply projected_init.
    + intros (m' & -> & _)%elem_of_map. exists m'.2.
      unfold projected. simpl. apply dict_get_set_eq.
Qed.

(** Without a split, an initialised row gives one row, and initialising
    that row again gives the initialised row back. *)
Lemma project_row_single r :
  length (edges_of _fetch_mapping newest (init_row newest r)) <= 1 ->
  exists r', project_row _fetch_mapping newest (init_row newest r) = [r'] /\
             stand r' = stand r /\
             init_row newest r' = init_row newest r.
Proof.
  intros Hone. unfold project_row.
  assert (forall v, init_row newest (set_extra (BfsGmdeCode newest) v (init_row newest r))
                    = init_row newest r) as Hset.
  { intros v. unfold init_row, fill_code, set_extra. simpl. by rewrite !dict_set_set. }
  assert (init_row newest (init_row newest r) = init_row newest r) as Hinit.
  { unfold init_row, fill_code, set_extra. simpl. by rewrite !dict_set_set. }
  case_decide as Hs.
  - eexists. split; [done|]. split; [done | apply Hset].
  - destruct (edges_of _ _ _) as [|m [|m' ms]]; [| |simpl in Hone; lia].
    + eexists. split; [done|]. by split.
    + eexists. split; [done|]. split; [done | apply Hset].
Qed.
End projector_rows.

(** C6 (as stated) fails: code 1 of 01-01-2019 splits into 10 and 11, the
    first run returns two rows for it and the second run four. *)
Lemma projector_not_idempotent :
  let X := [mk_row (Some 1%Z) (Some d2019) "A"; mk_row (Some 4%Z) (Some d2021) "D"] in
  (map_multiple_gemeindestaende_to_newest fetch3 X).2
    ≫= (fun out => (map_multiple_gemeindestaende_to_newest fetch3 out).2)
  <> (map_multiple_gemeindestaende_to_newest fetch3 X).2.
Proof. vm_compute. discriminate. Qed.

(** C6 (amended).  When no row of the data matches more than one edge of the
    table fetched for its Gemeindestand, running the projector on what it
    returned returns the same table. *)
Theorem projector_idempotent_without_split
    (_fetch_mapping : date -> date -> result (list edge)) (X out : list row) :
  (map_multiple_gemeindestaende_to_newest _fetch_mapping X).2 = Ok out ->
  (forall newest r,
     last (merge_sort Z.le (unique (omap stand X))) = Some newest ->
     r ∈ X ->
     length (edges_of _fetch_mapping newest (init_row newest r)) <= 1) ->
  (map_multiple_gemeindestaende_to_newest _fetch_mapping out).2 = Ok out.
Proof.
  intros (newest & Hlast & Hok & ->)%projector_returns Hsingle.
  specialize (Hsingle newest).
  assert (omap stand (flat_map (project_row _fetch_mapping newest) (map (init_row newest) X))
          = omap stand X /\
          map (init_row newest)
              (flat_map (project_row _fetch_mapping newest) (map (init_row newest) X))
          = map (init_row newest) X) as [Hstands Hinit].
  { assert (forall r, r ∈ X ->
              length (edges_of _fetch_mapping newest (init_row newest r)) <= 1) as Hone
      by (intros r Hr; by apply Hsingle).
    clear Hlast Hok Hsingle. induction X as [|r X IH]; [done|].
    destruct (project_row_single _fetch_mapping newest r) as (r' & Hr' & Hst & Hin).
    { apply Hone. left. }
    destruct IH as [IH1 IH2]; [intros r0 Hr0; apply Hone; by right|].
    simpl. rewrite Hr'. simpl. split.
    - rewrite Hst. destruct (stand r); [f_equal|]; exact IH1.
    - by rewrite Hin, IH2. }
  apply projector_returns. exists newest. rewrite Hstands, Hinit. done.
Qed.

Lemma projector_idempotent_without_split_witness :
  let X := [mk_row (Some 2%Z) (Some d2018) "B"; mk_row None None "?";
            mk_row (Some 4%Z) (Some d2021) "D"] in
  let out :=
    [ {| code := Some 2%Z; stand := Some d2018;
         extra := [(Col "name", Str "B"); (BfsGmdeCode d2021, Int 4)] |};
      {| code := Some 0%Z; stand := None;
         extra := [(Col "name", Str "?"); (BfsGmdeCode d2021, Int 0)] |};
      {| code := Some 4%Z; stand := Some d2021;
         extra := [(Col "name", Str "D"); (BfsGmdeCode d2021, Int 4)] |} ] in
  (map_multiple_gemeindestaende_to_newest fetch3 out).2 = Ok out.
Proof.
  apply (projector_idempotent_without_split fetch3
           [mk_row (Some 2%Z) (Some d2018) "B"; mk_row None None "?";
            mk_row (Some 4%Z) (Some d2021) "D"]).
  - by vm_compute.
  - intros newest r Hnewest Hr.
    vm_compute in Hnewest. injection Hnewest as <-.
    apply elem_of_cons in Hr as [->|Hr]; [vm_compute; lia|].
    apply elem_of_cons in Hr as [->|Hr]; [vm_compute; lia|].
    apply list_elem_of_singleton in Hr as ->. vm_compute. lia.
Defined.

(** C8 (as stated) fails: the row (01-01-2018, 77) matches no edge of the
    only fetched table and the row (01-01-2021, 4) has no table at all; the
    call succeeds and neither row is left with a missing projected value, the
    first holds 0 and the second its own code. *)
Lemma projector_unmatched_not_missing :
  let X := [mk_row (Some 77%Z) (Some d2018) "zz"; mk_row (Some 4%Z) (Some d2021) "D"] in
  exists r1 r2,
    (map_multiple_gemeindestaende_to_newest fetch3 X).2 = Ok [r1; r2] /\
    edges_of fetch3 d2021 r1 = [] /\ edges_of fetch3 d2021 r2 = [] /\
    projected d2021 r1 = Some (Int 0) /\
    projected d2021 r2 = Some (Int 4) /\
    ¬ missing (projected d2021 r1) /\
    ¬ missing (projected d2021 r2).
Proof.
  do 2 eexists. split_and!; try by vm_compute.
  - vm_compute. intros [?|?]; discriminate.
  - vm_compute. intros [?|?]; discriminate.
Qed.

(** On the typed frame: the rows returned, and what an unmatched row holds. *)
Lemma typed_projector_unmatched_rows
    (_fetch_mapping : date -> date -> result (list edge)) (df : list row) (newest : date) :
  last (merge_sort Z.le (unique (omap stand df))) = Some newest ->
  (forall o, o ∈ omap stand df -> o <> newest ->
             is_Ok (_fetch_mapping o newest ≫= int_columns)) ->
  exists out,
    (map_multiple_gemeindestaende_to_newest _fetch_mapping df).2 = Ok out /\
    out = flat_map (project_row _fetch_mapping newest) (map (init_row newest) df) /\
    (forall r,
       r ∈ df -> stand r <> Some newest ->
       edges_of _fetch_mapping newest (init_row newest r) = [] ->
       init_row newest r ∈ out /\
       project_row _fetch_mapping newest (init_row newest r) = [init_row newest r] /\
       projected newest (init_row newest r) = Some (Int 0)) /\
    (forall r', r' ∈ out ->
       (exists z, projected newest r' = Some (Int z)) /\ ¬ missing (projected newest r')).
Proof.
  intros Hlast Hok.
  exists (flat_map (project_row _fetch_mapping newest) (map (init_row newest) df)).
  split_and!.
  - apply projector_returns. by exists newest.
  - done.
  - intros r Hr Hs Hedges.
    assert (project_row _fetch_mapping newest (init_row newest r) = [init_row newest r])
      as Hrow.
    { unfold project_row. rewrite decide_False by done. by rewrite Hedges. }
    split_and!; [|done | apply projected_init].
    apply elem_of_flat_map. exists (init_row newest r). split.
    + apply elem_of_map. by exists r.
    + rewrite Hrow. left.
  - intros r' (r0 & (r & -> & _)%elem_of_map & Hr')%elem_of_flat_map.
    destruct (project_row_projected _fetch_mapping newest r r' Hr') as [z Hz].
    split; [by exists z|]. rewrite Hz. intros [?|?]; discriminate.
Qed.

(** On the typed frame: the caller's frame after the call. *)
Lemma typed_projector_fills_caller_codes
    (_fetch_mapping : date -> date -> result (list edge)) (df : list row) (newest : date) :
  last (merge_sort Z.le (unique (omap stand df))) = Some newest ->
  let caller := (map_multiple_gemeindestaende_to_newest _fetch_mapping df).1 in
  code <$> caller = (fun r => Some (default 0%Z (code r))) <$> df /\
  (forall r, r ∈ caller -> is_Some (code r)) /\
  (forall r, r ∈ caller -> is_Some (projected newest r)) /\
  ((exists r, r ∈ df /\ code r = None) -> code <$> caller <> code <$> df).
Proof.
  intros Hlast caller.
  set (df0 := map fill_code (map (set_extra (BfsGmdeCode newest) (Int 0)) df)).
  assert (code <$> df0 = (fun r => Some (default 0%Z (code r))) <$> df) as Hcodes0.
  { subst df0. clear. induction df as [|r df IH]; [done|]. csimpl. by rewrite IH. }
  assert (forall r, r ∈ df0 -> is_Some (projected newest r)) as Hproj0.
  { subst df0. intros r (r1 & -> & (r0 & -> & _)%elem_of_map)%elem_of_map.
    unfold projected. simpl. rewrite dict_get_set_eq. by eexists. }
  assert (code <$> copy_newest newest df0 = code <$> df0) as Hcopy_codes.
  { unfold copy_newest. clear. induction df0 as [|r l IH]; [done|]. csimpl.
    rewrite IH. by case_decide. }
  assert (forall r, r ∈ copy_newest newest df0 -> is_Some (projected newest r)) as Hcopy_proj.
  { intros r (r0 & -> & Hr0)%elem_of_map. case_decide; [|by apply Hproj0].
    unfold projected. simpl. rewrite dict_get_set_eq. by eexists. }
  assert (caller = df0 \/ caller = copy_newest newest df0) as Hcaller.
  { subst caller. unfold map_multiple_gemeindestaende_to_newest. cbv zeta.
    rewrite Hlast. fold df0.
    generalize (removelast (merge_sort Z.le (unique (omap stand df)))). intros origins.
    destruct (comprehension (fun origin => _fetch_mapping origin newest) origins)
      as [mappings|e]; [|by left].
    destruct origins as [|o origins]; [by right|].
    destruct (for_each (project_step newest) (zip (o :: origins) mappings) df0); by left. }
  assert (code <$> caller = (fun r => Some (default 0%Z (code r))) <$> df) as Hcodes.
  { destruct Hcaller as [->| ->]; [done | by rewrite Hcopy_codes]. }
  split_and!; [done| | |].
  - intros r Hr. assert (code r ∈ code <$> caller) as Hc.
    { apply list_elem_of_fmap. by exists r. }
    rewrite Hcodes in Hc. apply list_elem_of_fmap in Hc as (r0 & -> & _). by eexists.
  - destruct Hcaller as [->| ->]; done.
  - intros (r & Hr & Hnone) Heq. rewrite Hcodes in Heq.
    apply list_elem_of_lookup in Hr as [i Hi].
    apply (f_equal (fun l => l !! i)) in Heq.
    rewrite !list_lookup_fmap, Hi in Heq. simpl in Heq. congruence.
Qed.

(** The caller's DataFrame of that call, next to what the call returns. *)
Example projector_caller_example :
  map_multiple_gemeindestaende_to_newest fetch3
    [mk_row None (Some d2019) "A"; mk_row (Some 4%Z) (Some d2021) "D"]
  = ( [ {| code := Some 0%Z; stand := Some d2019;
           extra := [(Col "name", Str "A"); (BfsGmdeCode d2021, Int 0)] |};
        {| code := Some 4%Z; stand := Some d2021;
           extra := [(Col "name", Str "D"); (BfsGmdeCode d2021, Int 0)] |} ],
      Ok [ {| code := Some 0%Z; stand := Some d2019;
              extra := [(Col "name", Str "A"); (BfsGmdeCode d2021, Int 0)] |};
           {| code := Some 4%Z; stand := Some d2021;
              extra := [(Col "name", Str "D"); (BfsGmdeCode d2021, Int 4)] |} ] ).
Proof. by vm_compute. Qed.

(** *** A split always breaks idempotence *)

Lemma unique_cons (x : Z) (l l' : list Z) :
  unique l = unique l' -> unique (x :: l) = unique (x :: l').
Proof. intros Heq. simpl. by rewrite Heq. Qed.

Lemma unique_replicate (x : Z) (k : nat) (l : list Z) :
  unique (replicate (S k) x ++ l) = unique (x :: l).
Proof.
  induction k as [|k IH]; [done|].
  change (replicate (S (S k)) x ++ l) with (x :: (replicate (S k) x ++ l)).
  rewrite (unique_cons x _ (x :: l) IH). simpl. f_equal.
  rewrite filter_cons, decide_False by (intros Hne; by apply Hne).
  rewrite list_filter_filter. apply list_filter_iff. intros y. tauto.
Qed.

Lemma omap_stand_const (l : list row) (s : option date) :
  (forall r, r ∈ l -> stand r = s) ->
  omap stand l = match s with
                 | Some d => replicate (length l) d
                 | None => []
                 end.
Proof.
  induction l as [|r l IH]; intros Hs; [by destruct s|].
  csimpl. rewrite (Hs r) by left. rewrite IH by (intros r' Hr'; apply Hs; by right).
  by destruct s.
Qed.

Lemma length_flat_map_const {A B} (l : list B) (l' : list A) :
  length (flat_map (fun _ => l) l') = length l' * length l.
Proof. induction l' as [|a l' IH]; simpl; [done|]. rewrite length_app, IH. lia. Qed.

Section projector_split.
Variable _fetch_mapping : date -> date -> result (list edge).
Variable newest : date.

Lemma project_row_length r :
  length (project_row _fetch_mapping newest r)
  = 1 `max` length (edges_of _fetch_mapping newest r).
Proof.
  unfold project_row, edges_of. case_decide as Hs.
  - rewrite Hs. by rewrite decide_True.
  - destruct (stand r) as [o|]; [|done].
    rewrite decide_False by congruence.
    destruct (_ ≫= int_columns) as [m|]; [|done].
    destruct (filter _ m) as [|e es]; [done|]. rewrite length_map. simpl. lia.
Qed.

(** The rows returned for a row are, once initialised again, that row. *)
Lemma project_row_init_again r r' :
  r' ∈ project_row _fetch_mapping newest (init_row newest r) ->
  stand r' = stand r /\ init_row newest r' = init_row newest r.
Proof.
  assert (forall v, init_row newest (set_extra (BfsGmdeCode newest) v (init_row newest r))
                    = init_row newest r) as Hset.
  { intros v. unfold init_row, fill_code, set_extra. simpl. by rewrite !dict_set_set. }
  assert (init_row newest (init_row newest r) = init_row newest r) as Hinit.
  { unfold init_row, fill_code, set_extra. simpl. by rewrite !dict_set_set. }
  unfold project_row. case_decide as Hs.
  - intros ->%list_elem_of_singleton. split; [done | apply Hset].
  - destruct (edges_of _ _ _) as [|m ms].
    + intros ->%list_elem_of_singleton. by split.
    + intros (m' & -> & _)%elem_of_map. split; [done | apply Hset].
Qed.

Lemma flat_map_map {A B C} (f : B -> list C) (g : A -> B) (l : list A) :
  flat_map f (map g l) = flat_map (fun x => f (g x)) l.
Proof. induction l as [|a l IH]; simpl; [done | by rewrite IH]. Qed.

(** The Gemeindestaende of the returned table are those of the data. *)
Lemma unique_stands_returned (X : list row) :
  unique (omap stand (flat_map (project_row _fetch_mapping newest)
                               (map (init_row newest) X)))
  = unique (omap stand X).
Proof.
  induction X as [|r X IH]; [done|].
  change (map (init_row newest) (r :: X))
    with (init_row newest r :: map (init_row newest) X).
  change (flat_map (project_row _fetch_mapping newest)
                   (init_row newest r :: map (init_row newest) X))
    with (project_row _fetch_mapping newest (init_row newest r)
          ++ flat_map (project_row _fetch_mapping newest) (map (init_row newest) X)).
  rewrite omap_app.
  pose proof (project_row_length (init_row newest r)) as Hlen.
  rewrite (omap_stand_const _ (stand r))
    by (intros r' Hr'; by destruct (project_row_init_again r r' Hr')).
  destruct (length (project_row _fetch_mapping newest (init_row newest r))) as [|k];
    [lia|].
  csimpl. destruct (stand r) as [s|].
  - change (s :: replicate k s) with (replicate (S k) s).
    rewrite unique_replicate. simpl. by rewrite IH.
  - done.
Qed.

Lemma returned_twice_length (X : list row) :
  let G := fun r => project_row _fetch_mapping newest (init_row newest r) in
  length (flat_map G X) <= length (flat_map G (flat_map G X)) /\
  (length (flat_map G (flat_map G X)) = length (flat_map G X) ->
   forall r, r ∈ X -> length (G r) = 1).
Proof.
  intros G.
  assert (forall r, length (flat_map G (G r)) = length (G r) * length (G r)) as Hsq.
  { intros r. rewrite <- length_flat_map_const. f_equal.
    apply flat_map_ext_elem. intros r' Hr'. unfold G.
    by destruct (project_row_init_again r r' Hr') as [_ ->]. }
  assert (forall r, 1 <= length (G r)) as Hpos.
  { intros r. unfold G. rewrite project_row_length. lia. }
  induction X as [|r X [IH1 IH2]]; simpl.
  - split; [done|]. by intros _ r ?%elem_of_nil.
  - rewrite flat_map_app, !length_app, Hsq. specialize (Hpos r). split; [nia|].
    intros Heq r0 [->|Hr0]%elem_of_cons.
    + nia.
    + apply IH2; [nia | done].
Qed.
End projector_split.

(** When some row splits, the second run returns more rows than the first:
    the condition of the amended C6 cannot be weakened. *)
Lemma projector_idempotent_only_without_split
    (_fetch_mapping : date -> date -> result (list edge)) (X out : list row) :
  (map_multiple_gemeindestaende_to_newest _fetch_mapping X).2 = Ok out ->
  (map_multiple_gemeindestaende_to_newest _fetch_mapping out).2 = Ok out ->
  forall newest r,
    last (merge_sort Z.le (unique (omap stand X))) = Some newest ->
    r ∈ X ->
    length (edges_of _fetch_mapping newest (init_row newest r)) <= 1.
Proof.
  intros (newest & Hlast & _ & Hout)%projector_returns
         (newest' & Hlast' & _ & Hout')%projector_returns newest0 r Hlast0 Hr.
  assert (newest0 = newest) as -> by congruence.
  rewrite Hout, unique_stands_returned, Hlast in Hlast'. injection Hlast' as <-.
  rewrite !flat_map_map in Hout, Hout'.
  destruct (returned_twice_length _fetch_mapping newest X) as [_ Hone].
  cbv zeta in Hone. rewrite <- Hout in Hone.
  specialize (Hone (f_equal length (eq_sym Hout')) r Hr).
  rewrite project_row_length in Hone. lia.
Qed.

(** * Further properties of the code *)

(** ** Date snapping *)

Lemma min_by_spec (key : Z -> Z) (best : Z) (xs : list Z) :
  min_by key best xs ∈ best :: xs /\
  forall x, x ∈ best :: xs -> (key (min_by key best xs) <= key x)%Z.
Proof.
  revert best. induction xs as [|x xs IH]; intros best; simpl.
  - split; [left|]. intros x ->%list_elem_of_singleton. lia.
  - case_decide as Hlt.
    + destruct (IH x) as [Hin Hmin]. split.
      * right. done.
      * intros y [->|Hy]%elem_of_cons; [|by apply Hmin].
        specialize (Hmin x ltac:(left)). lia.
    + destruct (IH best) as [Hin Hmin]. split.
      * apply elem_of_cons in Hin as [->|Hin]; [left | right; by right].
      * intros y [->|[->|Hy]%elem_of_cons]%elem_of_cons.
        -- apply Hmin. left.
        -- specialize (Hmin best ltac:(left)). lia.
        -- apply Hmin. by right.
Qed.

Lemma max_of_spec (best : Z) (xs : list Z) :
  max_of best xs ∈ best :: xs /\
  forall x, x ∈ best :: xs -> (x <= max_of best xs)%Z.
Proof.
  revert best. induction xs as [|x xs IH]; intros best; simpl.
  - split; [left|]. intros x ->%list_elem_of_singleton. lia.
  - case_decide as Hlt.
    + destruct (IH x) as [Hin Hmax]. split.
      * right. done.
      * intros y [->|Hy]%elem_of_cons; [|by apply Hmax].
        specialize (Hmax x ltac:(left)). lia.
    + destruct (IH best) as [Hin Hmax]. split.
      * apply elem_of_cons in Hin as [->|Hin]; [left | right; by right].
      * intros y [->|[->|Hy]%elem_of_cons]%elem_of_cons.
        -- apply Hmax. left.
        -- specialize (Hmax best ltac:(left)). lia.
        -- apply Hmax. by right.
Qed.

Lemma nearest_any_spec (official : list date) (target : date) :
  official <> [] ->
  exists r, nearest_any official target = Ok r /\ r ∈ official /\
            forall c, c ∈ official -> (Z.abs (r - target) <= Z.abs (c - target))%Z.
Proof.
  intros Hne. destruct official as [|d ds]; [done|]. simpl.
  destruct (min_by_spec (fun date => Z.abs (date - target)) d ds) as [Hin Hmin].
  eexists. split; [done|]. split; [done | apply Hmin].
Qed.

Lemma filter_cons_elem {A} (P : A -> Prop) `{forall x, Decision (P x)} (l : list A) x xs :
  filter P l = x :: xs -> forall y, y ∈ x :: xs <-> P y /\ y ∈ l.
Proof. intros Heq y. rewrite <- Heq. apply list_elem_of_filter. Qed.

Lemma last_elem {A} (l : list A) (x : A) : last l = Some x -> x ∈ l.
Proof.
  intros [l' E]%last_Some. rewrite E. apply elem_of_app. right. left.
Qed.

Lemma list_index_Ok (x : Z) (xs : list Z) :
  x ∈ xs -> exists i, list_index x xs = Ok i /\ xs !! i = Some x /\
                      forall j, (j < i)%nat -> xs !! j <> Some x.
Proof.
  induction xs as [|y ys IH]; [by intros ?%elem_of_nil|]. intros Hin. simpl.
  destruct (decide (x = y)) as [->|Hne].
  - exists 0%nat. split; [done|]. split; [done|]. intros j ?. lia.
  - apply elem_of_cons in Hin as [?|Hin]; [done|].
    destruct (IH Hin) as (i & -> & Hi & Hfirst). exists (S i). simpl.
    split; [done|]. split; [done|].
    intros [|j] Hj; simpl; [congruence|]. apply Hfirst. lia.
Qed.

Lemma sorted_take_index (l : list Z) (b : Z) (j : nat) :
  StronglySorted Z.lt l -> list_index b l = Ok j ->
  take (S j) l = filter (fun d => (d <= b)%Z) l.
Proof.
  intros Hs. revert j. induction Hs as [|x l Hs IH Hall]; intros j Hj; [done|].
  simpl in Hj. destruct (decide (b = x)) as [->|Hne].
  - injection Hj as <-. simpl. rewrite filter_cons_True by lia. f_equal.
    rewrite take_0. symmetry. apply filter_none.
    intros y Hy. rewrite Forall_forall in Hall. specialize (Hall y Hy). lia.
  - destruct (list_index b l) as [j'|] eqn:E; [|done]. injection Hj as <-.
    assert (b ∈ l) as Hb.
    { clear -E. revert j' E. induction l as [|y l IH]; intros j' E; [done|].
      simpl in E. destruct (decide (b = y)) as [->|?]; [left|].
      destruct (list_index b l) eqn:E'; [|done]. right. by eapply IH. }
    rewrite Forall_forall in Hall. specialize (Hall b Hb).
    change (take (S (S j')) (x :: l)) with (x :: take (S j') l).
    rewrite filter_cons_True by lia. f_equal. by apply IH.
Qed.

Lemma filter_ext_elem {A} (P Q : A -> Prop) `{forall x, Decision (P x)}
    `{forall x, Decision (Q x)} (l : list A) :
  (forall x, x ∈ l -> P x <-> Q x) -> filter P l = filter Q l.
Proof.
  induction l as [|a l IH]; intros Hext; [done|].
  rewrite !filter_cons. rewrite IH by (intros x Hx; apply Hext; by right).
  destruct (decide (P a)) as [HP|HP], (decide (Q a)) as [HQ|HQ]; try done.
  - apply (Hext a) in HP; [done | left].
  - apply (Hext a) in HQ; [done | left].
Qed.

Lemma sorted_range_slice (l : list Z) (a b : Z) (i j : nat) :
  StronglySorted Z.lt l -> list_index a l = Ok i -> list_index b l = Ok j ->
  drop i (take (S j) l) = filter (fun d => (a <= d)%Z /\ (d <= b)%Z) l.
Proof.
  intros Hs. revert i j. induction Hs as [|x l Hs IH Hall]; intros i j Hi Hj; [done|].
  assert (forall c k, list_index c l = Ok k -> c ∈ l) as Hmem.
  { clear. intros c. induction l as [|y l IH]; intros k E; [done|].
    simpl in E. destruct (decide (c = y)) as [->|?]; [left|].
    destruct (list_index c l) eqn:E'; [|done]. right. by eapply IH. }
  rewrite Forall_forall in Hall.
  simpl in Hi. destruct (decide (a = x)) as [->|Hax].
  - injection Hi as <-. rewrite drop_0.
    rewrite (sorted_take_index (x :: l) b j); [|by constructor; [|apply Forall_forall]|done].
    apply filter_ext_elem. intros y Hy.
    apply elem_of_cons in Hy as [->|Hy]; [lia|]. specialize (Hall y Hy). lia.
  - destruct (list_index a l) as [i'|] eqn:Ea; [|done]. injection Hi as <-.
    pose proof (Hall a (Hmem _ _ Ea)) as Hxa.
    rewrite filter_cons_False by lia.
    simpl in Hj. destruct (decide (b = x)) as [->|Hbx].
    + injection Hj as <-. simpl. rewrite take_0, drop_nil. symmetry.
      apply filter_none. intros y Hy. specialize (Hall y Hy). lia.
    + destruct (list_index b l) as [j'|] eqn:Eb; [|done]. injection Hj as <-.
      change (take (S (S j')) (x :: l)) with (x :: take (S j') l). simpl.
      by apply IH.
Qed.

Lemma nearest_Ok official target prefer :
  official <> [] -> known_prefer prefer ->
  exists r, _nearest official target prefer = Ok r.
Proof.
  intros Hne Hp. destruct (nearest_any_spec official target Hne) as (r & Hr & Hin & _).
  unfold _nearest.
  destruct (decide (prefer = "nearest")) as [->|Hn]; [by exists r|].
  destruct (decide (prefer = "smaller")) as [->|Hs].
  { destruct (filter _ official) as [|d ds] eqn:E; [by exists r|]. by eexists. }
  destruct (decide (prefer = "larger")) as [->|Hl].
  { destruct (filter _ official) as [|d ds] eqn:E; [by exists r|]. by eexists. }
  destruct Hp as [?|[?|?]]; done.
Qed.

Lemma nearest_any_elem official target r :
  nearest_any official target = Ok r -> r ∈ official.
Proof.
  destruct official as [|d ds]; [done|]. intros Hr.
  destruct (nearest_any_spec (d :: ds) target) as (r' & Hr' & Hin & _); [done|].
  congruence.
Qed.

Lemma nearest_elem official target prefer r :
  _nearest official target prefer = Ok r -> r ∈ official.
Proof.
  unfold _nearest.
  destruct (decide (prefer = "nearest")); [apply nearest_any_elem|].
  destruct (decide (prefer = "smaller")).
  { destruct (filter _ official) as [|d ds] eqn:E; [apply nearest_any_elem|].
    intros [= <-]. destruct (max_of_spec d ds) as [Hmax _].
    by apply (filter_cons_elem _ _ _ _ E) in Hmax as [_ ?]. }
  destruct (decide (prefer = "larger")); [|done].
  destruct (filter _ official) as [|d ds] eqn:E; [apply nearest_any_elem|].
  intros [= <-]. destruct (min_by_spec (fun date => date) d ds) as [Hmin _].
  by apply (filter_cons_elem _ _ _ _ E) in Hmin as [_ ?].
Qed.

Lemma find_closest_elem (self : BaseMunicipalityData) given_date prefer r :
  _find_closest_official_gemeindestand self given_date prefer = Ok r ->
  r ∈ gemeindestaende self.
Proof.
  unfold _find_closest_official_gemeindestand. case_decide as Hin.
  - by intros [= <-].
  - apply nearest_elem.
Qed.

Lemma validate_catalog_dates (self : BaseMunicipalityData) targets l :
  _validate_and_transform_targets self targets = Ok l ->
  Forall (fun d => d ∈ gemeindestaende self) l.
Proof.
  destruct targets as [ts|ts|]; simpl; [| |done].
  - destruct ts as [|t0 [|t1 [|? ?]]]; try done.
    intros H. apply bind_Ok_inv in H as (start & _ & H).
    apply bind_Ok_inv in H as (end_ & _ & H).
    apply bind_Ok_inv in H as (i & _ & H).
    apply bind_Ok_inv in H as (j & _ & H). injection H as <-.
    apply Forall_forall. intros d Hd.
    apply list_elem_of_lookup in Hd as [k Hk].
    rewrite lookup_drop in Hk. apply lookup_take_Some in Hk as [Hk _].
    by eapply list_elem_of_lookup_2.
  - intros H. apply comprehension_Forall2 in H.
    induction H as [|t r ts rs Hr _ IH]; constructor; [|done].
    by eapply find_closest_elem.
Qed.

(** X1. Whatever [_find_closest_official_gemeindestand] returns is a
    Gemeindestand of the catalog; a catalog date is returned as it is; and
    the result is a fixed point of the snapping, for every [prefer], known
    or not. *)
Theorem find_closest_returns_catalog_date (self : BaseMunicipalityData)
    (given_date : date) (prefer : string) (r : date) :
  _find_closest_official_gemeindestand self given_date prefer = Ok r ->
  r ∈ gemeindestaende self /\
  (given_date ∈ gemeindestaende self -> r = given_date) /\
  forall prefer', _find_closest_official_gemeindestand self r prefer' = Ok r.
Proof.
  intros Hr. pose proof (find_closest_elem _ _ _ _ Hr) as Hin.
  split; [done|]. split.
  - intros Hg. unfold _find_closest_official_gemeindestand in Hr.
    rewrite decide_True in Hr by done. congruence.
  - intros prefer'. unfold _find_closest_official_gemeindestand. by rewrite decide_True.
Qed.

Lemma find_closest_returns_catalog_date_witness :
  d2020 ∈ gemeindestaende cat3 /\
  ((d2019 + 40)%Z ∈ gemeindestaende cat3 -> d2020 = (d2019 + 40)%Z) /\
  forall prefer', _find_closest_official_gemeindestand cat3 d2020 prefer' = Ok d2020.
Proof.
  apply (find_closest_returns_catalog_date cat3 (d2019 + 40)%Z "larger" d2020).
  reflexivity.
Defined.

(** X2. Direction of the snap.  When "smaller" returns [lo] and "larger"
    returns [hi] for the same date, every catalog date not after the given
    date lies between: it is at most [lo], and [lo] is not after the given
    date; every catalog date not before it is at least [hi], and [hi] is not
    before the given date.  So "smaller" gives the latest catalog date up to
    the given one and "larger" the earliest from it on, whenever there is
    one. *)
Theorem find_closest_direction (self : BaseMunicipalityData) (given_date lo hi c : date) :
  _find_closest_official_gemeindestand self given_date "smaller" = Ok lo ->
  _find_closest_official_gemeindestand self given_date "larger" = Ok hi ->
  c ∈ gemeindestaende self ->
  ((c <= given_date)%Z -> (c <= lo)%Z /\ (lo <= given_date)%Z) /\
  ((given_date <= c)%Z -> (hi <= c)%Z /\ (given_date <= hi)%Z).
Proof.
  unfold _find_closest_official_gemeindestand. case_decide as Hin.
  - intros [= <-] [= <-] _. lia.
  - unfold _nearest. simpl. intros Hlo Hhi Hc. split; intros Hle.
    + destruct (filter _ (gemeindestaende self)) as [|d ds] eqn:E in Hlo.
      { assert (c ∈ filter (fun date : Z => (date <= given_date)%Z) (gemeindestaende self))
          as Hf by by apply list_elem_of_filter.
        rewrite E in Hf. by apply elem_of_nil in Hf. }
      injection Hlo as <-. destruct (max_of_spec d ds) as [Hm Hmax]. split.
      * apply Hmax. apply (filter_cons_elem _ _ _ _ E). done.
      * by apply (filter_cons_elem _ _ _ _ E) in Hm as [? _].
    + destruct (filter _ (gemeindestaende self)) as [|d ds] eqn:E in Hhi.
      { assert (c ∈ filter (fun date : Z => (given_date <= date)%Z) (gemeindestaende self))
          as Hf by by apply list_elem_of_filter.
        rewrite E in Hf. by apply elem_of_nil in Hf. }
      injection Hhi as <-. destruct (min_by_spec (fun date => date) d ds) as [Hm Hmin]. split.
      * apply Hmin. apply (filter_cons_elem _ _ _ _ E). done.
      * by apply (filter_cons_elem _ _ _ _ E) in Hm as [? _].
Qed.

Lemma find_closest_direction_witness :
  ((d2019 <= d2019 + 40)%Z -> (d2019 <= d2019)%Z /\ (d2019 <= d2019 + 40)%Z) /\
  ((d2019 + 40 <= d2019)%Z -> (d2020 <= d2019)%Z /\ (d2019 + 40 <= d2020)%Z).
Proof.
  apply (find_closest_direction cat3 (d2019 + 40)%Z d2019 d2020 d2019).
  - reflexivity.
  - reflexivity.
  - by_compute.
Defined.

(** X3. "nearest" minimises the distance in days: no catalog date is closer
    to the given date than the one returned. *)
Theorem find_closest_nearest_minimal (self : BaseMunicipalityData) (given_date r c : date) :
  _find_closest_official_gemeindestand self given_date "nearest" = Ok r ->
  c ∈ gemeindestaende self ->
  (Z.abs (r - given_date) <= Z.abs (c - given_date))%Z.
Proof.
  unfold _find_closest_official_gemeindestand. case_decide as Hin.
  - intros [= <-] _. lia.
  - unfold _nearest. simpl. intros Hr Hc.
    destruct (nearest_any_spec (gemeindestaende self) given_date) as (r' & Hr' & _ & Hmin).
    { intros E. rewrite E in Hc. by apply elem_of_nil in Hc. }
    assert (r' = r) as -> by congruence. by apply Hmin.
Qed.

Lemma find_closest_nearest_minimal_witness :
  (Z.abs (d2020 - (d2020 - 100)) <= Z.abs (d2019 - (d2020 - 100)))%Z.
Proof.
  apply (find_closest_nearest_minimal cat3 (d2020 - 100)%Z d2020 d2019).
  - reflexivity.
  - by_compute.
Defined.

(** X4. The fallback of "smaller" and "larger".  In a chronological catalog
    a date before the first state has no smaller state, and asking for a
    smaller one returns the first state, which is later than the date asked
    for; a date after the last state, asked for a larger one, gets the last
    state. *)
Theorem find_closest_outside_catalog (self : BaseMunicipalityData)
    (first last_ given_date : date) :
  StronglySorted Z.lt (gemeindestaende self) ->
  head (gemeindestaende self) = Some first ->
  last (gemeindestaende self) = Some last_ ->
  ((given_date < first)%Z ->
     _find_closest_official_gemeindestand self given_date "smaller" = Ok first) /\
  ((last_ < given_date)%Z ->
     _find_closest_official_gemeindestand self given_date "larger" = Ok last_).
Proof.
  intros Hs Hfirst Hlast.
  assert (forall c, c ∈ gemeindestaende self -> (first <= c <= last_)%Z) as Hbounds.
  { intros c Hc. split.
    - destruct (gemeindestaende self) as [|x l]; [done|]. injection Hfirst as ->.
      apply StronglySorted_inv in Hs as [_ Hall]. rewrite Forall_forall in Hall.
      apply elem_of_cons in Hc as [->|Hc]; [lia|]. specialize (Hall c Hc). lia.
    - clear Hfirst. induction Hs as [|x l Hs IH Hall]; [done|].
      rewrite Forall_forall in Hall.
      destruct l as [|y l'].
      + injection Hlast as <-. apply list_elem_of_singleton in Hc as ->. lia.
      + rewrite last_cons_cons in Hlast.
        apply elem_of_cons in Hc as [->|Hc]; [|by apply IH].
        assert (last_ ∈ y :: l') as Hl by by apply last_elem.
        specialize (Hall last_ Hl). lia. }
  assert (first ∈ gemeindestaende self) as Hfin.
  { destruct (gemeindestaende self); [done|]. injection Hfirst as ->. left. }
  assert (last_ ∈ gemeindestaende self) as Hlin by by apply last_elem.
  assert (gemeindestaende self <> []) as Hne.
  { intros E. rewrite E in Hfin. by apply elem_of_nil in Hfin. }
  destruct (nearest_any_spec (gemeindestaende self) given_date Hne) as (r & Hr & Hrin & Hmin).
  split; intros Hout.
  - unfold _find_closest_official_gemeindestand.
    rewrite decide_False by (intros Hin; specialize (Hbounds _ Hin); lia).
    unfold _nearest. simpl.
    rewrite filter_none by (intros c Hc; specialize (Hbounds _ Hc); lia).
    rewrite Hr. f_equal.
    specialize (Hmin first Hfin). specialize (Hbounds r Hrin). lia.
  - unfold _find_closest_official_gemeindestand.
    rewrite decide_False by (intros Hin; specialize (Hbounds _ Hin); lia).
    unfold _nearest. simpl.
    rewrite filter_none by (intros c Hc; specialize (Hbounds _ Hc); lia).
    rewrite Hr. f_equal.
    specialize (Hmin last_ Hlin). specialize (Hbounds r Hrin). lia.
Qed.

Lemma find_closest_outside_catalog_witness :
  ((d2018 - 400 < d2018)%Z ->
     _find_closest_official_gemeindestand cat3 (d2018 - 400)%Z "smaller" = Ok d2018) /\
  ((d2021 < d2018 - 400)%Z ->
     _find_closest_official_gemeindestand cat3 (d2018 - 400)%Z "larger" = Ok d2021).
Proof.
  apply (find_closest_outside_catalog cat3 d2018 d2021 (d2018 - 400)%Z).
  - by_compute.
  - reflexivity.
  - reflexivity.
Defined.

(** X5. When [_find_closest_official_gemeindestand] is bound to raise.
    For a date that is no Gemeindestand of the catalog it raises
    [ValueError] when the catalog is empty and when [prefer] is none of
    "nearest", "smaller", "larger". *)
Theorem find_closest_raises (self : BaseMunicipalityData) (given_date : date)
    (prefer : string) :
  given_date ∉ gemeindestaende self ->
  gemeindestaende self = [] \/ ~ known_prefer prefer ->
  _find_closest_official_gemeindestand self given_date prefer = Raise ValueError.
Proof.
  intros Hin Hcase. unfold _find_closest_official_gemeindestand.
  rewrite decide_False by done. unfold _nearest, known_prefer in *.
  destruct Hcase as [->|Hk].
  - repeat case_decide; done.
  - repeat case_decide; tauto.
Qed.

Lemma find_closest_raises_witness :
  _find_closest_official_gemeindestand cat3 (d2019 + 40)%Z "closest" = Raise ValueError.
Proof.
  apply (find_closest_raises cat3 (d2019 + 40)%Z "closest").
  - by_compute.
  - right. intros [H|[H|H]]; discriminate H.
Defined.

(** ** Targets and requests of [create_multi_mapping] *)

(** X6. A date range.  With a chronological catalog, a tuple [(t0, t1)] is
    turned into every catalog date from [start] to [end_], in catalog order,
    where [start] is [t0] snapped to a smaller and [end_] is [t1] snapped to a
    larger state; a range whose end snaps before its start gives the empty
    list and no error. *)
Theorem validate_range_between (self : BaseMunicipalityData) (t0 t1 start end_ : date) :
  StronglySorted Z.lt (gemeindestaende self) ->
  _find_closest_official_gemeindestand self t0 "smaller" = Ok start ->
  _find_closest_official_gemeindestand self t1 "larger" = Ok end_ ->
  _validate_and_transform_targets self (TargetTuple [t0; t1])
  = Ok (filter (fun d => (start <= d)%Z /\ (d <= end_)%Z) (gemeindestaende self)) /\
  ((end_ < start)%Z -> _validate_and_transform_targets self (TargetTuple [t0; t1]) = Ok []).
Proof.
  intros Hs Hstart Hend.
  assert (_validate_and_transform_targets self (TargetTuple [t0; t1])
          = Ok (filter (fun d => (start <= d)%Z /\ (d <= end_)%Z) (gemeindestaende self)))
    as Heq.
  { simpl. rewrite Hstart, Hend. simpl.
    destruct (list_index_Ok start (gemeindestaende self)) as (i & Hi & _);
      [by eapply find_closest_elem|].
    destruct (list_index_Ok end_ (gemeindestaende self)) as (j & Hj & _);
      [by eapply find_closest_elem|].
    rewrite Hi, Hj. simpl. rewrite Nat.add_1_r. f_equal.
    by apply sorted_range_slice. }
  split; [done|]. intros Hlt. rewrite Heq. f_equal.
  apply filter_none. intros d _. lia.
Qed.

Lemma validate_range_between_witness :
  _validate_and_transform_targets cat3 (TargetTuple [(d2019 + 10)%Z; (d2020 + 10)%Z])
  = Ok (filter (fun d => (d2019 <= d)%Z /\ (d <= d2021)%Z) (gemeindestaende cat3)) /\
  ((d2021 < d2019)%Z ->
   _validate_and_transform_targets cat3 (TargetTuple [(d2019 + 10)%Z; (d2020 + 10)%Z]) = Ok []).
Proof.
  apply (validate_range_between cat3 (d2019 + 10)%Z (d2020 + 10)%Z d2019 d2021).
  - by_compute.
  - reflexivity.
  - reflexivity.
Defined.

Lemma hop_dates_catalog self origin targets hops :
  hop_dates self origin targets = Ok hops ->
  forall d, d ∈ hops -> d ∈ gemeindestaende self.
Proof.
  unfold hop_dates. intros H d Hd.
  apply bind_Ok_inv in H as (o & Ho & H).
  apply bind_Ok_inv in H as (ts & Hts & H). injection H as <-.
  destruct (sorted_set_spec (ts ++ [o])) as [_ Hel].
  apply Hel, elem_of_app in Hd as [Hd|Hd].
  - apply validate_catalog_dates in Hts. rewrite Forall_forall in Hts. by apply Hts.
  - apply list_elem_of_singleton in Hd as ->. by eapply find_closest_elem.
Qed.

Lemma sorted_lt_lookup (l : list Z) (i j : nat) (a b : Z) :
  StronglySorted Z.lt l -> l !! i = Some a -> l !! j = Some b -> (i < j)%nat -> (a < b)%Z.
Proof.
  intros Hs. revert i j. induction Hs as [|x l Hs IH Hall]; intros i j Hi Hj Hlt; [done|].
  destruct j as [|j]; [lia|]. simpl in Hj. destruct i as [|i].
  - injection Hi as <-. rewrite Forall_forall in Hall. apply Hall.
    by eapply list_elem_of_lookup_2.
  - simpl in Hi. apply (IH i j); [done|done|lia].
Qed.

Lemma sorted_lt_all_equal (l : list Z) (o : Z) :
  StronglySorted Z.lt l -> (forall d, d ∈ l <-> d = o) -> l = [o].
Proof.
  intros Hs Hall. destruct l as [|x [|y l]].
  - assert (o ∈ []) as H by by apply Hall. by apply elem_of_nil in H.
  - f_equal. apply Hall. left.
  - assert (x = o) by (apply Hall; left).
    assert (y = o) by (apply Hall; right; left).
    pose proof (sorted_lt_lookup (x :: y :: l) 0 1 x y Hs eq_refl eq_refl). lia.
Qed.

Lemma comprehension_Raise {A B} (f : A -> result B) (xs : list A) x e :
  x ∈ xs -> f x = Raise e ->
  exists x' e', x' ∈ xs /\ f x' = Raise e' /\ comprehension f xs = Raise e'.
Proof.
  induction xs as [|y ys IH]; [by intros ?%elem_of_nil|].
  intros Hin Hx. simpl. destruct (f y) as [b|e0] eqn:Ey.
  - apply elem_of_cons in Hin as [->|Hin]; [congruence|].
    destruct (IH Hin Hx) as (x' & e' & Hx' & Hf & ->).
    exists x', e'. split; [by right|]. done.
  - exists y, e0. split; [left|]. done.
Qed.

Lemma fold_join_columns (steps : list (date * list edge)) (running : frame) :
  columns (fold_left (fun running dt => left_join_last running dt.1 dt.2) steps running)
  = columns running ++ steps.*1.
Proof.
  revert running. induction steps as [|[d t] steps IH]; intros running; simpl.
  - by rewrite app_nil_r.
  - rewrite IH. simpl. by rewrite <- app_assoc.
Qed.

Lemma fold_join_wf (steps : list (date * list edge)) (running : frame) :
  frame_wf running ->
  frame_wf (fold_left (fun running dt => left_join_last running dt.1 dt.2) steps running).
Proof.
  revert running. induction steps as [|[d t] steps IH]; intros running Hwf; [done|].
  simpl. apply IH. by apply left_join_last_wf.
Qed.

(** X7. Every request [create_multi_mapping] issues goes from one catalog
    date to a later catalog date: never a request between equal dates, never
    one backwards in time, and never one for a date the catalog does not
    have. *)
Theorem create_multi_mapping_requests_forward (self : BaseMunicipalityData)
    (_fetch_mapping : date -> date -> result (list edge))
    (origin : date) (targets : targets_arg) (return_names : bool) (a b : date) :
  (a, b) ∈ (create_multi_mapping self _fetch_mapping origin targets return_names).1 ->
  a ∈ gemeindestaende self /\ b ∈ gemeindestaende self /\ (a < b)%Z.
Proof.
  unfold create_multi_mapping.
  destruct (hop_dates self origin targets) as [hops|e] eqn:Eh;
    [|by intros ?%elem_of_nil].
  pose proof (hop_dates_catalog _ _ _ _ Eh) as Hcat.
  apply hop_dates_inv in Eh as [Hs _].
  destruct hops as [|earliest rest]; [by intros ?%elem_of_nil|]. simpl.
  intros [i Hi]%list_elem_of_lookup. apply fetch_tasks_lookup in Hi as [Ha Hb].
  split; [|split].
  - apply Hcat. by eapply list_elem_of_lookup_2.
  - apply Hcat. by eapply list_elem_of_lookup_2.
  - by apply (sorted_lt_lookup _ i (S i) a b Hs); [| |lia].
Qed.

Lemma create_multi_mapping_requests_forward_witness :
  d2019 ∈ gemeindestaende cat3 /\ d2021 ∈ gemeindestaende cat3 /\ (d2019 < d2021)%Z.
Proof.
  apply (create_multi_mapping_requests_forward cat3 fetch3 (d2018 + 5)%Z
           (TargetList [d2021; (d2019 - 3)%Z; d2021]) true d2019 d2021).
  by_compute.
Defined.

(** X8. No hop.  When every target snaps to the state the origin snaps to
    (an empty list of targets included), [create_multi_mapping] issues no
    request; with names it returns [None] instead of a table, and without
    names it raises [AttributeError]. *)
Theorem create_multi_mapping_without_hop (self : BaseMunicipalityData)
    (_fetch_mapping : date -> date -> result (list edge))
    (origin : date) (targets : targets_arg) (return_names : bool)
    (o : date) (ts : list date) :
  _find_closest_official_gemeindestand self origin "smaller" = Ok o ->
  _validate_and_transform_targets self targets = Ok ts ->
  (forall t, t ∈ ts -> t = o) ->
  create_multi_mapping self _fetch_mapping origin targets return_names
  = ([], if return_names then Ok None else Raise AttributeError).
Proof.
  intros Ho Hts Hall. unfold create_multi_mapping, hop_dates.
  rewrite Ho, Hts. simpl.
  assert (sorted_set (ts ++ [o]) = [o]) as ->.
  { destruct (sorted_set_spec (ts ++ [o])) as [Hs Hel].
    apply sorted_lt_all_equal; [done|]. intros d. rewrite Hel, elem_of_app.
    split; [intros [?|?%list_elem_of_singleton]; auto|].
    intros ->. right. left. }
  simpl. by destruct return_names.
Qed.

Lemma create_multi_mapping_without_hop_witness :
  create_multi_mapping cat3 fetch3 (d2019 + 5)%Z (TargetList [(d2019 - 5)%Z; d2019]) false
  = ([], Raise AttributeError).
Proof.
  apply (create_multi_mapping_without_hop cat3 fetch3 (d2019 + 5)%Z
           (TargetList [(d2019 - 5)%Z; d2019]) false d2019 [d2019; d2019]).
  - reflexivity.
  - reflexivity.
  - intros t Ht. revert t Ht. apply Forall_forall. by_compute.
Defined.

(** X9. One failing request fails the call.  If any of the requests of a
    call raises, [create_multi_mapping] raises the exception of one of its
    requests and returns no partial table, whatever the other requests
    returned. *)
Theorem create_multi_mapping_failed_request (self : BaseMunicipalityData)
    (_fetch_mapping : date -> date -> result (list edge))
    (origin : date) (targets : targets_arg) (return_names : bool)
    (a b : date) (e : exn) :
  (a, b) ∈ (create_multi_mapping self _fetch_mapping origin targets return_names).1 ->
  _fetch_mapping a b = Raise e ->
  exists a' b' e',
    (a', b') ∈ (create_multi_mapping self _fetch_mapping origin targets return_names).1 /\
    _fetch_mapping a' b' = Raise e' /\
    (create_multi_mapping self _fetch_mapping origin targets return_names).2 = Raise e'.
Proof.
  unfold create_multi_mapping.
  destruct (hop_dates self origin targets) as [[|earliest rest]|e0];
    try by intros ?%elem_of_nil.
  simpl. intros Hin He.
  destruct (comprehension_Raise (fun task => _fetch_mapping task.1 task.2)
              (fetch_tasks earliest rest) (a, b) e Hin He) as ([a' b'] & e' & Hin' & He' & Hc).
  exists a', b', e'. split; [done|]. split; [done|].
  unfold gather. by rewrite Hc.
Qed.

Lemma create_multi_mapping_failed_request_witness :
  exists a' b' e',
    (a', b') ∈ (create_multi_mapping cat3 (fun _ _ => Raise ClientError) d2018
                  (TargetList [d2019; d2020]) true).1 /\
    (fun _ _ : date => @Raise (list edge) ClientError) a' b' = Raise e' /\
    (create_multi_mapping cat3 (fun _ _ => Raise ClientError) d2018
       (TargetList [d2019; d2020]) true).2 = Raise e'.
Proof.
  apply (create_multi_mapping_failed_request cat3 (fun _ _ => Raise ClientError) d2018
           (TargetList [d2019; d2020]) true d2019 d2020 ClientError).
  - by_compute.
  - reflexivity.
Defined.

Lemma create_multi_mapping_full (self : BaseMunicipalityData)
    (_fetch_mapping : date -> date -> result (list edge))
    (origin : date) (targets : targets_arg) (return_names : bool)
    (hops : list date) (t : wide_table) :
  hop_dates self origin targets = Ok hops ->
  (create_multi_mapping self _fetch_mapping origin targets return_names).2 = Ok (Some t) ->
  exists full,
    columns full = hops /\ frame_wf full /\
    t = if return_names then WithNames full else drop_names full.
Proof.
  intros Hh Hres.
  assert (exists tables,
            Forall2 (fun hop table => _fetch_mapping hop.1 hop.2 = Ok table)
              (create_multi_mapping self _fetch_mapping origin targets return_names).1 tables)
    as [tables Htables].
  { revert Hres. unfold create_multi_mapping. rewrite Hh.
    destruct hops as [|earliest rest]; [done|]. simpl.
    intros (tables & Hg & _)%bind_Ok_inv. exists tables.
    by apply comprehension_Forall2 in Hg. }
  pose proof (create_multi_mapping_result _ _ _ _ return_names _ _ Hh Htables) as Heq.
  rewrite Hres in Heq.
  assert (length tables = length hops - 1) as Hlen.
  { apply Forall2_length in Htables. rewrite <- Htables.
    unfold create_multi_mapping. rewrite Hh. destruct hops as [|earliest rest]; [done|].
    simpl. rewrite fetch_tasks_length. lia. }
  assert (exists full, spec_fold hops tables = Some full) as [full Hfull].
  { destruct (spec_fold hops tables) as [full|]; [by eexists|].
    destruct return_names; simpl in Heq; discriminate. }
  exists full. rewrite Hfull in Heq. split; [|split].
  - unfold spec_fold in Hfull. destruct hops as [|d0 [|d1 later]]; try done.
    destruct tables as [|table0 tables']; [done|]. injection Hfull as <-.
    simpl in Hlen. rewrite fold_join_columns. simpl. f_equal. f_equal.
    apply fst_zip. unfold date in *. lia.
  - unfold spec_fold in Hfull. destruct hops as [|d0 [|d1 later]]; try done.
    destruct tables as [|table0 tables']; [done|]. injection Hfull as <-.
    apply fold_join_wf, renamed_wf.
  - destruct return_names; simpl in Heq; by injection Heq as ->.
Qed.

Lemma create_multi_mapping_columns (self : BaseMunicipalityData)
    (_fetch_mapping : date -> date -> result (list edge))
    (origin : date) (targets : targets_arg) (return_names : bool)
    (hops : list date) (t : wide_table) :
  hop_dates self origin targets = Ok hops ->
  (create_multi_mapping self _fetch_mapping origin targets return_names).2 = Ok (Some t) ->
  table_columns t = hops.
Proof.
  intros Hh Hres.
  destruct (create_multi_mapping_full _ _ _ _ _ _ _ Hh Hres) as (full & Hcols & _ & ->).
  by destruct return_names.
Qed.

(** X10. The shape of the returned table.  When [create_multi_mapping]
    returns a table, its date columns are exactly the dates of the hops in
    chronological order, the first being the earliest of origin and targets,
    and every row has a cell (with names: a pair of cells) for each of these
    dates. *)
Theorem create_multi_mapping_table_shape (self : BaseMunicipalityData)
    (_fetch_mapping : date -> date -> result (list edge))
    (origin : date) (targets : targets_arg) (return_names : bool)
    (hops : list date) (t : wide_table) :
  hop_dates self origin targets = Ok hops ->
  (create_multi_mapping self _fetch_mapping origin targets return_names).2 = Ok (Some t) ->
  table_columns t = hops /\
  StronglySorted Z.lt (table_columns t) /\
  Forall (fun n => n = length hops) (table_row_lengths t).
Proof.
  intros Hh Hres.
  destruct (create_multi_mapping_full _ _ _ _ _ _ _ Hh Hres) as (full & Hcols & Hwf & ->).
  apply hop_dates_inv in Hh as [Hsorted _].
  destruct return_names; simpl.
  - split; [done|]. split; [by rewrite Hcols|].
    apply Forall_forall. intros n (row & -> & Hrow)%elem_of_map.
    rewrite <- Hcols. by apply Hwf.
  - split; [done|]. split; [by rewrite Hcols|].
    apply Forall_forall. intros n (row & -> & Hrow)%elem_of_map.
    apply elem_of_map in Hrow as (row' & -> & Hrow'). rewrite length_map.
    rewrite <- Hcols. by apply Hwf.
Qed.

Lemma create_multi_mapping_table_shape_witness :
  table_columns (CodesOnly [d2018; d2019; d2020]
                   [[Some 1; Some 1; Some 10]; [Some 1; Some 1; Some 11];
                    [Some 2; Some 3; Some 3]])%Z
  = [d2018; d2019; d2020] /\
  StronglySorted Z.lt
    (table_columns (CodesOnly [d2018; d2019; d2020]
                      [[Some 1; Some 1; Some 10]; [Some 1; Some 1; Some 11];
                       [Some 2; Some 3; Some 3]])%Z) /\
  Forall (fun n => n = length [d2018; d2019; d2020])
    (table_row_lengths (CodesOnly [d2018; d2019; d2020]
                          [[Some 1; Some 1; Some 10]; [Some 1; Some 1; Some 11];
                           [Some 2; Some 3; Some 3]])%Z).
Proof.
  apply (create_multi_mapping_table_shape cat3 fetch3 d2018 (TargetList [d2019; d2020]) false).
  - reflexivity.
  - reflexivity.
Defined.

(** ** The state identifier *)

Lemma wrong_codes_loop_spec (df : list (Z * string)) (codes : list Z)
    (acc out : list (Z * string)) :
  for_each (fun acc code => name ← first_name_of df code; Ok (dict_set code name acc))
           codes acc = Ok out ->
  (forall w, w ∈ dict_keys out <-> w ∈ codes \/ w ∈ dict_keys acc) /\
  (forall w n, dict_get w out = Some n ->
     (w ∈ codes /\ first_name_of df w = Ok n) \/ dict_get w acc = Some n) /\
  (NoDup (dict_keys acc) -> NoDup (dict_keys out)).
Proof.
  revert acc. induction codes as [|c codes IH]; intros acc; simpl.
  - intros [= <-]. split; [|split]; [|auto|auto].
    intros w. split; [auto|]. intros [?%elem_of_nil|?]; done.
  - destruct (first_name_of df c) as [name|e] eqn:Ename; [|done]. simpl.
    intros Hloop. destruct (IH _ Hloop) as (Hkeys & Hget & Hnd).
    split; [|split].
    + intros w. rewrite Hkeys, dict_keys_set, elem_of_cons.
      destruct (decide (c ∈ dict_keys acc)) as [Hc|Hc].
      * split; [intros [?|?]; auto | intros [[->|?]|?]; auto].
      * rewrite elem_of_app, list_elem_of_singleton.
        split; [intros [?|[?|?]]; auto | intros [[->|?]|?]; auto].
    + intros w n Hw. destruct (Hget w n Hw) as [[Hin Hf]|Hacc].
      * left. split; [by right | done].
      * destruct (decide (c = w)) as [->|Hne].
        -- rewrite dict_get_set_eq in Hacc. injection Hacc as <-.
           left. split; [left | done].
        -- rewrite dict_get_set_ne in Hacc by done. by right.
    + intros Hacc. by apply Hnd, dict_keys_set_NoDup.
Qed.

Lemma first_name_of_elem (df : list (Z * string)) (w : Z) (n : string) :
  first_name_of df w = Ok n -> (w, n) ∈ df.
Proof.
  unfold first_name_of.
  destruct (filter (fun row : Z * string => row.1 = w) df) as [|[w' n'] rest] eqn:E; [done|].
  intros [= <-].
  assert ((w', n') ∈ filter (fun row : Z * string => row.1 = w) df) as Hin
    by (rewrite E; left).
  apply list_elem_of_filter in Hin as [Hw Hin]. simpl in Hw. by subst.
Qed.

Lemma check_for_non_bfs_codes_spec (self : BaseMunicipalityData)
    (df : list (Z * string)) (F clean : gset Z) (wcd : list (Z * string)) :
  _check_for_non_bfs_codes self df F = Ok (clean, wcd) ->
  clean = F ∩ all_historical_bfs_codes self /\
  NoDup (dict_keys wcd) /\
  (forall w, w ∈ dict_keys wcd <-> w ∈ F /\ w ∉ all_historical_bfs_codes self) /\
  (forall w n, dict_get w wcd = Some n -> first_name_of df w = Ok n).
Proof.
  unfold _check_for_non_bfs_codes. cbv zeta. case_decide as Hsz; [|done].
  intros H. apply bind_Ok_inv in H as (wcd' & Hloop & [= <- <-]).
  apply wrong_codes_loop_spec in Hloop as (Hkeys & Hget & Hnd).
  split; [|split; [|split]].
  - clear. apply set_eq. intros x. rewrite elem_of_intersection, !elem_of_difference.
    destruct (decide (x ∈ all_historical_bfs_codes self)); tauto.
  - apply Hnd. apply NoDup_nil_2.
  - intros w. rewrite Hkeys, elem_of_elements, elem_of_difference.
    split; [intros [?|?%elem_of_nil]; done | auto].
  - intros w n Hw. destruct (Hget w n Hw) as [[_ ?]|?]; done.
Qed.

Lemma correct_wrong_codes_spec (self : BaseMunicipalityData) (g : date)
    (wcd : list (Z * string)) (w c : Z) :
  dict_get w (_correct_wrong_codes self g wcd) = Some c ->
  exists name,
    (w, name) ∈ wcd /\
    (c = w \/ (c, name) ∈ default [] (dict_get g (gmde_dct self))).
Proof.
  unfold _correct_wrong_codes. cbv zeta.
  intros Hin%dict_of_items_get_Some.
  apply elem_of_map in Hin as (name & [= Hw Hc] & Hname).
  assert (exists w', dict_get name (dict_invert wcd) = Some w') as [w' Hw'].
  { destruct (dict_get name (dict_invert wcd)) eqn:E; [by eexists|].
    apply dict_get_None in E. done. }
  rewrite Hw' in Hw, Hc. simpl in Hw, Hc. subst w'.
  exists name. split; [by apply dict_invert_get_Some|].
  destruct (dict_get name (dict_invert (default [] (dict_get g (gmde_dct self)))))
    as [c'|] eqn:E; simpl in Hc; subst c.
  - right. by apply dict_invert_get_Some.
  - by left.
Qed.

Lemma search_gemeindestand_Ok (self : BaseMunicipalityData) (n : nat) (F : gset Z)
    (wcd : list (Z * string)) (g : date) (corrections : option (list (Z * Z))) :
  search_gemeindestand self n F wcd = Ok (g, corrections) ->
  (corrections = None /\ (g, n) ∈ data self /\ F ⊆ unique_gemeinden self g) \/
  (corrections = Some (_correct_wrong_codes self g wcd) /\
   _infer_gemeindestand self F = Ok g).
Proof.
  assert (infer_and_correct self F wcd = Ok (g, corrections) ->
          corrections = Some (_correct_wrong_codes self g wcd) /\
          _infer_gemeindestand self F = Ok g) as Hinfer.
  { unfold infer_and_correct. destruct (_infer_gemeindestand self F); [|done].
    by intros [= -> <-]. }
  unfold search_gemeindestand. cbv zeta.
  pose proof (elem_of_candidates self) as Hcand. specialize (fun c => Hcand c n).
  destruct ((filter (fun row => row.2 = n) (data self)).*1) as [|c1 [|c2 cs]] eqn:Ecs.
  - auto.
  - destruct (_check_gemeindestand self c1 F) eqn:E; [|auto].
    intros [= <- <-]. left. split; [done|]. split.
    + apply Hcand. left.
    + by apply check_gemeindestand_spec.
  - destruct (candidates_loop self F (c1 :: c2 :: cs)) as [c|] eqn:E; [|auto].
    intros [= <- <-]. apply candidates_loop_Some in E as [Hc HF].
    left. split; [done|]. split; [by apply Hcand | done].
Qed.

(** X11. What [_check_for_non_bfs_codes] returns when it returns: the codes
    of the set that have been issued at some time, and a dict whose keys are
    exactly the codes of the set that never were, each with the name in the
    first row of the data that carries the code.  It returns only when there
    is at least one such code. *)
Theorem check_for_non_bfs_codes_returns (self : BaseMunicipalityData)
    (df : list (Z * string)) (F clean : gset Z) (wcd : list (Z * string)) :
  _check_for_non_bfs_codes self df F = Ok (clean, wcd) ->
  clean = F ∩ all_historical_bfs_codes self /\
  NoDup (dict_keys wcd) /\
  (forall w, w ∈ dict_keys wcd <-> w ∈ F /\ w ∉ all_historical_bfs_codes self) /\
  (exists w, w ∈ dict_keys wcd) /\
  (forall w n, dict_get w wcd = Some n ->
     exists before after,
       df = before ++ (w, n) :: after /\ forall row, row ∈ before -> row.1 <> w).
Proof.
  intros H. pose proof (check_for_non_bfs_codes_spec _ _ _ _ _ H) as (Hc & Hnd & Hk & Hn).
  split; [done|]. split; [done|]. split; [done|]. split.
  - apply check_for_non_bfs_codes_inv in H as [Hns _].
    destruct (decide (F ∖ all_historical_bfs_codes self = ∅)) as [He|He].
    { exfalso. apply Hns. by apply difference_empty. }
    apply set_choose_L in He as [w Hw]. exists w. apply Hk.
    by apply elem_of_difference in Hw.
  - intros w n Hw. apply Hn in Hw. clear -Hw. unfold first_name_of in Hw.
    induction df as [|[w' n'] df IH]; [done|].
    rewrite filter_cons in Hw. simpl in Hw.
    destruct (decide (w' = w)) as [->|Hne].
    + injection Hw as <-. exists [], df. split; [done|]. by intros ? ?%elem_of_nil.
    + destruct (IH Hw) as (before & after & -> & Hb).
      exists ((w', n') :: before), after. split; [done|].
      intros row [->|?]%elem_of_cons; [done | by apply Hb].
Qed.

Lemma check_for_non_bfs_codes_returns_witness :
  ({[261; 262]} : gset Z)%Z = {[261; 262; 4999]}%Z ∩ all_historical_bfs_codes cat2 /\
  NoDup (dict_keys [(4999%Z, "Alt-Dorf")]) /\
  (forall w, w ∈ dict_keys [(4999%Z, "Alt-Dorf")] <->
             w ∈ ({[261; 262; 4999]} : gset Z)%Z /\ w ∉ all_historical_bfs_codes cat2) /\
  (exists w, w ∈ dict_keys [(4999%Z, "Alt-Dorf")]) /\
  (forall w n, dict_get w [(4999%Z, "Alt-Dorf")] = Some n ->
     exists before after,
       df2 = before ++ (w, n) :: after /\ forall row, row ∈ before -> row.1 <> w).
Proof.
  apply (check_for_non_bfs_codes_returns cat2 df2 {[261; 262; 4999]}%Z).
  vm_compute. reflexivity.
Defined.

(** X12. The corrections never invent a code.  Every entry of the dict
    [_correct_wrong_codes] returns has for key a code of [wrong_codes_dict],
    and for value either that same code or a code that the given state lists
    under the name recorded for the wrong code. *)
Theorem correct_wrong_codes_entries (self : BaseMunicipalityData) (g : date)
    (wcd : list (Z * string)) (w c : Z) :
  dict_get w (_correct_wrong_codes self g wcd) = Some c ->
  exists name,
    (w, name) ∈ wcd /\
    (c = w \/ ((c, name) ∈ default [] (dict_get g (gmde_dct self)) /\
               c ∈ unique_gemeinden self g)).
Proof.
  intros (name & Hw & Hc)%correct_wrong_codes_spec. exists name. split; [done|].
  destruct Hc as [?|Hc]; [by left|]. right. split; [done|].
  unfold unique_gemeinden. apply elem_of_list_to_set.
  apply list_elem_of_fmap. by exists (c, name).
Qed.

Lemma correct_wrong_codes_entries_witness :
  exists name,
    (4999%Z, name) ∈ [(4999%Z, "Alt-Dorf")] /\
    (263%Z = 4999%Z \/
     ((263%Z, name) ∈ default [] (dict_get (toordinal 2020 1 1) (gmde_dct cat2)) /\
      263%Z ∈ unique_gemeinden cat2 (toordinal 2020 1 1))).
Proof.
  apply (correct_wrong_codes_entries cat2 (toordinal 2020 1 1) [(4999%Z, "Alt-Dorf")]).
  reflexivity.
Defined.

(** X13. What a returned Gemeindestand is worth.  When [find_gemeindestand]
    returns a state, the state is in the catalog and lists every code of the
    data that is left after removing the shared territories, the codes from
    7000 on and the never-issued codes; the data holds at least one
    never-issued code.  Returned without corrections, the state has as many
    municipalities as the data has codes before the never-issued ones are
    removed; returned with corrections, no later state of the catalog lists
    all cleaned codes. *)
Theorem find_gemeindestand_sound (self : BaseMunicipalityData) (df : list (Z * string))
    (g : date) (corrections : option (list (Z * Z))) :
  find_gemeindestand self df = Ok (g, corrections) ->
  let F := _check_for_unpoulated_areas (list_to_set df.*1) in
  let cleaned := F ∩ all_historical_bfs_codes self in
  g ∈ gemeindestaende self /\
  cleaned ⊆ unique_gemeinden self g /\
  ¬ F ⊆ all_historical_bfs_codes self /\
  match corrections with
  | None => (g, size F) ∈ data self
  | Some _ =>
      exists older newer,
        gemeindestaende self = older ++ g :: newer /\
        forall h, h ∈ newer -> ¬ cleaned ⊆ unique_gemeinden self h
  end.
Proof.
  unfold find_gemeindestand. cbv zeta. intros H.
  apply bind_Ok_inv in H as ([clean wcd] & Hcheck & Hsearch).
  pose proof (check_for_non_bfs_codes_spec _ _ _ _ _ Hcheck) as (-> & _).
  apply check_for_non_bfs_codes_inv in Hcheck as [Hns _].
  apply search_gemeindestand_Ok in Hsearch as [(-> & Hdata & Hsub)|(-> & Hinf)].
  - split; [|done]. apply list_elem_of_fmap. by eexists (_, _).
  - apply infer_gemeindestand_Ok in Hinf as (older & newer & Hcat & Hsub & Hnewer).
    split; [|split; [done|split; [done|]]].
    + rewrite Hcat. apply elem_of_app. right. left.
    + by exists older, newer.
Qed.

Lemma find_gemeindestand_sound_witness :
  let F := _check_for_unpoulated_areas (list_to_set df2.*1) in
  let cleaned := F ∩ all_historical_bfs_codes cat2 in
  toordinal 2020 1 1 ∈ gemeindestaende cat2 /\
  cleaned ⊆ unique_gemeinden cat2 (toordinal 2020 1 1) /\
  ¬ F ⊆ all_historical_bfs_codes cat2 /\
  (toordinal 2020 1 1, size F) ∈ data cat2.
Proof.
  apply (find_gemeindestand_sound cat2 df2 (toordinal 2020 1 1) None).
  vm_compute. reflexivity.
Defined.

(** X14. When [find_gemeindestand] is bound to fail.  Shared territories
    and codes from 7000 on set aside: if every code of the data has been
    issued at some time, it raises [UnboundLocalError], whatever the catalog;
    if some code never was and no state of the catalog lists all the
    remaining codes, it raises [ValueError]. *)
Theorem find_gemeindestand_raises (self : BaseMunicipalityData)
    (df : list (Z * string)) :
  let F := _check_for_unpoulated_areas (list_to_set df.*1) in
  (F ⊆ all_historical_bfs_codes self ->
   find_gemeindestand self df = Raise UnboundLocalError) /\
  (¬ F ⊆ all_historical_bfs_codes self ->
   (forall h, h ∈ gemeindestaende self ->
              ¬ F ∩ all_historical_bfs_codes self ⊆ unique_gemeinden self h) ->
   find_gemeindestand self df = Raise ValueError).
Proof.
  intros F.
  assert (F ∖ (F ∖ all_historical_bfs_codes self) = F ∩ all_historical_bfs_codes self)
    as Hclean.
  { apply set_eq. intros x. rewrite elem_of_intersection, !elem_of_difference.
    destruct (decide (x ∈ all_historical_bfs_codes self)); tauto. }
  split.
  - apply find_gemeindestand_unbound.
  - intros Hns Hnone. apply find_gemeindestand_ValueError. fold F.
    split; [done|]. by rewrite Hclean.
Qed.

(** ** The catalog and the set filter *)

Lemma fetch_base_data_keys (snapshots : list (date * list (Z * string))) :
  (map (fun ds : date * list (Z * string) => (ds.1, dict_of_items ds.2)) snapshots).*1
  = snapshots.*1.
Proof. induction snapshots as [|[d s] l IH]; csimpl; [done | by rewrite IH]. Qed.

Lemma fetch_base_data_dict (snapshots : list (date * list (Z * string))) :
  NoDup snapshots.*1 ->
  gmde_dct (_fetch_base_data snapshots)
  = map (fun ds : date * list (Z * string) => (ds.1, dict_of_items ds.2)) snapshots.
Proof.
  intros Hnd. unfold _fetch_base_data. simpl.
  apply dict_of_items_NoDup. unfold dict_keys. by rewrite fetch_base_data_keys.
Qed.

(** X15. The catalog [_fetch_base_data] builds from the snapshots of
    chronologically ordered dates: its Gemeindestaende are these dates in
    this order; the codes of a state are the codes of its snapshot, and
    [anz_gmde] counts them without repetition; a date without snapshot has no
    code; and the historical codes that [__init__] collects are exactly the
    codes that occur in some snapshot. *)
Theorem fetch_base_data_catalog (snapshots : list (date * list (Z * string))) :
  StronglySorted Z.lt snapshots.*1 ->
  let self := _fetch_base_data snapshots in
  gemeindestaende self = snapshots.*1 /\
  (forall d rows, (d, rows) ∈ snapshots ->
     unique_gemeinden self d = list_to_set rows.*1 /\
     (d, size (unique_gemeinden self d)) ∈ data self) /\
  (forall d, d ∉ snapshots.*1 -> unique_gemeinden self d = ∅) /\
  (forall c, c ∈ all_historical_bfs_codes self <->
             exists d rows, (d, rows) ∈ snapshots /\ c ∈ rows.*1).
Proof.
  intros Hs self.
  assert (NoDup snapshots.*1) as Hnd by by eapply StronglySorted_lt_NoDup.
  pose proof (fetch_base_data_wf snapshots Hnd) as [_ Hsize].
  pose proof (fetch_base_data_dict snapshots Hnd) as Hdict.
  assert (forall d rows, (d, rows) ∈ snapshots ->
            unique_gemeinden self d = list_to_set rows.*1) as Hcodes.
  { intros d rows Hin. unfold unique_gemeinden. subst self. rewrite Hdict.
    rewrite (dict_get_elem d (dict_of_items rows)).
    - simpl. apply set_eq. intros x. rewrite !elem_of_list_to_set.
      apply dict_of_items_keys.
    - unfold dict_keys. by rewrite fetch_base_data_keys.
    - apply elem_of_map. by exists (d, rows). }
  split; [|split; [|split]].
  - unfold gemeindestaende. subst self. simpl. rewrite <- list_fmap_compose.
    clear. induction snapshots as [|[d s] l IH]; csimpl; [done | by rewrite IH].
  - intros d rows Hin. split; [by apply Hcodes|].
    rewrite (Hcodes d rows Hin). subst self. simpl.
    apply elem_of_map. by exists (d, rows).
  - intros d Hd. unfold unique_gemeinden. subst self. rewrite Hdict.
    assert (dict_get d (map (fun ds : date * list (Z * string) =>
                               (ds.1, dict_of_items ds.2)) snapshots) = None) as ->; [|done].
    apply dict_get_None. unfold dict_keys. by rewrite fetch_base_data_keys.
  - intros c. rewrite elem_of_all_historical. subst self. rewrite Hdict. split.
    + intros (name_dct & Hin & Hc).
      apply list_elem_of_fmap in Hin as ([d' nd] & -> & Hin).
      apply elem_of_map in Hin as ([d rows] & [= -> ->] & Hin). simpl in Hc.
      exists d, rows. split; [done|]. by apply (dict_of_items_keys rows c).
    + intros (d & rows & Hin & Hc). exists (dict_of_items rows). split.
      * apply list_elem_of_fmap. exists (d, dict_of_items rows). split; [done|].
        apply elem_of_map. by exists (d, rows).
      * by apply (dict_of_items_keys rows c).
Qed.

Lemma fetch_base_data_catalog_witness :
  let self := cat7 in
  gemeindestaende self = [toordinal 2019 1 1; toordinal 2020 1 1] /\
  (forall d rows,
     (d, rows) ∈ [ (toordinal 2019 1 1, [(261, "A"); (262, "B")]);
                   (toordinal 2020 1 1, [(262, "B"); (263, "C")]) ]%Z ->
     unique_gemeinden self d = list_to_set rows.*1 /\
     (d, size (unique_gemeinden self d)) ∈ data self) /\
  (forall d, d ∉ [toordinal 2019 1 1; toordinal 2020 1 1] -> unique_gemeinden self d = ∅) /\
  (forall c, c ∈ all_historical_bfs_codes self <->
             exists d rows,
               (d, rows) ∈ [ (toordinal 2019 1 1, [(261, "A"); (262, "B")]);
                             (toordinal 2020 1 1, [(262, "B"); (263, "C")]) ]%Z /\
               c ∈ rows.*1).
Proof.
  apply (fetch_base_data_catalog
           [ (toordinal 2019 1 1, [(261, "A"); (262, "B")]);
             (toordinal 2020 1 1, [(262, "B"); (263, "C")]) ]%Z).
  by_compute.
Defined.

(** X16. [_check_for_unpoulated_areas] removes from a set exactly the eight
    shared territories and every code from 7000 on, and nothing else;
    filtering twice is filtering once; and the earlier copy of the function,
    written with guarded list comprehensions, returns the same set. *)
Theorem check_for_unpoulated_areas_filter (gemeinde_set : gset Z) :
  (forall x, x ∈ _check_for_unpoulated_areas gemeinde_set <->
             x ∈ gemeinde_set /\
             (x ∉ [2285; 2391; 5020; 5391; 5238; 5394; 6072; 6391]%Z) /\ (x < 7000)%Z) /\
  _check_for_unpoulated_areas (_check_for_unpoulated_areas gemeinde_set)
  = _check_for_unpoulated_areas gemeinde_set /\
  legacy._check_for_unpoulated_areas gemeinde_set
  = _check_for_unpoulated_areas gemeinde_set.
Proof.
  assert (forall F x, x ∈ _check_for_unpoulated_areas F <->
            x ∈ F /\ (x ∉ [2285; 2391; 5020; 5391; 5238; 5394; 6072; 6391]%Z) /\
            (x < 7000)%Z)
    as Hchar by (intros F x; apply elem_of_check_for_unpoulated_areas).
  split; [apply Hchar|]. split.
  - apply set_eq. intros x. rewrite !Hchar. tauto.
  - apply set_eq. intros x. rewrite Hchar.
    unfold legacy._check_for_unpoulated_areas. cbv zeta.
    set (step1 := if decide (Exists (fun i => i ∈ gemeinde_set) (dict_keys gmde_freie_geb))
                  then filter (fun n => n ∉ dict_keys gmde_freie_geb) gemeinde_set
                  else gemeinde_set).
    assert (forall y, y ∈ step1 <-> y ∈ gemeinde_set /\ (y ∉ dict_keys gmde_freie_geb)) as H1.
    { intros y. unfold step1. case_decide as Hex.
      - rewrite elem_of_filter. tauto.
      - rewrite Exists_exists in Hex. split; [|tauto]. intros Hy. split; [done|].
        intros Hk. apply Hex. by exists y. }
    clearbody step1.
    change (dict_keys gmde_freie_geb)
      with [2285; 2391; 5020; 5391; 5238; 5394; 6072; 6391]%Z in H1.
    case_decide as Hex.
    + rewrite elem_of_filter, H1. tauto.
    + rewrite Exists_exists in Hex. rewrite H1. split; [|tauto].
      intros [Hy Hk]. split; [done|]. split; [done|].
      destruct (decide (x < 7000)%Z) as [|Hge]; [done|]. exfalso. apply Hex.
      exists x. split; [|lia]. apply elem_of_elements, H1. done.
Qed.

(** ** The earlier copy of the date snapping *)

(** X17. The earlier [_nearest] has no fallback.  Whatever the earlier
    [_find_closest_official_gemeindestand] returns, the current one returns
    too; where the earlier one raises, it raises [ValueError], the date is no
    catalog date, and either the current one raises as well or the request
    was for a smaller (larger) state and every catalog date is after
    (before) the given date. *)
Theorem legacy_find_closest_refines (self : BaseMunicipalityData) (given_date : date)
    (prefer : string) :
  (forall r, legacy._find_closest_official_gemeindestand self given_date prefer = Ok r ->
             _find_closest_official_gemeindestand self given_date prefer = Ok r) /\
  (forall e, legacy._find_closest_official_gemeindestand self given_date prefer = Raise e ->
     e = ValueError /\ (given_date ∉ gemeindestaende self) /\
     (_find_closest_official_gemeindestand self given_date prefer = Raise ValueError \/
      (prefer = "smaller" /\ forall c, c ∈ gemeindestaende self -> (given_date < c)%Z) \/
      (prefer = "larger" /\ forall c, c ∈ gemeindestaende self -> (c < given_date)%Z))).
Proof.
  unfold legacy._find_closest_official_gemeindestand, _find_closest_official_gemeindestand.
  destruct (decide (given_date ∈ gemeindestaende self)) as [Hin|Hin]; [done|].
  unfold legacy._nearest, _nearest.
  destruct (decide (prefer = "nearest")) as [->|Hn].
  { split; [done|]. intros e He. destruct (gemeindestaende self); [|done].
    simpl in *. injection He as <-. auto. }
  destruct (decide (prefer = "smaller")) as [->|Hsm].
  { destruct (filter _ (gemeindestaende self)) as [|d ds] eqn:E; [|done].
    split; [done|]. intros e [= <-]. split; [done|]. split; [done|].
    right. left. split; [done|]. intros c Hc.
    destruct (decide (given_date < c)%Z) as [|Hge]; [done|]. exfalso.
    assert (c ∈ filter (fun date : Z => (date <= given_date)%Z) (gemeindestaende self))
      as Hf by (apply list_elem_of_filter; split; [lia | done]).
    rewrite E in Hf. by apply elem_of_nil in Hf. }
  destruct (decide (prefer = "larger")) as [->|Hl].
  { destruct (filter _ (gemeindestaende self)) as [|d ds] eqn:E; [|done].
    split; [done|]. intros e [= <-]. split; [done|]. split; [done|].
    right. right. split; [done|]. intros c Hc.
    destruct (decide (c < given_date)%Z) as [|Hge]; [done|]. exfalso.
    assert (c ∈ filter (fun date : Z => (given_date <= date)%Z) (gemeindestaende self))
      as Hf by (apply list_elem_of_filter; split; [lia | done]).
    rewrite E in Hf. by apply elem_of_nil in Hf. }
  split; [done|]. intros e [= <-]. auto.
Qed.

(** ** The newest-state projector *)

Lemma comprehension_Raise_inv {A B} (f : A -> result B) (xs : list A) e :
  comprehension f xs = Raise e -> exists x, x ∈ xs /\ f x = Raise e.
Proof.
  induction xs as [|x xs IH]; [done|]. simpl.
  destruct (f x) as [y|e'] eqn:E; simpl.
  - destruct (comprehension f xs) as [ys|e'']; [done|]. simpl. intros [= <-].
    destruct IH as (x' & Hin & Hx'); [done|]. exists x'. split; [by right | done].
  - intros [= <-]. exists x. split; [left | done].
Qed.

Lemma int_columns_Raise (mapping : list edge) e : int_columns mapping = Raise e -> e = ValueError.
Proof.
  unfold int_columns. intros (ed & _ & H)%comprehension_Raise_inv.
  destruct (InitialCode ed), (TerminalCode ed); congruence.
Qed.

Lemma for_each_project_Raise newest (oms : list (date * list edge)) (df : list row) e :
  for_each (project_step newest) oms df = Raise e ->
  exists om, om ∈ oms /\ int_columns om.2 = Raise e.
Proof.
  revert df. induction oms as [|om oms IH]; intros df; [done|]. simpl.
  unfold project_step at 1.
  destruct (int_columns om.2) as [cast|e'] eqn:E; simpl.
  - intros (om' & Hin & H)%IH. exists om'. split; [by right | done].
  - intros [= <-]. exists om. split; [left | done].
Qed.

Lemma unique_nil_inv (xs : list Z) : unique xs = [] -> xs = [].
Proof. destruct xs; [done | discriminate]. Qed.

Lemma merge_sort_nil_inv (xs : list Z) : merge_sort Z.le xs = [] -> xs = [].
Proof.
  intros E. apply Permutation_nil_r. rewrite <- E. symmetry. apply merge_sort_Permutation.
Qed.

Lemma last_None_inv {A} (l : list A) : last l = None -> l = [].
Proof. by intros ?%last_None. Qed.

Lemma init_rows_map newest (df : list row) :
  map fill_code (map (set_extra (BfsGmdeCode newest) (Int 0)) df) = map (init_row newest) df.
Proof. by rewrite map_map. Qed.

Lemma project_row_frame (_fetch_mapping : date -> date -> result (list edge))
    (newest : date) (r r' : row) :
  r' ∈ project_row _fetch_mapping newest (init_row newest r) ->
  code r' = Some (default 0%Z (code r)) /\ stand r' = stand r /\
  forall c, c <> BfsGmdeCode newest -> dict_get c (extra r') = dict_get c (extra r).
Proof.
  assert (forall v,
            code (set_extra (BfsGmdeCode newest) v (init_row newest r))
            = Some (default 0%Z (code r)) /\
            stand (set_extra (BfsGmdeCode newest) v (init_row newest r)) = stand r /\
            forall c, c <> BfsGmdeCode newest ->
              dict_get c (extra (set_extra (BfsGmdeCode newest) v (init_row newest r)))
              = dict_get c (extra r)) as Hset.
  { intros v. split; [done|]. split; [done|]. intros c Hc. simpl.
    by rewrite !dict_get_set_ne. }
  assert (code (init_row newest r) = Some (default 0%Z (code r)) /\
          stand (init_row newest r) = stand r /\
          forall c, c <> BfsGmdeCode newest ->
            dict_get c (extra (init_row newest r)) = dict_get c (extra r)) as Hinit.
  { split; [done|]. split; [done|]. intros c Hc. simpl. by rewrite dict_get_set_ne. }
  unfold project_row. case_decide as Hst.
  - intros ->%list_elem_of_singleton. apply Hset.
  - destruct (edges_of _fetch_mapping newest (init_row newest r)) as [|m ms].
    + by intros ->%list_elem_of_singleton.
    + intros (m' & -> & _)%elem_of_map. apply Hset.
Qed.

Lemma project_row_nonempty (_fetch_mapping : date -> date -> result (list edge))
    (newest : date) (r : row) :
  project_row _fetch_mapping newest r <> [].
Proof.
  unfold project_row. case_decide; [done|].
  by destruct (edges_of _fetch_mapping newest r).
Qed.

Lemma concat_map_flat_map {A B} (f : A -> list B) (l : list A) :
  concat (map f l) = flat_map f l.
Proof. induction l as [|a l IH]; simpl; [done | by rewrite IH]. Qed.

Lemma omap_all_equal (l : list Z) (x : Z) :
  x ∈ l -> (forall d, d ∈ l -> d = x) -> exists k, l = replicate (S k) x.
Proof.
  intros Hin Hall. destruct l as [|y l]; [by apply elem_of_nil in Hin|].
  exists (length l). simpl. f_equal; [apply Hall; left|].
  clear Hin. induction l as [|z l IH]; [done|]. simpl. f_equal.
  - apply Hall. right. left.
  - apply IH. intros d [->|Hd]%elem_of_cons; apply Hall; [left | right; by right].
Qed.

Lemma typed_projector_keeps_rows
    (_fetch_mapping : date -> date -> result (list edge)) (df out : list row)
    (newest : date) :
  last (merge_sort Z.le (unique (omap stand df))) = Some newest ->
  (map_multiple_gemeindestaende_to_newest _fetch_mapping df).2 = Ok out ->
  exists groups,
    out = concat groups /\
    Forall2 (fun r group =>
               group <> [] /\
               forall r', r' ∈ group ->
                 code r' = Some (default 0%Z (code r)) /\ stand r' = stand r /\
                 forall c, c <> BfsGmdeCode newest ->
                   dict_get c (extra r') = dict_get c (extra r))
            df groups.
Proof.
  intros Hnewest (newest' & Hlast & _ & ->)%projector_returns.
  assert (newest' = newest) as -> by congruence.
  exists (map (fun r => project_row _fetch_mapping newest (init_row newest r)) df).
  split.
  - by rewrite concat_map_flat_map, flat_map_map.
  - apply Forall2_fmap_r, Forall_Forall2_diag, Forall_forall. intros r _. split.
    + apply project_row_nonempty.
    + intros r'. apply project_row_frame.
Qed.


Lemma typed_projector_single_gemeindestand (df : list row) (newest : date) :
  newest ∈ omap stand df ->
  (forall d, d ∈ omap stand df -> d = newest) ->
  exists out,
    (forall _fetch_mapping : date -> date -> result (list edge),
       map_multiple_gemeindestaende_to_newest _fetch_mapping df = (out, Ok out)) /\
    Forall2 (fun r r' =>
               code r' = Some (default 0%Z (code r)) /\ stand r' = stand r /\
               projected newest r'
               = Some (Int (match stand r with
                            | Some _ => default 0%Z (code r)
                            | None => 0%Z
                            end)))
            df out.
Proof.
  intros Hin Hall.
  destruct (omap_all_equal _ _ Hin Hall) as [k Hk].
  assert (unique (omap stand df) = [newest]) as Hu.
  { rewrite Hk. pose proof (unique_replicate newest k []) as H.
    by rewrite app_nil_r in H. }
  eexists. split.
  { intros _fetch_mapping.
    unfold map_multiple_gemeindestaende_to_newest. cbv zeta. rewrite Hu.
    change (merge_sort Z.le [newest]) with [newest]. simpl.
    rewrite init_rows_map. reflexivity. }
  unfold copy_newest. rewrite map_map.
  apply Forall2_fmap_r, Forall_Forall2_diag, Forall_forall. intros r Hr.
  unfold compose. rewrite init_row_stand.
  destruct (stand r) as [d|] eqn:Est.
  - assert (d = newest) as ->.
    { apply Hall. apply list_elem_of_omap. by exists r. }
    rewrite decide_True by done. split; [done|]. split; [done|].
    unfold projected. simpl. by rewrite dict_get_set_eq.
  - rewrite decide_False by done. split; [done|]. split; [done|].
    apply projected_init.
Qed.


(** ** Mapping a DataFrame *)

Lemma column_index_None (d : date) (cols : list date) :
  d ∉ cols -> column_index d cols = None.
Proof.
  induction cols as [|c cols IH]; [done|]. intros Hn. simpl.
  rewrite decide_False by (intros ->; apply Hn; left).
  rewrite IH; [done|]. intros ?. apply Hn. by right.
Qed.

Lemma column_index_Some (d : date) (cols : list date) (j : nat) :
  column_index d cols = Some j -> cols !! j = Some d.
Proof.
  revert j. induction cols as [|c cols IH]; intros j; [done|]. simpl.
  case_decide as Hd; [by intros [= <-]; subst|].
  destruct (column_index d cols) as [j'|]; [|done]. intros [= <-]. by apply IH.
Qed.

Lemma create_multi_mapping_Ok_hops (self : BaseMunicipalityData)
    (_fetch_mapping : date -> date -> result (list edge))
    (origin : date) (targets : targets_arg) (return_names : bool) t :
  (create_multi_mapping self _fetch_mapping origin targets return_names).2 = Ok t ->
  exists hops, hop_dates self origin targets = Ok hops.
Proof.
  unfold create_multi_mapping.
  destruct (hop_dates self origin targets) as [hops|e]; [by eexists | done].
Qed.

Lemma merge_mapping_outside_catalog (self : BaseMunicipalityData)
    (_fetch_mapping : date -> date -> result (list edge))
    (df : list (Z * string)) (origin : date) (targets : targets_arg) (return_names : bool) :
  origin ∉ gemeindestaende self ->
  exists e,
    (create_multi_mapping self _fetch_mapping origin targets return_names).2
      ≫= merge_mapping df origin = Raise e.
Proof.
  intros Hout.
  destruct (create_multi_mapping self _fetch_mapping origin targets return_names).2
    as [[t|]|e] eqn:Eres; simpl; [| by eexists | by eexists].
  destruct (create_multi_mapping_Ok_hops _ _ _ _ _ _ Eres) as [hops Hh].
  pose proof (create_multi_mapping_columns _ _ _ _ _ _ _ Hh Eres) as Hcols.
  assert (origin ∉ table_columns t) as Hn.
  { rewrite Hcols. intros Hin. apply Hout. by eapply hop_dates_catalog. }
  destruct t as [full|cols rows]; simpl in *; rewrite column_index_None by done;
    by eexists.
Qed.

Lemma merge_on_code_groups {C} (key_of : C -> option Z) (j : nat)
    (mapping : list (list C)) (df : list (Z * string)) :
  exists groups,
    (merge_on_code key_of j mapping df).*1 = concat groups /\
    Forall2 (fun r group => group <> [] /\ forall x, x ∈ group -> x = r) df groups.
Proof.
  induction df as [|r df (groups & Heq & Hall)].
  - exists []. split; [done | constructor].
  - unfold merge_on_code in *. cbn [flat_map]. rewrite fmap_app, Heq.
    destruct (filter (fun w => (w !! j ≫= key_of) = Some r.1) mapping) as [|m ms].
    + exists ([r] :: groups). split; [done|]. constructor; [|done].
      split; [done|]. by intros x ->%list_elem_of_singleton.
    + exists ((map (fun w : list C => (r, Some w)) (m :: ms)).*1 :: groups).
      split; [done|]. constructor; [|done]. split; [done|].
      intros x (y & -> & (w & -> & _)%elem_of_map)%list_elem_of_fmap. done.
Qed.

Lemma replace_codes_rows (P : Z -> Z -> Prop) (corrections_dict : list (Z * Z))
    (df : list (Z * string)) :
  (forall w c, dict_get w corrections_dict = Some c -> c <> w -> P w c) ->
  Forall2 (fun r r' => r'.2 = r.2 /\ (r'.1 <> r.1 -> P r.1 r'.1))
          df (replace_codes corrections_dict df).
Proof.
  intros HP. unfold replace_codes.
  apply Forall2_fmap_r, Forall_Forall2_diag, Forall_forall. intros [c n] _. simpl.
  split; [done|]. destruct (dict_get c corrections_dict) as [c'|] eqn:E; simpl; [|done].
  intros Hne. by apply HP.
Qed.

Lemma find_gemeindestand_corrections (self : BaseMunicipalityData)
    (df : list (Z * string)) (g : date) (corrections : list (Z * Z)) (w c : Z) :
  find_gemeindestand self df = Ok (g, Some corrections) ->
  dict_get w corrections = Some c -> c <> w ->
  (w ∉ all_historical_bfs_codes self) /\ c ∈ all_historical_bfs_codes self.
Proof.
  unfold find_gemeindestand. cbv zeta. intros H Hget Hne.
  apply bind_Ok_inv in H as ([clean wcd] & Hcheck & Hsearch).
  apply check_for_non_bfs_codes_spec in Hcheck as (_ & _ & Hkeys & _).
  apply search_gemeindestand_Ok in Hsearch as [(? & _)|([= ->] & _)]; [done|].
  apply correct_wrong_codes_spec in Hget as (name & Hw & [?|Hc]); [done|]. split.
  - assert (w ∈ dict_keys wcd) as Hk by (apply list_elem_of_fmap; by exists (w, name)).
    apply Hkeys in Hk as [_ ?]. done.
  - apply (unique_gemeinden_historical self g). unfold unique_gemeinden.
    apply elem_of_list_to_set, list_elem_of_fmap. by exists (c, name).
Qed.

Lemma resolve_origin_rows (self : BaseMunicipalityData) (df : list (Z * string))
    (origin : option date) :
  Forall2 (fun r r' =>
             r'.2 = r.2 /\
             (r'.1 <> r.1 ->
              (r.1 ∉ all_historical_bfs_codes self) /\ r'.1 ∈ all_historical_bfs_codes self))
          df (resolve_origin self df origin).1.
Proof.
  assert (Forall2 (fun r r' : Z * string =>
             r'.2 = r.2 /\
             (r'.1 <> r.1 ->
              (r.1 ∉ all_historical_bfs_codes self) /\ r'.1 ∈ all_historical_bfs_codes self))
            df df) as Hsame.
  { apply Forall_Forall2_diag, Forall_forall. intros r _. split; [done|]. done. }
  unfold resolve_origin. destruct origin as [o|].
  - cbv zeta. destruct (bool_decide _); [|done].
    destruct (_check_for_non_bfs_codes self df (list_to_set df.*1)) as [[clean wcd]|e] eqn:Ec;
      [|done].
    simpl.
    apply (replace_codes_rows
             (fun w c => (w ∉ all_historical_bfs_codes self) /\
                         c ∈ all_historical_bfs_codes self)).
    intros w c Hget Hne.
    apply check_for_non_bfs_codes_spec in Ec as (_ & _ & Hkeys & _).
    apply correct_wrong_codes_spec in Hget as (name & Hw & [?|Hc]); [done|]. split.
    + assert (w ∈ dict_keys wcd) as Hk by (apply list_elem_of_fmap; by exists (w, name)).
      apply Hkeys in Hk as [_ ?]. done.
    + apply (unique_gemeinden_historical self o). unfold unique_gemeinden.
      apply elem_of_list_to_set, list_elem_of_fmap. by exists (c, name).
  - destruct (find_gemeindestand self df) as [[g [[|kv d]|]]|e] eqn:Ef; try done.
    simpl.
    apply (replace_codes_rows
             (fun w c => (w ∉ all_historical_bfs_codes self) /\
                         c ∈ all_historical_bfs_codes self)).
    intros w c Hget Hne.
    by eapply find_gemeindestand_corrections.
Qed.

(** X22. A given origin has to be a catalog date.  With an [origin] string
    that is not a Gemeindestand of the catalog, [map_dataframe] raises for
    every target: the composed table is built from the origin snapped to a
    catalog date, and the merge asks for the column of the date as given. *)
Theorem map_dataframe_origin_outside_catalog (self : BaseMunicipalityData)
    (_fetch_mapping : date -> date -> result (list edge))
    (df : list (Z * string)) (origin : date) (target : option target_kw)
    (return_names : bool) :
  origin ∉ gemeindestaende self ->
  exists e, (map_dataframe self _fetch_mapping df (Some origin) target return_names).2
            = Raise e.
Proof.
  intros Hout. unfold map_dataframe.
  destruct (last (gemeindestaende self)) as [newest|]; [|by eexists].
  assert (exists df', resolve_origin self df (Some origin) = (df', Ok origin)
                      \/ exists e, resolve_origin self df (Some origin) = (df', Raise e))
    as [df' [Hr|[e Hr]]].
  { unfold resolve_origin. cbv zeta. destruct (bool_decide _); [|eauto].
    destruct (_check_for_non_bfs_codes self df (list_to_set df.*1)) as [[? ?]|?]; eauto. }
  2: { rewrite Hr. by eexists. }
  rewrite Hr. simpl.
  destruct (default (KwDate newest) target) as [d|ts|ts|].
  - destruct (create_mapping self _fetch_mapping origin d (ExportBool return_names)).2;
      by eexists.
  - by apply (merge_mapping_outside_catalog self).
  - by apply (merge_mapping_outside_catalog self).
  - destruct (_find_closest_official_gemeindestand self origin "smaller"); by eexists.
Qed.

Lemma map_dataframe_origin_outside_catalog_witness :
  exists e, (map_dataframe cat3 fetch3 [(1, "A"); (2, "B")]%Z (Some (d2018 + 5)%Z)
               (Some (KwList [d2019; d2020])) false).2 = Raise e.
Proof.
  apply (map_dataframe_origin_outside_catalog cat3 fetch3 [(1, "A"); (2, "B")]%Z
           (d2018 + 5)%Z (Some (KwList [d2019; d2020])) false).
  by_compute.
Defined.

(** X23. What [map_dataframe] does to the caller's data, whether it returns
    or raises: the rows stay in number and order, no name changes, and a code
    changes only from a code that was never issued to a code that was.  A
    code that has been issued at some time is never altered. *)
Theorem map_dataframe_caller_codes (self : BaseMunicipalityData)
    (_fetch_mapping : date -> date -> result (list edge))
    (df : list (Z * string)) (origin : option date) (target : option target_kw)
    (return_names : bool) :
  Forall2 (fun r r' =>
             r'.2 = r.2 /\
             (r'.1 <> r.1 ->
              (r.1 ∉ all_historical_bfs_codes self) /\ r'.1 ∈ all_historical_bfs_codes self))
          df (map_dataframe self _fetch_mapping df origin target return_names).1.
Proof.
  unfold map_dataframe.
  destruct (last (gemeindestaende self)) as [newest|].
  - pose proof (resolve_origin_rows self df origin) as H.
    by destruct (resolve_origin self df origin) as [df' o].
  - apply Forall_Forall2_diag, Forall_forall. intros r _. split; [done|]. done.
Qed.

(** X24. What a returned table holds.  When [map_dataframe] returns, the
    table holds, in their order, the rows of the caller's data as the call
    left them (corrections applied), each at least once, and the date
    columns added are the hops of the composed mapping, the origin among
    them. *)
Theorem map_dataframe_keeps_rows (self : BaseMunicipalityData)
    (_fetch_mapping : date -> date -> result (list edge))
    (df : list (Z * string)) (origin : option date) (target : option target_kw)
    (return_names : bool) (caller : list (Z * string)) (t : merged_table) :
  map_dataframe self _fetch_mapping df origin target return_names = (caller, Ok t) ->
  (exists groups,
     merged_left_rows t = concat groups /\
     Forall2 (fun r group => group <> [] /\ forall x, x ∈ group -> x = r) caller groups) /\
  (forall d, d ∈ merged_table_columns t -> d ∈ gemeindestaende self) /\
  match origin with
  | Some o => o ∈ merged_table_columns t
  | None => True
  end.
Proof.
  unfold map_dataframe.
  destruct (last (gemeindestaende self)) as [newest|]; [|done].
  cbv zeta. destruct (resolve_origin self df origin) as [df' [o|e]] eqn:Er; [|done].
  simpl. intros [= <- Hres].
  assert (match origin with Some o' => o' = o | None => True end) as Ho.
  { revert Er. unfold resolve_origin. destruct origin as [o'|]; [|done]. cbv zeta.
    destruct (bool_decide _); [|congruence].
    destruct (_check_for_non_bfs_codes self df (list_to_set df.*1)) as [[? ?]|?]; congruence. }
  assert (exists targets mapping,
            (create_multi_mapping self _fetch_mapping o targets return_names).2 = Ok mapping /\
            merge_mapping df' o mapping = Ok t) as (targets & mapping & Hcall & Hmerge).
  { destruct (default (KwDate newest) target) as [d|ts|ts|].
    - destruct (create_mapping self _fetch_mapping o d (ExportBool return_names)).2; done.
    - apply bind_Ok_inv in Hres as (mapping & ? & ?). by exists (TargetTuple ts), mapping.
    - apply bind_Ok_inv in Hres as (mapping & ? & ?). by exists (TargetList ts), mapping.
    - destruct (_find_closest_official_gemeindestand self o "smaller"); done. }
  destruct mapping as [table|]; [|done].
  destruct (create_multi_mapping_Ok_hops _ _ _ _ _ _ Hcall) as [hops Hh].
  pose proof (create_multi_mapping_columns _ _ _ _ _ _ _ Hh Hcall) as Hcols.
  pose proof (hop_dates_catalog _ _ _ _ Hh) as Hcat.
  destruct table as [full|cols rows]; simpl in Hmerge, Hcols.
  - destruct (column_index o (columns full)) as [j|] eqn:Ej; [|done].
    injection Hmerge as <-. simpl. split; [apply merge_on_code_groups|]. split.
    + intros d Hd. apply Hcat. by rewrite <- Hcols.
    + destruct origin as [o'|]; [|done]. subst o'.
      apply column_index_Some in Ej. by eapply list_elem_of_lookup_2.
  - destruct (column_index o cols) as [j|] eqn:Ej; [|done].
    injection Hmerge as <-. simpl. split; [apply merge_on_code_groups|]. split.
    + intros d Hd. apply Hcat. by rewrite <- Hcols.
    + destruct origin as [o'|]; [|done]. subst o'.
      apply column_index_Some in Ej. by eapply list_elem_of_lookup_2.
Qed.

Lemma map_dataframe_keeps_rows_witness :
  let caller := [(1, "A"); (2, "B"); (1, "A")]%Z in
  let t := MergedCodes [d2018; d2019; d2020]
             [ (1, "A", Some [Some 1; Some 1; Some 10]);
               (1, "A", Some [Some 1; Some 1; Some 11]);
               (2, "B", Some [Some 2; Some 3; Some 3]);
               (1, "A", Some [Some 1; Some 1; Some 10]);
               (1, "A", Some [Some 1; Some 1; Some 11]) ]%Z in
  (exists groups,
     merged_left_rows t = concat groups /\
     Forall2 (fun r group => group <> [] /\ forall x, x ∈ group -> x = r) caller groups) /\
  (forall d, d ∈ merged_table_columns t -> d ∈ gemeindestaende cat3) /\
  d2018 ∈ merged_table_columns t.
Proof.
  apply (map_dataframe_keeps_rows cat3 fetch3 [(1, "A"); (2, "B"); (1, "A")]%Z
           (Some d2018) (Some (KwList [d2019; d2020])) false).
  reflexivity.
Defined.

(** ** The earlier copy of [create_multi_mapping] *)

Lemma legacy_find_closest_Ok (self : BaseMunicipalityData) (given_date : date)
    (prefer : string) (r : date) :
  legacy._find_closest_official_gemeindestand self given_date prefer = Ok r ->
  _find_closest_official_gemeindestand self given_date prefer = Ok r.
Proof.
  unfold legacy._find_closest_official_gemeindestand, _find_closest_official_gemeindestand.
  case_decide; [done|]. unfold legacy._nearest, _nearest.
  repeat case_decide; try done.
  - by destruct (filter _ (gemeindestaende self)).
  - by destruct (filter _ (gemeindestaende self)).
Qed.

Lemma snap_in_place_Ok (self : BaseMunicipalityData) (l l' : list date) :
  Forall2 (fun t t' => legacy._find_closest_official_gemeindestand self t "nearest" = Ok t')
          l l' ->
  legacy.snap_in_place self l = (l', Ok tt).
Proof.
  induction 1 as [|t t' l l' Ht _ IH]; [done|]. simpl. by rewrite Ht, IH.
Qed.

(** X25. The earlier [create_multi_mapping] changes the caller's list.
    Called with a list of targets on which the snapping succeeds, it leaves
    in the caller's list the snapped targets followed by the snapped origin;
    apart from that it issues the same requests as the current version and
    returns the same table (whose code columns it names
    [bfs_gmde_nummer_<date>]). *)
Theorem legacy_create_multi_mapping_mutates_targets (self : BaseMunicipalityData)
    (fetch_mapping : date -> date -> result (list edge))
    (origin : date) (l l' : list date) (return_names : bool) (o : date) :
  legacy._find_closest_official_gemeindestand self origin "smaller" = Ok o ->
  Forall2 (fun t t' => legacy._find_closest_official_gemeindestand self t "nearest" = Ok t')
          l l' ->
  let call := legacy.create_multi_mapping self fetch_mapping origin (TargetList l)
                return_names in
  call.1.1 = TargetList (l' ++ [o]) /\
  (call.1.2, call.2)
  = create_multi_mapping self fetch_mapping origin (TargetList l) return_names.
Proof.
  intros Ho Hl.
  assert (_validate_and_transform_targets self (TargetList l) = Ok l') as Hv.
  { simpl. apply comprehension_Forall2.
    eapply Forall2_impl; [exact Hl|]. intros t t'. apply legacy_find_closest_Ok. }
  unfold legacy.create_multi_mapping, create_multi_mapping, hop_dates.
  rewrite Ho, (legacy_find_closest_Ok _ _ _ _ Ho), Hv.
  unfold legacy.transform_targets. rewrite (snap_in_place_Ok _ _ _ Hl). simpl.
  by destruct (sorted_set (l' ++ [o])).
Qed.

Lemma legacy_create_multi_mapping_mutates_targets_witness :
  let call := legacy.create_multi_mapping cat3 fetch3 d2018
                (TargetList [(d2019 + 3)%Z; d2020]) true in
  call.1.1 = TargetList ([d2019; d2020] ++ [d2018]) /\
  (call.1.2, call.2)
  = create_multi_mapping cat3 fetch3 d2018 (TargetList [(d2019 + 3)%Z; d2020]) true.
Proof.
  apply (legacy_create_multi_mapping_mutates_targets cat3 fetch3 d2018
           [(d2019 + 3)%Z; d2020] [d2019; d2020] true d2018).
  - reflexivity.
  - repeat constructor.
Defined.

(** ** Single mapping against composed mapping, and the failures of the
    composed one *)

Lemma sorted_lt_unique (l1 l2 : list Z) :
  StronglySorted Z.lt l1 -> StronglySorted Z.lt l2 ->
  (forall x, x ∈ l1 <-> x ∈ l2) -> l1 = l2.
Proof.
  intros H1 H2 Hel.
  apply (StronglySorted_unique_strong Z.lt); [|done|done|].
  - intros x1 x2 _ _ ? ?. lia.
  - apply NoDup_Permutation; [by apply StronglySorted_lt_NoDup..|done].
Qed.

(** X26. Direction.  For a target that snaps to a state earlier than the
    state of the origin, [create_mapping] requests the correspondence from
    the origin to the target as asked, while [create_multi_mapping] with the
    same single target requests it from the target to the origin: the
    composed mapping always runs forward in time. *)
Theorem create_mapping_keeps_direction (self : BaseMunicipalityData)
    (_fetch_mapping : date -> date -> result (list edge))
    (origin target : date) (return_names : bool) (o t : date) :
  _find_closest_official_gemeindestand self origin "smaller" = Ok o ->
  _find_closest_official_gemeindestand self target "nearest" = Ok t ->
  (t < o)%Z ->
  (create_mapping self _fetch_mapping origin target ExportNone).1.1 = [(o, t)] /\
  (create_multi_mapping self _fetch_mapping origin (TargetList [target]) return_names).1
  = [(t, o)].
Proof.
  intros Ho Ht Hlt. split.
  - unfold create_mapping. rewrite Ho, Ht. by destruct (_fetch_mapping o t).
  - unfold create_multi_mapping, hop_dates. rewrite Ho. simpl. rewrite Ht. simpl.
    assert (sorted_set [t; o] = [t; o]) as ->; [|done].
    destruct (sorted_set_spec [t; o]) as [Hs Hel].
    apply sorted_lt_unique; [done| |done].
    repeat constructor. done.
Qed.

Lemma create_mapping_keeps_direction_witness :
  (create_mapping cat3 fetch3 d2020 (d2018 + 3)%Z ExportNone).1.1 = [(d2020, d2018)] /\
  (create_multi_mapping cat3 fetch3 d2020 (TargetList [(d2018 + 3)%Z]) true).1
  = [(d2018, d2020)].
Proof.
  apply (create_mapping_keeps_direction cat3 fetch3 d2020 (d2018 + 3)%Z true d2020 d2018).
  - reflexivity.
  - reflexivity.
  - reflexivity.
Defined.



(** X28. [_infer_gemeindestand] returns the newest state of the catalog
    that lists every code of the set: it returns a state exactly when that
    state lists them all and no state after it in the catalog does; it
    raises, and then [ValueError], exactly when no state lists them all; and
    for the empty set it returns the last state of the catalog. *)
Theorem infer_gemeindestand_newest_state (self : BaseMunicipalityData)
    (gemeinde_set : gset Z) :
  (forall g, _infer_gemeindestand self gemeinde_set = Ok g <->
     exists older newer,
       gemeindestaende self = older ++ g :: newer /\
       gemeinde_set ⊆ unique_gemeinden self g /\
       forall h, h ∈ newer -> ¬ gemeinde_set ⊆ unique_gemeinden self h) /\
  (forall e, _infer_gemeindestand self gemeinde_set = Raise e <->
     e = ValueError /\
     forall h, h ∈ gemeindestaende self -> ¬ gemeinde_set ⊆ unique_gemeinden self h) /\
  (forall newest, last (gemeindestaende self) = Some newest ->
     _infer_gemeindestand self ∅ = Ok newest).
Proof.
  split; [|split].
  - intros g. apply infer_gemeindestand_Ok.
  - intros e. apply infer_gemeindestand_Raise.
  - intros newest Hlast. apply infer_gemeindestand_Ok.
    apply last_Some in Hlast as [older Hcat]. exists older, [].
    split; [done|]. split; [apply empty_subseteq|]. by intros h ?%elem_of_nil.
Qed.

(** ** Order of the targets, and the projected values *)

Lemma find_closest_Raise_ValueError (self : BaseMunicipalityData) (given_date : date)
    (prefer : string) (e : exn) :
  _find_closest_official_gemeindestand self given_date prefer = Raise e -> e = ValueError.
Proof.
  unfold _find_closest_official_gemeindestand. case_decide; [done|].
  unfold _nearest, nearest_any.
  repeat case_decide; destruct (gemeindestaende self);
    try destruct (filter _ _); congruence.
Qed.

Lemma validate_list_same_elements (self : BaseMunicipalityData) (l l' : list date) :
  (forall d, d ∈ l <-> d ∈ l') ->
  match _validate_and_transform_targets self (TargetList l),
        _validate_and_transform_targets self (TargetList l') with
  | Ok ts, Ok ts' => forall d, d ∈ ts <-> d ∈ ts'
  | Raise e, Raise e' => e = e'
  | _, _ => False
  end.
Proof.
  assert (forall l l' : list date,
            (forall d, d ∈ l -> d ∈ l') ->
            match _validate_and_transform_targets self (TargetList l),
                  _validate_and_transform_targets self (TargetList l') with
            | Ok ts, Ok ts' => forall d, d ∈ ts -> d ∈ ts'
            | Raise e, Raise e' => e = e'
            | Raise _, Ok _ => False
            | Ok _, Raise _ => True
            end) as Hhalf.
  { clear. intros l l' Hsub. simpl.
    destruct (comprehension _ l) as [ts|e] eqn:El;
      destruct (comprehension _ l') as [ts'|e'] eqn:El'; try done.
    - apply comprehension_Forall2 in El, El'. intros d Hd.
      apply list_elem_of_lookup in Hd as [i Hi].
      destruct (Forall2_lookup_r _ _ _ _ _ El Hi) as (t & Ht & Hsnap).
      assert (t ∈ l') as Hin by (apply Hsub; by eapply list_elem_of_lookup_2).
      apply list_elem_of_lookup in Hin as [j Hj].
      destruct (Forall2_lookup_l _ _ _ _ _ El' Hj) as (d' & Hd' & Hsnap').
      assert (d' = d) as -> by congruence. by eapply list_elem_of_lookup_2.
    - apply comprehension_Raise_inv in El as (t & Hin & Ht).
      apply comprehension_Forall2 in El'. apply Hsub in Hin.
      apply list_elem_of_lookup in Hin as [j Hj].
      destruct (Forall2_lookup_l _ _ _ _ _ El' Hj) as (d' & _ & Hsnap'). congruence.
    - apply comprehension_Raise_inv in El as (t & _ & Ht).
      apply comprehension_Raise_inv in El' as (t' & _ & Ht').
      apply find_closest_Raise_ValueError in Ht, Ht'. congruence. }
  intros Hel.
  pose proof (Hhalf l l' (fun d => proj1 (Hel d))) as H1.
  pose proof (Hhalf l' l (fun d => proj2 (Hel d))) as H2.
  destruct (_validate_and_transform_targets self (TargetList l)),
           (_validate_and_transform_targets self (TargetList l')); try done.
  intros d. split; [apply H1 | apply H2].
Qed.

(** X29. The order and the repetitions of the targets in a list do not
    matter: two target lists with the same dates make [create_multi_mapping]
    issue the same requests and return the same result or raise the same
    error. *)
Theorem create_multi_mapping_targets_as_set (self : BaseMunicipalityData)
    (_fetch_mapping : date -> date -> result (list edge))
    (origin : date) (l l' : list date) (return_names : bool) :
  (forall d, d ∈ l <-> d ∈ l') ->
  create_multi_mapping self _fetch_mapping origin (TargetList l) return_names
  = create_multi_mapping self _fetch_mapping origin (TargetList l') return_names.
Proof.
  intros Hel.
  assert (hop_dates self origin (TargetList l) = hop_dates self origin (TargetList l'))
    as Hh.
  { unfold hop_dates.
    destruct (_find_closest_official_gemeindestand self origin "smaller") as [o|e];
      [|done].
    pose proof (validate_list_same_elements self l l' Hel) as Hv.
    destruct (_validate_and_transform_targets self (TargetList l)) as [ts|e],
             (_validate_and_transform_targets self (TargetList l')) as [ts'|e'];
      try done; [|by subst].
    simpl. f_equal.
    destruct (sorted_set_spec (ts ++ [o])) as [Hs1 He1].
    destruct (sorted_set_spec (ts' ++ [o])) as [Hs2 He2].
    apply sorted_lt_unique; [done|done|].
    intros d. rewrite He1, He2, !elem_of_app, Hv. done. }
  unfold create_multi_mapping. by rewrite Hh.
Qed.

Lemma create_multi_mapping_targets_as_set_witness :
  create_multi_mapping cat3 fetch3 d2018 (TargetList [d2020; d2019; d2020]) true
  = create_multi_mapping cat3 fetch3 d2018 (TargetList [d2019; d2020]) true.
Proof.
  apply (create_multi_mapping_targets_as_set cat3 fetch3 d2018
           [d2020; d2019; d2020] [d2019; d2020] true).
  intros d. rewrite !elem_of_cons. tauto.
Defined.

Lemma project_row_projected_values (_fetch_mapping : date -> date -> result (list edge))
    (newest : date) (r : row) :
  map (projected newest) (project_row _fetch_mapping newest (init_row newest r))
  = match stand r with
    | None => [Some (Int 0)]
    | Some origin =>
        if decide (origin = newest) then [Some (Int (default 0%Z (code r)))]
        else match edges_of _fetch_mapping newest (init_row newest r) with
             | [] => [Some (Int 0)]
             | matches => map (fun m => Some (Int m.2)) matches
             end
    end.
Proof.
  unfold project_row. rewrite init_row_stand.
  assert (forall v, projected newest (set_extra (BfsGmdeCode newest) v (init_row newest r))
                    = Some v) as Hset.
  { intros v. unfold projected. simpl. by rewrite dict_get_set_eq. }
  destruct (stand r) as [origin|] eqn:Est.
  - destruct (decide (origin = newest)) as [->|Hne].
    + rewrite decide_True by done. simpl. by rewrite Hset.
    + rewrite decide_False by congruence.
      destruct (edges_of _fetch_mapping newest (init_row newest r)) as [|m ms].
      * simpl. by rewrite projected_init.
      * rewrite map_map. apply map_ext. intros m'. apply Hset.
  - rewrite decide_False by done.
    assert (edges_of _fetch_mapping newest (init_row newest r) = []) as ->.
    { unfold edges_of. by rewrite init_row_stand, Est. }
    simpl. by rewrite projected_init.
Qed.

Lemma typed_projector_projected_values
    (_fetch_mapping : date -> date -> result (list edge)) (df out : list row)
    (newest : date) :
  last (merge_sort Z.le (unique (omap stand df))) = Some newest ->
  (map_multiple_gemeindestaende_to_newest _fetch_mapping df).2 = Ok out ->
  exists groups,
    out = concat groups /\
    Forall2 (fun r group =>
               match stand r with
               | None => map (projected newest) group = [Some (Int 0)]
               | Some origin =>
                   if decide (origin = newest)
                   then map (projected newest) group = [Some (Int (default 0%Z (code r)))]
                   else exists table cast,
                          _fetch_mapping origin newest = Ok table /\
                          int_columns table = Ok cast /\
                          map (projected newest) group
                          = match filter (fun m => m.1 = default 0%Z (code r)) cast with
                            | [] => [Some (Int 0)]
                            | matches => map (fun m => Some (Int m.2)) matches
                            end
               end)
            df groups.
Proof.
  intros Hnewest (newest' & Hlast & Hfetch & ->)%projector_returns.
  assert (newest' = newest) as -> by congruence.
  exists (map (fun r => project_row _fetch_mapping newest (init_row newest r)) df).
  split.
  - by rewrite concat_map_flat_map, flat_map_map.
  - apply Forall2_fmap_r, Forall_Forall2_diag, Forall_forall. intros r Hr.
    unfold compose. rewrite project_row_projected_values.
    destruct (stand r) as [origin|] eqn:Est; [|done].
    destruct (decide (origin = newest)) as [|Hne]; [done|].
    destruct (Hfetch origin) as [cast Hcast]; [|done|].
    { apply list_elem_of_omap. by exists r. }
    destruct (_fetch_mapping origin newest) as [table|] eqn:Et; [|done].
    simpl in Hcast. exists table, cast. split; [done|]. split; [done|].
    unfold edges_of. rewrite init_row_stand, Est, decide_False, Et by done.
    simpl. rewrite Hcast.
    assert (filter (fun m : Z * Z => Some (default 0%Z (code r)) = Some m.1) cast
            = filter (fun m : Z * Z => m.1 = default 0%Z (code r)) cast) as ->; [|done].
    apply filter_ext_elem. intros m _. split; congruence.
Qed.


(** ** The projector on the cells of the caller *)

Lemma raw_stands_typed (df : list raw_row) (codes : list Z) :
  length codes = length df ->
  omap stand (zip_with raw.typed df codes)
  = omap (fun r => match raw_stand r with StandDate d => Some d | _ => None end) df.
Proof.
  revert codes. induction df as [|r df IH]; intros [|z codes] Hlen; try done.
  simpl in *. rewrite IH by lia. done.
Qed.

Lemma raw_strptime_Ok (df : list raw_row) :
  Forall (fun r => date_or_missing (raw_stand r)) df ->
  comprehension raw.strptime (filter (fun x => x <> StandNA) (raw_stand <$> df))
  = Ok (omap (fun r => match raw_stand r with StandDate d => Some d | _ => None end) df).
Proof.
  induction 1 as [|r df Hr _ IH]; [done|]. csimpl.
  destruct (raw_stand r) as [|d|s] eqn:E.
  - rewrite filter_cons_False by (intros H; by apply H). done.
  - rewrite filter_cons_True by done. simpl. by rewrite IH.
  - done.
Qed.

Lemma raw_strptime_Raise (df : list raw_row) :
  ¬ Forall (fun r => date_or_missing (raw_stand r)) df ->
  comprehension raw.strptime (filter (fun x => x <> StandNA) (raw_stand <$> df))
  = Raise ValueError.
Proof.
  induction df as [|r df IH]; intros Hn; [by destruct Hn|]. csimpl.
  destruct (raw_stand r) as [|d|s] eqn:E.
  - rewrite filter_cons_False by (intros H; by apply H).
    apply IH. intros Hall. apply Hn. constructor; [by rewrite E | done].
  - rewrite filter_cons_True by done. simpl.
    rewrite IH; [done|]. intros Hall. apply Hn. constructor; [by rewrite E | done].
  - rewrite filter_cons_True by done. done.
Qed.

Lemma raw_projector_typed (_fetch_mapping : date -> date -> result (list edge))
    (astype_overflow : code_value -> result Z) (df : list raw_row) (codes : list Z)
    (newest : date) :
  Forall (fun r => date_or_missing (raw_stand r)) df ->
  comprehension (raw.astype_int astype_overflow) (raw_code <$> df) = Ok codes ->
  last (merge_sort Z.le (unique (omap stand (zip_with raw.typed df codes)))) = Some newest ->
  raw.map_multiple_gemeindestaende_to_newest _fetch_mapping astype_overflow df
  = (raw.untyped <$>
       (map_multiple_gemeindestaende_to_newest _fetch_mapping
          (zip_with raw.typed df codes)).1,
     (map_multiple_gemeindestaende_to_newest _fetch_mapping
        (zip_with raw.typed df codes)).2).
Proof.
  intros Hstands Hcodes Hlast.
  assert (length codes = length df) as Hlen.
  { apply comprehension_length in Hcodes. by rewrite Hcodes, length_fmap. }
  unfold raw.map_multiple_gemeindestaende_to_newest. cbv zeta.
  rewrite raw_strptime_Ok by done.
  rewrite raw_stands_typed in Hlast by done. rewrite Hlast, Hcodes. done.
Qed.

Lemma raw_projector_Ok_inv (_fetch_mapping : date -> date -> result (list edge))
    (astype_overflow : code_value -> result Z) (df : list raw_row) (out : list row) :
  (raw.map_multiple_gemeindestaende_to_newest _fetch_mapping astype_overflow df).2 = Ok out ->
  Forall (fun r => date_or_missing (raw_stand r)) df /\
  exists codes newest,
    comprehension (raw.astype_int astype_overflow) (raw_code <$> df) = Ok codes /\
    last (merge_sort Z.le (unique (omap stand (zip_with raw.typed df codes)))) = Some newest /\
    (map_multiple_gemeindestaende_to_newest _fetch_mapping (zip_with raw.typed df codes)).2
    = Ok out.
Proof.
  destruct (decide (Forall (fun r => date_or_missing (raw_stand r)) df))
    as [Hstands|Hn].
  2: { unfold raw.map_multiple_gemeindestaende_to_newest. cbv zeta.
       by rewrite raw_strptime_Raise. }
  intros Hres. split; [done|]. revert Hres.
  unfold raw.map_multiple_gemeindestaende_to_newest. cbv zeta.
  rewrite raw_strptime_Ok by done.
  destruct (last _) as [newest|] eqn:Elast; [|done].
  destruct (comprehension (raw.astype_int astype_overflow) (raw_code <$> df))
    as [codes|e] eqn:Ec; [|done].
  simpl. intros Hres. exists codes, newest. split; [done|]. split; [|done].
  rewrite raw_stands_typed; [done|].
  apply comprehension_length in Ec. by rewrite Ec, length_fmap.
Qed.

Lemma typed_projector_caller (_fetch_mapping : date -> date -> result (list edge))
    (df : list row) (newest : date) :
  last (merge_sort Z.le (unique (omap stand df))) = Some newest ->
  (map_multiple_gemeindestaende_to_newest _fetch_mapping df).1 = map (init_row newest) df \/
  (map_multiple_gemeindestaende_to_newest _fetch_mapping df).1
  = copy_newest newest (map (init_row newest) df).
Proof.
  intros Hlast. unfold map_multiple_gemeindestaende_to_newest. cbv zeta.
  rewrite Hlast, init_rows_map.
  generalize (removelast (merge_sort Z.le (unique (omap stand df)))). intros origins.
  destruct (comprehension (fun origin => _fetch_mapping origin newest) origins)
    as [mappings|e]; [|by left].
  destruct origins as [|o origins]; [by right|].
  destruct (for_each (project_step newest) (zip (o :: origins) mappings)
              (map (init_row newest) df)); by left.
Qed.

Lemma typed_projector_caller_stands (_fetch_mapping : date -> date -> result (list edge))
    (df : list row) (newest : date) :
  last (merge_sort Z.le (unique (omap stand df))) = Some newest ->
  stand <$> (map_multiple_gemeindestaende_to_newest _fetch_mapping df).1 = stand <$> df.
Proof.
  intros Hlast.
  assert (stand <$> map (init_row newest) df = stand <$> df) as Hinit.
  { clear. induction df as [|r df IH]; [done|]. csimpl. by rewrite IH. }
  destruct (typed_projector_caller _fetch_mapping df newest Hlast) as [-> | ->]; [done|].
  rewrite <- Hinit. unfold copy_newest.
  generalize (map (init_row newest) df). clear. intros l.
  induction l as [|r l IH]; [done|]. csimpl. rewrite IH. by case_decide.
Qed.

Lemma raw_typed_rows {B} (astype_overflow : code_value -> result Z)
    (Q : row -> B -> Prop) (df : list raw_row) (codes : list Z) (ys : list B) :
  comprehension (raw.astype_int astype_overflow) (raw_code <$> df) = Ok codes ->
  Forall (fun r => date_or_missing (raw_stand r)) df ->
  Forall2 Q (zip_with raw.typed df codes) ys ->
  Forall2 (fun r y =>
             date_or_missing (raw_stand r) /\
             exists z, raw.astype_int astype_overflow (raw_code r) = Ok z /\
                       Q (raw.typed r z) y)
          df ys.
Proof.
  intros Hc%comprehension_Forall2 Hd. apply Forall2_fmap_l in Hc.
  revert ys. induction Hc as [|r z df codes Hz _ IH]; intros ys HQ.
  - apply Forall2_nil_inv_l in HQ as ->. constructor.
  - simpl in HQ. apply Forall2_cons_inv_l in HQ as (g & ys' & HQ1 & HQ2 & ->).
    apply Forall_cons in Hd as [Hd1 Hd2].
    constructor; [split; [done | by exists z] | by apply IH].
Qed.

Lemma elem_of_raw_stands (df : list raw_row) (codes : list Z) (o : date) :
  length codes = length df ->
  o ∈ omap stand (zip_with raw.typed df codes) <-> StandDate o ∈ raw_stand <$> df.
Proof.
  intros Hlen. rewrite raw_stands_typed by done.
  rewrite list_elem_of_omap, list_elem_of_fmap. split.
  - intros (r & Hr & Ho). exists r. split; [|done].
    destruct (raw_stand r); congruence.
  - intros (r & Ho & Hr). exists r. split; [done|]. by rewrite <- Ho.
Qed.

Lemma raw_caller_codes (_fetch_mapping : date -> date -> result (list edge))
    (df : list raw_row) (codes : list Z) (newest : date) :
  length codes = length df ->
  last (merge_sort Z.le (unique (omap stand (zip_with raw.typed df codes)))) = Some newest ->
  raw_code <$> (raw.untyped <$>
                  (map_multiple_gemeindestaende_to_newest _fetch_mapping
                     (zip_with raw.typed df codes)).1)
  = CodeInt <$> codes.
Proof.
  intros Hlen Hlast.
  destruct (typed_projector_fills_caller_codes _fetch_mapping _ newest Hlast)
    as (Hc & _).
  rewrite <- list_fmap_compose.
  transitivity ((fun c => match c with Some z => CodeInt z | None => CodeNA end)
                  <$> (code <$> (map_multiple_gemeindestaende_to_newest _fetch_mapping
                                   (zip_with raw.typed df codes)).1)).
  { by rewrite <- list_fmap_compose. }
  rewrite Hc. clear -Hlen. revert codes Hlen.
  induction df as [|r df IH]; intros [|z codes] Hlen; try done.
  csimpl. f_equal. apply IH. simpl in Hlen. lia.
Qed.

Lemma raw_untyped_typed (r : raw_row) (z : Z) (r' : row) :
  date_or_missing (raw_stand r) -> stand r' = stand (raw.typed r z) ->
  raw_stand (raw.untyped r') = raw_stand r.
Proof.
  intros Hd Hs. unfold raw.untyped. simpl. rewrite Hs. simpl.
  by destruct (raw_stand r).
Qed.

(** C8 (amended).  When every Gemeindestand cell of the data is a date or
    missing, the data holds a Gemeindestand older than its newest, every code
    cell can be cast to int, and the table of every older Gemeindestand is
    fetched and can be cast, the call succeeds and returns the rows of
    [project_row]: a row of an
    older or missing Gemeindestand that matches no edge is returned once,
    holding the 0 the projected column was initialised with; a matching row
    is returned once per matching edge with the terminal code; a row of the
    newest Gemeindestand holds its own code; and no returned row holds a
    missing value in the projected column.  (The older copy of the class
    starts the column as [pd.NA], which is what an unmatched row keeps
    there.) *)
Theorem projector_unmatched_rows
    (_fetch_mapping : date -> date -> result (list edge))
    (astype_overflow : code_value -> result Z)
    (df : list raw_row) (codes : list Z) (newest : date) :
  Forall (fun r => date_or_missing (raw_stand r)) df ->
  comprehension (raw.astype_int astype_overflow) (raw_code <$> df) = Ok codes ->
  last (merge_sort Z.le (unique (omap stand (zip_with raw.typed df codes)))) = Some newest ->
  (exists o, o ∈ omap stand (zip_with raw.typed df codes) /\ o <> newest) ->
  (forall o, o ∈ omap stand (zip_with raw.typed df codes) -> o <> newest ->
             is_Ok (_fetch_mapping o newest ≫= int_columns)) ->
  exists out,
    (raw.map_multiple_gemeindestaende_to_newest _fetch_mapping astype_overflow df).2
    = Ok out /\
    out = flat_map (project_row _fetch_mapping newest)
                   (map (init_row newest) (zip_with raw.typed df codes)) /\
    (forall r,
       r ∈ zip_with raw.typed df codes -> stand r <> Some newest ->
       edges_of _fetch_mapping newest (init_row newest r) = [] ->
       init_row newest r ∈ out /\
       project_row _fetch_mapping newest (init_row newest r) = [init_row newest r] /\
       projected newest (init_row newest r) = Some (Int 0)) /\
    (forall r', r' ∈ out ->
       (exists z, projected newest r' = Some (Int z)) /\ ¬ missing (projected newest r')).
Proof.
  intros Hstands Hcodes Hlast _ Hfetch.
  rewrite (raw_projector_typed _ _ _ _ _ Hstands Hcodes Hlast). simpl.
  by apply typed_projector_unmatched_rows.
Qed.

Lemma projector_unmatched_rows_witness :
  let df := [ {| raw_code := CodeFloat 77; raw_stand := StandDate d2018;
                 raw_extra := [(Col "name", Str "zz")] |};
              {| raw_code := CodeNA; raw_stand := StandNA;
                 raw_extra := [(Col "name", Str "?")] |};
              {| raw_code := CodeInt 1; raw_stand := StandDate d2019;
                 raw_extra := [(Col "name", Str "A")] |};
              {| raw_code := CodeInt 4; raw_stand := StandDate d2021;
                 raw_extra := [(Col "name", Str "D")] |} ]%Z in
  let rows := zip_with raw.typed df [77; 0; 1; 4]%Z in
  exists out,
    (raw.map_multiple_gemeindestaende_to_newest fetch3 wrap_int64 df).2
    = Ok out /\
    out = flat_map (project_row fetch3 d2021) (map (init_row d2021) rows) /\
    (forall r,
       r ∈ rows -> stand r <> Some d2021 ->
       edges_of fetch3 d2021 (init_row d2021 r) = [] ->
       init_row d2021 r ∈ out /\
       project_row fetch3 d2021 (init_row d2021 r) = [init_row d2021 r] /\
       projected d2021 (init_row d2021 r) = Some (Int 0)) /\
    (forall r', r' ∈ out ->
       (exists z, projected d2021 r' = Some (Int z)) /\ ¬ missing (projected d2021 r')).
Proof.
  apply (projector_unmatched_rows fetch3 wrap_int64
           [ {| raw_code := CodeFloat 77; raw_stand := StandDate d2018;
                raw_extra := [(Col "name", Str "zz")] |};
             {| raw_code := CodeNA; raw_stand := StandNA;
                raw_extra := [(Col "name", Str "?")] |};
             {| raw_code := CodeInt 1; raw_stand := StandDate d2019;
                raw_extra := [(Col "name", Str "A")] |};
             {| raw_code := CodeInt 4; raw_stand := StandDate d2021;
                raw_extra := [(Col "name", Str "D")] |} ]%Z
           [77; 0; 1; 4]%Z d2021).
  - by_compute.
  - reflexivity.
  - by vm_compute.
  - exists d2018. split; by_compute.
  - intros o Ho Hne. change (o ∈ [d2018; d2019; d2021]) in Ho.
    apply elem_of_cons in Ho as [->|Ho]; [by eexists|].
    apply elem_of_cons in Ho as [->|Ho]; [by eexists|].
    apply list_elem_of_singleton in Ho. done.
Defined.

(** C10.  Once lines 543 and 548 have passed (every Gemeindestand cell is a
    date or missing, at least one is a date, and every code cell can be
    cast), the caller's DataFrame has after the call, whether the call then
    returns or raises, its code column replaced by the cast column: every
    cell is an int, the int that [fillna(0).astype(int)] makes of the cell
    the caller passed (0 for a missing one, the truncated value for a
    float), and the projected column has been added; the Gemeindestand
    column is as it was.  A DataFrame with a code cell that is not an int is
    therefore not given back as it was. *)
Theorem projector_fills_caller_codes
    (_fetch_mapping : date -> date -> result (list edge))
    (astype_overflow : code_value -> result Z)
    (df : list raw_row) (codes : list Z) (newest : date) :
  Forall (fun r => date_or_missing (raw_stand r)) df ->
  comprehension (raw.astype_int astype_overflow) (raw_code <$> df) = Ok codes ->
  last (merge_sort Z.le (unique (omap stand (zip_with raw.typed df codes)))) = Some newest ->
  let caller :=
    (raw.map_multiple_gemeindestaende_to_newest _fetch_mapping astype_overflow df).1 in
  raw_code <$> caller = CodeInt <$> codes /\
  Forall2 (fun r r' =>
             exists z, raw.astype_int astype_overflow (raw_code r) = Ok z /\
                       raw_code r' = CodeInt z)
          df caller /\
  raw_stand <$> caller = raw_stand <$> df /\
  (forall r, r ∈ caller -> is_Some (dict_get (BfsGmdeCode newest) (raw_extra r))) /\
  ((exists r, r ∈ df /\ forall z, raw_code r <> CodeInt z) ->
   raw_code <$> caller <> raw_code <$> df).
Proof.
  intros Hstands Hcodes Hlast caller. subst caller.
  rewrite (raw_projector_typed _ _ _ _ _ Hstands Hcodes Hlast). simpl.
  assert (length codes = length df) as Hlen.
  { apply comprehension_length in Hcodes. by rewrite Hcodes, length_fmap. }
  destruct (typed_projector_fills_caller_codes _fetch_mapping _ newest Hlast)
    as (Hc & _ & Hproj & _).
  pose proof (typed_projector_caller_stands _fetch_mapping _ newest Hlast) as Hs.
  set (caller := (map_multiple_gemeindestaende_to_newest _fetch_mapping
                    (zip_with raw.typed df codes)).1) in *.
  pose proof (raw_caller_codes _fetch_mapping df codes newest Hlen Hlast) as Hraw.
  fold caller in Hraw.
  split_and!.
  - done.
  - apply Forall2_same_length_lookup. split.
    + apply (f_equal length) in Hraw. rewrite !length_fmap in Hraw.
      rewrite length_fmap. lia.
    + intros i r r' Hr Hr'.
      assert (exists z, codes !! i = Some z) as [z Hz].
      { apply lookup_lt_is_Some. rewrite Hlen. by eapply lookup_lt_Some. }
      exists z. split.
      * apply comprehension_Forall2 in Hcodes.
        assert ((raw_code <$> df) !! i = Some (raw_code r)) as Hri
          by by rewrite list_lookup_fmap, Hr.
        exact (Forall2_lookup_lr _ _ _ _ _ _ Hcodes Hri Hz).
      * apply (f_equal (fun l => l !! i)) in Hraw.
        rewrite !list_lookup_fmap, Hz in Hraw. rewrite list_lookup_fmap in Hr'.
        rewrite Hr' in Hraw. simpl in Hraw. by injection Hraw.
  - rewrite <- list_fmap_compose.
    transitivity ((fun s => match s with Some d => StandDate d | None => StandNA end)
                    <$> (stand <$> caller)).
    { by rewrite <- list_fmap_compose. }
    rewrite Hs. clear -Hstands Hlen. revert codes Hlen.
    induction Hstands as [|r df Hr _ IH]; intros [|z codes] Hlen; try done.
    csimpl. f_equal; [by destruct (raw_stand r) | apply IH; simpl in Hlen; lia].
  - intros r (r0 & -> & Hr0)%list_elem_of_fmap. simpl. by apply Hproj.
  - intros (r & Hr & Hni) Heq. rewrite Hraw in Heq.
    apply list_elem_of_lookup in Hr as [i Hi].
    apply (f_equal (fun l => l !! i)) in Heq.
    rewrite !list_lookup_fmap, Hi in Heq. simpl in Heq.
    destruct (codes !! i) as [z|]; [|done]. simpl in Heq.
    injection Heq as Heq. by destruct (Hni z).
Qed.

Lemma projector_fills_caller_codes_witness :
  let df := [ {| raw_code := CodeNA; raw_stand := StandDate d2019;
                 raw_extra := [(Col "name", Str "A")] |};
              {| raw_code := CodeFloat 4; raw_stand := StandDate d2021;
                 raw_extra := [(Col "name", Str "D")] |} ]%Z in
  let caller :=
    (raw.map_multiple_gemeindestaende_to_newest fetch3 wrap_int64 df).1 in
  raw_code <$> caller = CodeInt <$> [0; 4]%Z /\
  Forall2 (fun r r' =>
             exists z, raw.astype_int wrap_int64 (raw_code r) = Ok z /\
                       raw_code r' = CodeInt z)
          df caller /\
  raw_stand <$> caller = raw_stand <$> df /\
  (forall r, r ∈ caller -> is_Some (dict_get (BfsGmdeCode d2021) (raw_extra r))) /\
  ((exists r, r ∈ df /\ forall z, raw_code r <> CodeInt z) ->
   raw_code <$> caller <> raw_code <$> df).
Proof.
  apply (projector_fills_caller_codes fetch3 wrap_int64
           [ {| raw_code := CodeNA; raw_stand := StandDate d2019;
                raw_extra := [(Col "name", Str "A")] |};
             {| raw_code := CodeFloat 4; raw_stand := StandDate d2021;
                raw_extra := [(Col "name", Str "D")] |} ]%Z
           [0; 4]%Z d2021).
  - by_compute.
  - reflexivity.
  - by vm_compute.
Defined.

Lemma raw_projector_cast_raises (_fetch_mapping : date -> date -> result (list edge))
    (astype_overflow : code_value -> result Z) (df : list raw_row) (e : exn) :
  Forall (fun r => date_or_missing (raw_stand r)) df ->
  (exists r d, r ∈ df /\ raw_stand r = StandDate d) ->
  comprehension (raw.astype_int astype_overflow) (raw_code <$> df) = Raise e ->
  exists newest,
    raw.map_multiple_gemeindestaende_to_newest _fetch_mapping astype_overflow df
    = (map (fun r => {| raw_code := raw_code r; raw_stand := raw_stand r;
                        raw_extra := dict_set (BfsGmdeCode newest) (Int 0) (raw_extra r) |})
           df,
       Raise e).
Proof.
  intros Hstands (r & d & Hr & Hd) Hcast.
  unfold raw.map_multiple_gemeindestaende_to_newest. cbv zeta.
  rewrite raw_strptime_Ok by done.
  destruct (last _) as [newest|] eqn:Elast.
  - rewrite Hcast. by exists newest.
  - apply last_None_inv, merge_sort_nil_inv, unique_nil_inv in Elast.
    assert (d ∈ (omap (fun r => match raw_stand r with StandDate d => Some d | _ => None end)
                   df)) as Hin.
    { apply list_elem_of_omap. exists r. by rewrite Hd. }
    rewrite Elast in Hin. by apply elem_of_nil in Hin.
Qed.

(** X18. Failures of the projector, and what they leave in the caller's
    data.  A Gemeindestand cell that is a string but no date makes the call
    raise the [ValueError] of line 543, the caller's data untouched.  Data
    without any Gemeindestand makes it raise [IndexError], the caller's data
    untouched.  With Gemeindestaende that parse, a code cell that cannot be
    cast makes it raise the error of the first such cell at line 548; the
    caller's data then keeps its codes and Gemeindestaende and has the new
    column, set to 0.  And when the cells are fine and the request from one
    of the older Gemeindestaende of the data to the newest raises, the call
    raises, and the caller's data is left with the cast codes. *)
Theorem projector_failure_modes
    (_fetch_mapping : date -> date -> result (list edge))
    (astype_overflow : code_value -> result Z) (df : list raw_row) :
  let call := raw.map_multiple_gemeindestaende_to_newest _fetch_mapping astype_overflow df in
  ((exists r s, r ∈ df /\ raw_stand r = StandText s) -> call = (df, Raise ValueError)) /\
  ((forall r, r ∈ df -> raw_stand r = StandNA) -> call = (df, Raise IndexError)) /\
  (forall e,
     Forall (fun r => date_or_missing (raw_stand r)) df ->
     (exists r d, r ∈ df /\ raw_stand r = StandDate d) ->
     comprehension (raw.astype_int astype_overflow) (raw_code <$> df) = Raise e ->
     call.2 = Raise e /\
     raw_code <$> call.1 = raw_code <$> df /\ raw_stand <$> call.1 = raw_stand <$> df /\
     (exists r, r ∈ df /\ raw.astype_int astype_overflow (raw_code r) = Raise e) /\
     exists newest, forall r', r' ∈ call.1 ->
       dict_get (BfsGmdeCode newest) (raw_extra r') = Some (Int 0)) /\
  (forall codes newest origin e,
     Forall (fun r => date_or_missing (raw_stand r)) df ->
     comprehension (raw.astype_int astype_overflow) (raw_code <$> df) = Ok codes ->
     last (merge_sort Z.le (unique (omap stand (zip_with raw.typed df codes))))
     = Some newest ->
     StandDate origin ∈ raw_stand <$> df -> origin <> newest ->
     _fetch_mapping origin newest = Raise e ->
     (exists origin' e', StandDate origin' ∈ raw_stand <$> df /\ origin' <> newest /\
                         _fetch_mapping origin' newest = Raise e' /\ call.2 = Raise e') /\
     raw_code <$> call.1 = CodeInt <$> codes).
Proof.
  intros call. subst call. split_and!.
  - intros (r & s & Hr & Hs).
    unfold raw.map_multiple_gemeindestaende_to_newest. cbv zeta.
    rewrite raw_strptime_Raise; [done|].
    intros Hall. rewrite Forall_forall in Hall. specialize (Hall r Hr). by rewrite Hs in Hall.
  - intros Hall.
    unfold raw.map_multiple_gemeindestaende_to_newest. cbv zeta.
    rewrite raw_strptime_Ok.
    2: { apply Forall_forall. intros r Hr. by rewrite (Hall r Hr). }
    assert (omap (fun r => match raw_stand r with StandDate d => Some d | _ => None end) df
            = []) as ->; [|done].
    clear -Hall. induction df as [|r df IH]; [done|]. simpl.
    rewrite (Hall r) by left. apply IH. intros r' Hr'. apply Hall. by right.
  - intros e Hstands Hdate Hcast.
    destruct (raw_projector_cast_raises _fetch_mapping astype_overflow df e
                Hstands Hdate Hcast) as [newest ->]. simpl.
    split; [done|]. split; [by rewrite <- list_fmap_compose|].
    split; [by rewrite <- list_fmap_compose|]. split.
    + apply comprehension_Raise_inv in Hcast as (c & (r & -> & Hr)%list_elem_of_fmap & Hc).
      by exists r.
    + exists newest. intros r' (r & -> & _)%elem_of_map. simpl. apply dict_get_set_eq.
  - intros codes newest origin e Hstands Hcodes Hlast Horigin Hne Hfetch.
    assert (length codes = length df) as Hlen.
    { apply comprehension_length in Hcodes. by rewrite Hcodes, length_fmap. }
    rewrite (raw_projector_typed _ _ _ _ _ Hstands Hcodes Hlast). simpl.
    split; [|by eapply raw_caller_codes].
    pose proof (origins_spec _ _ Hlast) as (_ & _ & _ & Horigins).
    assert (origin ∈ removelast (merge_sort Z.le
              (unique (omap stand (zip_with raw.typed df codes))))) as Ho.
    { apply Horigins. split; [by apply elem_of_raw_stands | done]. }
    destruct (comprehension_Raise (fun o => _fetch_mapping o newest) _ origin e Ho Hfetch)
      as (origin' & e' & Ho' & Hf' & Hc).
    exists origin', e'. apply Horigins in Ho' as [Ho1 Ho2].
    split; [by apply (elem_of_raw_stands df codes)|]. split; [done|]. split; [done|].
    unfold map_multiple_gemeindestaende_to_newest. cbv zeta. rewrite Hlast. by rewrite Hc.
Qed.

(** X19. What the projector leaves alone.  The returned table consists, in
    the order of the data, of one or more rows for every row of the data;
    each of them has the code that the cast of line 548 made of that row's
    code cell (0 where it was missing), its Gemeindestand, and its cell in
    every column other than the new [bfs_gmde_code_<newest>].  No row is
    lost and no other column is touched. *)
Theorem projector_keeps_rows
    (_fetch_mapping : date -> date -> result (list edge))
    (astype_overflow : code_value -> result Z) (df : list raw_row) (out : list row) :
  (raw.map_multiple_gemeindestaende_to_newest _fetch_mapping astype_overflow df).2
  = Ok out ->
  exists newest groups,
    out = concat groups /\
    Forall2 (fun r group =>
               group <> [] /\
               exists z,
                 raw.astype_int astype_overflow (raw_code r) = Ok z /\
                 forall r', r' ∈ group ->
                   code r' = Some z /\ raw_stand (raw.untyped r') = raw_stand r /\
                   forall c, c <> BfsGmdeCode newest ->
                     dict_get c (extra r') = dict_get c (raw_extra r))
            df groups.
Proof.
  intros (Hstands & codes & newest & Hcodes & Hlast & Hres)%raw_projector_Ok_inv.
  destruct (typed_projector_keeps_rows _ _ _ _ Hlast Hres) as (groups & -> & Hall).
  exists newest, groups. split; [done|].
  apply (raw_typed_rows astype_overflow _ df codes groups Hcodes Hstands) in Hall.
  eapply Forall2_impl; [exact Hall|].
  intros r group (Hd & z & Hz & Hne & Hrows). split; [done|]. exists z. split; [done|].
  intros r' Hr'. destruct (Hrows r' Hr') as (Hc & Hs & Hx). split; [done|].
  split; [by eapply raw_untyped_typed | done].
Qed.

Lemma projector_keeps_rows_witness :
  let df := [ {| raw_code := CodeFloat 1; raw_stand := StandDate d2019;
                 raw_extra := [(Col "name", Str "A")] |};
              {| raw_code := CodeNA; raw_stand := StandNA;
                 raw_extra := [(Col "name", Str "?")] |};
              {| raw_code := CodeInt 4; raw_stand := StandDate d2021;
                 raw_extra := [(Col "name", Str "D")] |} ]%Z in
  exists newest groups,
    [ {| code := Some 1%Z; stand := Some d2019;
         extra := [(Col "name", Str "A"); (BfsGmdeCode d2021, Int 10)] |};
      {| code := Some 1%Z; stand := Some d2019;
         extra := [(Col "name", Str "A"); (BfsGmdeCode d2021, Int 11)] |};
      {| code := Some 0%Z; stand := None;
         extra := [(Col "name", Str "?"); (BfsGmdeCode d2021, Int 0)] |};
      {| code := Some 4%Z; stand := Some d2021;
         extra := [(Col "name", Str "D"); (BfsGmdeCode d2021, Int 4)] |} ]
    = concat groups /\
    Forall2 (fun r group =>
               group <> [] /\
               exists z,
                 raw.astype_int wrap_int64 (raw_code r) = Ok z /\
                 forall r', r' ∈ group ->
                   code r' = Some z /\ raw_stand (raw.untyped r') = raw_stand r /\
                   forall c, c <> BfsGmdeCode newest ->
                     dict_get c (extra r') = dict_get c (raw_extra r))
            df groups.
Proof.
  apply (projector_keeps_rows fetch3 wrap_int64
           [ {| raw_code := CodeFloat 1; raw_stand := StandDate d2019;
                raw_extra := [(Col "name", Str "A")] |};
             {| raw_code := CodeNA; raw_stand := StandNA;
                raw_extra := [(Col "name", Str "?")] |};
             {| raw_code := CodeInt 4; raw_stand := StandDate d2021;
                raw_extra := [(Col "name", Str "D")] |} ]%Z).
  reflexivity.
Defined.

(** X20. Data of a single Gemeindestand.  When every Gemeindestand cell of
    the data is missing or one and the same date and every code cell can be
    cast, the projector issues no request: the call is the same whatever a
    request would return or raise.  And when it returns, it returns the very
    object of the caller: one row per row, the new column holding the row's
    own code as cast, and 0 for a row without Gemeindestand. *)
Theorem projector_single_gemeindestand
    (_fetch_mapping : date -> date -> result (list edge))
    (astype_overflow : code_value -> result Z)
    (df : list raw_row) (codes : list Z) (newest : date) :
  Forall (fun r => date_or_missing (raw_stand r)) df ->
  comprehension (raw.astype_int astype_overflow) (raw_code <$> df) = Ok codes ->
  StandDate newest ∈ raw_stand <$> df ->
  (forall d, StandDate d ∈ raw_stand <$> df -> d = newest) ->
  (forall _fetch_mapping' : date -> date -> result (list edge),
     raw.map_multiple_gemeindestaende_to_newest _fetch_mapping' astype_overflow df
     = raw.map_multiple_gemeindestaende_to_newest _fetch_mapping astype_overflow df) /\
  (forall out,
     (raw.map_multiple_gemeindestaende_to_newest _fetch_mapping astype_overflow df).2
     = Ok out ->
     (raw.map_multiple_gemeindestaende_to_newest _fetch_mapping astype_overflow df).1
     = raw.untyped <$> out /\
     Forall2 (fun r r' =>
                exists z,
                  raw.astype_int astype_overflow (raw_code r) = Ok z /\
                  code r' = Some z /\ raw_stand (raw.untyped r') = raw_stand r /\
                  projected newest r'
                  = Some (Int (match raw_stand r with
                               | StandDate _ => z
                               | _ => 0%Z
                               end)))
             df out).
Proof.
  intros Hstands Hcodes Hin Hall.
  assert (length codes = length df) as Hlen.
  { apply comprehension_length in Hcodes. by rewrite Hcodes, length_fmap. }
  destruct (typed_projector_single_gemeindestand
              (zip_with raw.typed df codes) newest) as (out & Hcall & Hrows).
  { by apply elem_of_raw_stands. }
  { intros d Hd. apply Hall. by apply (elem_of_raw_stands df codes). }
  assert (forall fetch : date -> date -> result (list edge),
            raw.map_multiple_gemeindestaende_to_newest fetch astype_overflow df
            = (raw.untyped <$> out, Ok out)) as Hraw.
  { intros fetch.
    assert ((map_multiple_gemeindestaende_to_newest fetch
               (zip_with raw.typed df codes)).2 = Ok out) as Hres by by rewrite Hcall.
    apply projector_returns in Hres as (newest' & Hlast & _).
    rewrite (raw_projector_typed _ _ _ _ _ Hstands Hcodes Hlast). by rewrite Hcall. }
  split.
  - intros fetch'. by rewrite !Hraw.
  - intros out'. rewrite Hraw. simpl. intros [= <-]. split; [done|].
    apply (raw_typed_rows astype_overflow _ df codes out Hcodes Hstands) in Hrows.
    eapply Forall2_impl; [exact Hrows|].
    intros r r' (Hd & z & Hz & Hc & Hs & Hp). exists z. split; [done|]. split; [done|].
    split; [by eapply raw_untyped_typed|]. rewrite Hp. simpl.
    by destruct (raw_stand r).
Qed.

Lemma projector_single_gemeindestand_witness :
  let df := [ {| raw_code := CodeFloat 4; raw_stand := StandDate d2021;
                 raw_extra := [(Col "name", Str "D")] |};
              {| raw_code := CodeInt 9; raw_stand := StandNA;
                 raw_extra := [(Col "name", Str "?")] |} ]%Z in
  (forall _fetch_mapping' : date -> date -> result (list edge),
     raw.map_multiple_gemeindestaende_to_newest _fetch_mapping' wrap_int64 df
     = raw.map_multiple_gemeindestaende_to_newest
         (fun _ _ => Raise ClientError) wrap_int64 df) /\
  (forall out,
     (raw.map_multiple_gemeindestaende_to_newest
        (fun _ _ => Raise ClientError) wrap_int64 df).2 = Ok out ->
     (raw.map_multiple_gemeindestaende_to_newest
        (fun _ _ => Raise ClientError) wrap_int64 df).1 = raw.untyped <$> out /\
     Forall2 (fun r r' =>
                exists z,
                  raw.astype_int wrap_int64 (raw_code r) = Ok z /\
                  code r' = Some z /\ raw_stand (raw.untyped r') = raw_stand r /\
                  projected d2021 r'
                  = Some (Int (match raw_stand r with
                               | StandDate _ => z
                               | _ => 0%Z
                               end)))
             df out).
Proof.
  apply (projector_single_gemeindestand (fun _ _ => Raise ClientError) wrap_int64
           [ {| raw_code := CodeFloat 4; raw_stand := StandDate d2021;
                raw_extra := [(Col "name", Str "D")] |};
             {| raw_code := CodeInt 9; raw_stand := StandNA;
                raw_extra := [(Col "name", Str "?")] |} ]%Z
           [4; 9]%Z d2021).
  - by_compute.
  - reflexivity.
  - by_compute.
  - intros d Hd. apply elem_of_cons in Hd as [[= ->]|Hd]; [done|].
    apply list_elem_of_singleton in Hd. discriminate.
Defined.

(** X30. The values of the new column.  In the returned table the rows made
    from one row of the data carry, in the column [bfs_gmde_code_<newest>]:
    the row's own code as cast by line 548 when the row is of the newest
    Gemeindestand; for a row of an older Gemeindestand, the terminal codes of
    the edges of that Gemeindestand's table that start at the row's code, one
    returned row per edge in the order of the table, and 0 in a single row
    when no edge starts there; and 0 for a row without Gemeindestand. *)
Theorem projector_projected_values
    (_fetch_mapping : date -> date -> result (list edge))
    (astype_overflow : code_value -> result Z) (df : list raw_row) (out : list row) :
  (raw.map_multiple_gemeindestaende_to_newest _fetch_mapping astype_overflow df).2
  = Ok out ->
  exists newest groups,
    out = concat groups /\
    Forall2 (fun r group =>
               exists z,
                 raw.astype_int astype_overflow (raw_code r) = Ok z /\
                 match raw_stand r with
                 | StandDate origin =>
                     if decide (origin = newest)
                     then map (projected newest) group = [Some (Int z)]
                     else exists table cast,
                            _fetch_mapping origin newest = Ok table /\
                            int_columns table = Ok cast /\
                            map (projected newest) group
                            = match filter (fun m => m.1 = z) cast with
                              | [] => [Some (Int 0)]
                              | matches => map (fun m => Some (Int m.2)) matches
                              end
                 | _ => map (projected newest) group = [Some (Int 0)]
                 end)
            df groups.
Proof.
  intros (Hstands & codes & newest & Hcodes & Hlast & Hres)%raw_projector_Ok_inv.
  destruct (typed_projector_projected_values _ _ _ _ Hlast Hres) as (groups & -> & Hall).
  exists newest, groups. split; [done|].
  apply (raw_typed_rows astype_overflow _ df codes groups Hcodes Hstands) in Hall.
  eapply Forall2_impl; [exact Hall|].
  intros r group (Hd & z & Hz & HQ). exists z. split; [done|].
  simpl in HQ. by destruct (raw_stand r).
Qed.

Lemma projector_projected_values_witness :
  let df := [ {| raw_code := CodeFloat 1; raw_stand := StandDate d2019;
                 raw_extra := [(Col "name", Str "A")] |};
              {| raw_code := CodeInt 77; raw_stand := StandDate d2018;
                 raw_extra := [(Col "name", Str "zz")] |};
              {| raw_code := CodeInt 4; raw_stand := StandDate d2021;
                 raw_extra := [(Col "name", Str "D")] |} ]%Z in
  exists newest groups,
    [ {| code := Some 1%Z; stand := Some d2019;
         extra := [(Col "name", Str "A"); (BfsGmdeCode d2021, Int 10)] |};
      {| code := Some 1%Z; stand := Some d2019;
         extra := [(Col "name", Str "A"); (BfsGmdeCode d2021, Int 11)] |};
      {| code := Some 77%Z; stand := Some d2018;
         extra := [(Col "name", Str "zz"); (BfsGmdeCode d2021, Int 0)] |};
      {| code := Some 4%Z; stand := Some d2021;
         extra := [(Col "name", Str "D"); (BfsGmdeCode d2021, Int 4)] |} ]
    = concat groups /\
    Forall2 (fun r group =>
               exists z,
                 raw.astype_int wrap_int64 (raw_code r) = Ok z /\
                 match raw_stand r with
                 | StandDate origin =>
                     if decide (origin = newest)
                     then map (projected newest) group = [Some (Int z)]
                     else exists table cast,
                            fetch3 origin newest = Ok table /\
                            int_columns table = Ok cast /\
                            map (projected newest) group
                            = match filter (fun m => m.1 = z) cast with
                              | [] => [Some (Int 0)]
                              | matches => map (fun m => Some (Int m.2)) matches
                              end
                 | _ => map (projected newest) group = [Some (Int 0)]
                 end)
            df groups.
Proof.
  apply (projector_projected_values fetch3 wrap_int64
           [ {| raw_code := CodeFloat 1; raw_stand := StandDate d2019;
                raw_extra := [(Col "name", Str "A")] |};
             {| raw_code := CodeInt 77; raw_stand := StandDate d2018;
                raw_extra := [(Col "name", Str "zz")] |};
             {| raw_code := CodeInt 4; raw_stand := StandDate d2021;
                raw_extra := [(Col "name", Str "D")] |} ]%Z).
  reflexivity.
Defined.
